(** * Flash-sale purchase path: rate limiter and inventory transaction

    A shallow embedding of
      - [src/unnamed/part_000]            ([getRedisClient], [closeRedisClient],
                                           lib/redis.ts),
      - [src/lib/rateLimit.ts]            ([checkRateLimit], [rateLimitMiddleware],
                                           and, at its end, the stock route [GET]),
      - [src/app/api/purchase/route.ts]   ([POST]),
      - [src/lib/db.ts]                   ([getPool]),
      - [src/unnamed/part_005]            ([handlePurchase] of the purchase button),
      - the end of [src/README.md]        ([StockDisplay] with [fetchStock]),
    together with executable models of the two collaborators the handlers
    talk to: the Redis counter store and the PostgreSQL record store
    reached through the [pg] pool of [src/lib/db.ts].

    Stock, quantities and ids are INTEGER columns and prices
    DECIMAL(10,2) columns, kept in hundredths; the store rejects what
    does not fit.  The total an answer reports is a JavaScript number and
    is kept as the IEEE 754 double the code computes.

    The handlers are [async] functions.  Each [await] of an external call is
    an event of a small free monad [Prog]; the handler text is embedded once
    and then interpreted twice: [run] executes one handler to completion
    (requests applied one at a time), [sched] interleaves several handlers
    at their [await] points. *)

From stdpp Require Import gmap strings list pretty fin_maps.
From Stdlib Require Import ZArith Lia Ascii.
From Stdlib Require Floats.
Local Open Scope Z_scope.

(* ##################################################################### *)
(** * Part I: the handlers and the two stores *)
(* ##################################################################### *)

(* ===================================================================== *)
(** ** Completion of an awaited call *)
(* ===================================================================== *)

Inductive Exn : Type :=
| RedisError          (* a counter-store call was rejected *)
| DbError             (* a statement was rejected by the record store *)
| TypeError.          (* property access on [undefined] *)

(** What [await e] can do to the caller: hand back a value, raise, or never
    resume it (the promise is never settled). *)
Inductive Outcome (A : Type) : Type :=
| Ok (a : A)
| Throw (e : Exn)
| Pending.
Arguments Ok {A} a.
Arguments Throw {A} e.
Arguments Pending {A}.

(* ===================================================================== *)
(** ** Data model *)
(* ===================================================================== *)

(** Rows of [products] and [orders] ([initDatabase], src/lib/db.ts).
    [price] and [total_price] are DECIMAL(10,2) columns: they are kept in
    hundredths.  Display columns that the purchase path never reads
    (description, image_url, updated_at) are left out. *)
Record Product : Type := mkProduct {
  p_name  : string;
  p_stock : Z;
  p_price : Z
}.

Record Order : Type := mkOrder {
  o_id          : Z;
  o_user_id     : string;
  o_product_id  : Z;
  o_quantity    : Z;
  o_total_price : Z;
  o_status      : string;
  o_created_at  : Z
}.

(** The column types of [initDatabase].  [id], [stock], [product_id] and
    [quantity] are INTEGER: a parameter outside the 32-bit range is
    rejected. *)
Definition int4 (z : Z) : bool := (-2147483648 <=? z) && (z <=? 2147483647).

(** [total_price DECIMAL(10,2)]: eight digits before the point. *)
Definition decimal_10_2 (hundredths : Z) : bool :=
  Z.abs hundredths <? 10000000000.

(** [user_id VARCHAR(255)].  A text is the UTF-8 encoding of the
    JavaScript string; its characters are counted, not its bytes.  A byte
    10xxxxxx continues the character before it. *)
Definition continuation (a : ascii) : bool :=
  let n := N_of_ascii a in ((128 <=? n) && (n <? 192))%N.

Fixpoint take_chars (n : nat) (s : string) : string :=
  match s with
  | EmptyString => EmptyString
  | String a rest =>
      if continuation a then String a (take_chars n rest)
      else match n with
           | O => EmptyString
           | S n' => String a (take_chars n' rest)
           end
  end.

Fixpoint drop_chars (n : nat) (s : string) : string :=
  match s with
  | EmptyString => EmptyString
  | String a rest =>
      if continuation a then drop_chars n rest
      else match n with
           | O => s
           | S n' => drop_chars n' rest
           end
  end.

Fixpoint only_spaces (s : string) : bool :=
  match s with
  | EmptyString => true
  | String a rest => Ascii.eqb a " "%char && only_spaces rest
  end.

(** A text parameter with a zero byte is rejected when it is bound. *)
Fixpoint has_nul (s : string) : bool :=
  match s with
  | EmptyString => false
  | String a rest => Ascii.eqb a Ascii.zero || has_nul rest
  end.

(** Assignment to a VARCHAR(255) column: a longer text is rejected,
    unless what exceeds 255 characters is spaces only, which are cut off. *)
Definition varchar_255 (s : string) : option string :=
  if only_spaces (drop_chars 255 s) then Some (take_chars 255 s) else None.

(** JavaScript numbers are IEEE 754 doubles.  [number_of_Z] is the double
    nearest to an integer (the integer itself up to 2^53). *)
Definition number_of_Z (z : Z) : PrimFloat.float :=
  FloatOps.SF2Prim
    (SpecFloat.binary_normalize FloatOps.prec FloatOps.emax z 0 false).

(** [parseFloat] of the text of a DECIMAL(10,2) value, given in
    hundredths: the double nearest to it.  Division of doubles is
    correctly rounded and both operands are exact. *)
Definition parseFloat_decimal (hundredths : Z) : PrimFloat.float :=
  PrimFloat.div (number_of_Z hundredths) (number_of_Z 100).

(** [parseFloat(product.price) * quantity]. *)
Definition js_times (price quantity : Z) : PrimFloat.float :=
  PrimFloat.mul (parseFloat_decimal price) (number_of_Z quantity).

(** Result rows of the two statements that return rows. *)
Record ProductRow : Type := mkProductRow {
  r_id : Z; r_stock : Z; r_price : Z; r_name : string
}.

Record InsertedRow : Type := mkInsertedRow {
  r_order_id : Z; r_created_at : Z
}.

(** The statements [POST] sends, indexed by what [result.rows] holds. *)
Inductive Stmt : Type -> Type :=
| BEGIN    : Stmt unit
| COMMIT   : Stmt unit
| ROLLBACK : Stmt unit
| SELECT_FOR_UPDATE (productId : Z) : Stmt (list ProductRow)
| UPDATE_STOCK (newStock productId : Z) : Stmt unit
| INSERT_ORDER (userId : string) (productId quantity totalPrice : Z)
    : Stmt (list InsertedRow).

(** External calls of the purchase path. *)
Inductive Eff : Type -> Type :=
| ReadRedisClient : Eff bool                 (* is the module variable set? *)
| CreateClient    : Eff unit                 (* redisClient = createClient(..) *)
| Connect         : Eff (Outcome unit)       (* redisClient.connect() *)
| Incr (key : string) : Eff (Outcome Z)
| Expire (key : string) (seconds : Z) : Eff (Outcome bool)
| Ttl (key : string) : Eff (Outcome Z)
| Query {R : Type} (s : Stmt R) : Eff (Outcome R).   (* db.query(..) on the pool *)

(* ===================================================================== *)
(** ** Handler programs *)
(* ===================================================================== *)

Inductive Prog (A : Type) : Type :=
| Ret (r : Outcome A)
| Vis {X : Type} (e : Eff X) (k : X -> Prog A).
Arguments Ret {A} r.
Arguments Vis {A X} e k.

Fixpoint bind {A B : Type} (p : Prog A) (f : A -> Prog B) : Prog B :=
  match p with
  | Ret (Ok a) => f a
  | Ret (Throw e) => Ret (Throw e)
  | Ret Pending => Ret Pending
  | Vis e k => Vis e (fun x => bind (k x) f)
  end.

(** [try { p } catch (error) { h error }]. *)
Fixpoint try_catch {A : Type} (p : Prog A) (h : Exn -> Prog A) : Prog A :=
  match p with
  | Ret (Throw e) => h e
  | Ret r => Ret r
  | Vis e k => Vis e (fun x => try_catch (k x) h)
  end.

Definition ret {A : Type} (a : A) : Prog A := Ret (Ok a).
Definition throw {A : Type} (e : Exn) : Prog A := Ret (Throw e).
Definition perform {X : Type} (e : Eff X) : Prog X := Vis e (fun x => Ret (Ok x)).
Definition await {X : Type} (e : Eff (Outcome X)) : Prog X := Vis e (fun o => Ret o).

Declare Scope prog_scope.
Delimit Scope prog_scope with prog.
Notation "x <- p ;; k" := (bind p (fun x => k))
  (at level 100, p at next level, right associativity) : prog_scope.
Notation "p ;; k" := (bind p (fun _ => k))
  (at level 100, right associativity) : prog_scope.
Local Open Scope prog_scope.

(* ===================================================================== *)
(** ** lib/redis.ts *)
(* ===================================================================== *)

(** [getRedisClient]: the client is created and stored in the module
    variable before [connect()] is awaited. *)
Definition getRedisClient : Prog unit :=
  isSet <- perform ReadRedisClient ;;
  if negb isSet then
    perform CreateClient ;;
    await Connect ;;
    ret tt
  else ret tt.

(* ===================================================================== *)
(** ** lib/rateLimit.ts *)
(* ===================================================================== *)

Record RateLimitOptions : Type := mkOptions {
  maxRequests : Z;
  windowMs    : Z;
  identifier  : string
}.

Record RateLimitResult : Type := mkResult {
  allowed    : bool;
  retryAfter : option Z
}.

(** [Math.ceil(a / b)] on integers, for [0 < b]. *)
Definition ceil_div (a b : Z) : Z := - ((- a) / b).

Definition rate_limit_key (identifier : string) : string :=
  "rate_limit:" +:+ identifier.

Definition checkRateLimit (options : RateLimitOptions) : Prog RateLimitResult :=
  getRedisClient ;;
  let key := rate_limit_key (identifier options) in
  try_catch
    (current <- await (Incr key) ;;
     (if current =? 1
      then await (Expire key (ceil_div (windowMs options) 1000)) ;; ret tt
      else ret tt) ;;
     if maxRequests options <? current then
       ttl <- await (Ttl key) ;;
       ret {| allowed := false;
              retryAfter := Some (if 0 <? ttl then ttl
                                  else ceil_div (windowMs options) 1000) |}
     else ret {| allowed := true; retryAfter := None |})
    (fun _ => ret {| allowed := true; retryAfter := None |}).

(** The request as the handlers read it.  The body is the object
    [req.json()] resolves to, with the three fields [POST] destructures; a
    body that is not JSON makes [req.json()] raise and is outside this
    type. *)
Record PurchaseBody : Type := mkBody {
  productId : option Z;
  userId    : option string;
  quantity  : option Z
}.

Record NextRequest : Type := mkRequest {
  json            : PurchaseBody;      (* req.json() *)
  query_userId    : option string;     (* req.nextUrl.searchParams.get('userId') *)
  x_forwarded_for : option string;     (* req.headers.get('x-forwarded-for') *)
  x_real_ip       : option string      (* req.headers.get('x-real-ip') *)
}.

Record OrderInfo : Type := mkOrderInfo {
  i_id : Z; i_productId : Z; i_productName : string; i_quantity : Z;
  i_totalPrice : PrimFloat.float;       (* a JavaScript number, not a DECIMAL *)
  i_remainingStock : Z; i_createdAt : Z
}.

Inductive Body : Type :=
| Message (success : bool) (message : string)
| Purchased (success : bool) (message : string) (order : OrderInfo).

Record NextResponse : Type := mkResponse {
  body    : Body;
  status  : Z;
  headers : list (string * string)
}.

(** [NextResponse.json(b)] and [NextResponse.json(b, { status })]. *)
Definition json_response (b : Body) (st : Z) : NextResponse :=
  {| body := b; status := st; headers := [] |}.

(** [a || b] on strings that may be absent: the empty string is falsy. *)
Definition str_or (a : option string) (b : string) : string :=
  match a with
  | Some s => if String.eqb s "" then b else s
  | None => b
  end.

(** [s.split(',')[0]]. *)
Fixpoint first_segment (s : string) : string :=
  match s with
  | EmptyString => EmptyString
  | String c r => if Ascii.eqb c ","%char then EmptyString else String c (first_segment r)
  end.

(** [n || 60] on numbers. *)
Definition num_or (a : option Z) (b : Z) : Z :=
  match a with
  | Some n => if n =? 0 then b else n
  | None => b
  end.

Definition rate_limited (msg : string) (retry : option Z) (limit : string)
  : NextResponse :=
  {| body := Message false msg;
     status := 429;
     headers := [("Retry-After", pretty (num_or retry 60));
                 ("X-RateLimit-Limit", limit);
                 ("X-RateLimit-Remaining", "0")] |}.

Definition finalUserId (req : NextRequest) (userId : option string) : string :=
  str_or userId (str_or (query_userId req) "anonymous").

Definition client_ip (req : NextRequest) : string :=
  str_or (first_segment <$> x_forwarded_for req) (str_or (x_real_ip req) "unknown").

Definition rateLimitMiddleware (req : NextRequest) (maxRequests windowMs : Z)
    (userId : option string) : Prog (option NextResponse) :=
  let finalUserId := finalUserId req userId in
  let ip := client_ip req in
  userLimit <- checkRateLimit {| maxRequests := maxRequests;
                                 windowMs := windowMs;
                                 identifier := "user:" +:+ finalUserId |} ;;
  if negb (allowed userLimit) then
    ret (Some (rate_limited "Rate limit exceeded for user"
                 (retryAfter userLimit) (pretty maxRequests)))
  else
    ipLimit <- checkRateLimit {| maxRequests := 10;
                                 windowMs := 60000;
                                 identifier := "ip:" +:+ ip |} ;;
    if negb (allowed ipLimit) then
      ret (Some (rate_limited "Rate limit exceeded for IP"
                   (retryAfter ipLimit) "10"))
    else ret None.

(* ===================================================================== *)
(** ** app/api/purchase/route.ts *)
(* ===================================================================== *)

(** Lines 23-91 of [POST]: the statements sent through [db = getPool()],
    from [BEGIN] to the end of the inner [try]/[catch].  The pool is taken
    as configured (DATABASE_URL set), so [getPool()] itself does not
    raise.  [parseInt(product.stock)] is the identity on an INTEGER column.
    [totalPrice = parseFloat(product.price) * quantity] is a double: the
    answer carries it as it is ([js_times]), and the INSERT sends its
    text, which the column [total_price DECIMAL(10,2)] rounds to two
    decimals.  The double is within 2^-52 (relative) of the exact product
    of the DECIMAL(10,2) price and the INTEGER quantity, and the column
    holds less than 10^8, so what it reads from that text is the exact
    product whenever it accepts it: the statement is given the exact
    product, in hundredths. *)
Definition purchaseTransaction (productId : Z) (userId : string) (quantity : Z)
  : Prog NextResponse :=
  await (Query BEGIN) ;;
  try_catch
    (productResult <- await (Query (SELECT_FOR_UPDATE productId)) ;;
     match productResult with
     | [] =>
         await (Query ROLLBACK) ;;
         ret (json_response (Message false "Product not found") 404)
     | product :: _ =>
         let currentStock := r_stock product in
         let price := r_price product in
         if currentStock <? quantity then
           await (Query ROLLBACK) ;;
           ret (json_response (Message false "Out of stock") 200)
         else
           let newStock := currentStock - quantity in
           await (Query (UPDATE_STOCK newStock productId)) ;;
           let totalPrice := price * quantity in
           orderResult <-
             await (Query (INSERT_ORDER userId productId quantity totalPrice)) ;;
           await (Query COMMIT) ;;
           match orderResult with
           | [] => throw TypeError
           | row :: _ =>
               ret (json_response
                      (Purchased true "Purchase successful"
                         {| i_id := r_order_id row;
                            i_productId := productId;
                            i_productName := r_name product;
                            i_quantity := quantity;
                            i_totalPrice := js_times price quantity;
                            i_remainingStock := newStock;
                            i_createdAt := r_created_at row |})
                      200)
           end
     end)
    (fun error => await (Query ROLLBACK) ;; throw error).

(** [!productId || !userId]: [undefined], [0] and [""] are falsy. *)
Definition present_fields (b : PurchaseBody) : option (Z * string) :=
  match productId b, userId b with
  | Some pid, Some uid =>
      if (pid =? 0) || String.eqb uid "" then None else Some (pid, uid)
  | _, _ => None
  end.

Definition POST (req : NextRequest) : Prog NextResponse :=
  try_catch
    (let body := json req in
     let quantity := default 1 (quantity body) in
     rateLimitResponse <- rateLimitMiddleware req 5 60000 (userId body) ;;
     match rateLimitResponse with
     | Some response => ret response
     | None =>
         match present_fields body with
         | None =>
             ret (json_response (Message false "Missing productId or userId") 400)
         | Some (productId, userId) =>
             purchaseTransaction productId userId quantity
         end
     end)
    (fun _ => ret (json_response (Message false "Internal server error") 500)).

(* ===================================================================== *)
(** ** The counter store (Redis) *)
(* ===================================================================== *)

(** The collaborator behind [redis.incr], [redis.expire] and [redis.ttl]:
    keys holding a count, with the semantics of the Redis commands INCR,
    EXPIRE and TTL. *)

(** A counter with its absolute expiry time in milliseconds, if any. *)
Record Entry : Type := mkEntry {
  e_count  : Z;
  e_expiry : option Z
}.

Definition live (now : Z) (e : Entry) : bool :=
  match e_expiry e with
  | None => true
  | Some t => now <? t
  end.

Definition lookup_live (now : Z) (cs : gmap string Entry) (key : string)
  : option Entry :=
  match cs !! key with
  | Some e => if live now e then Some e else None
  | None => None
  end.

(** INCR: an absent or expired key restarts at 1 without expiry. *)
Definition redis_incr (now : Z) (key : string) (cs : gmap string Entry)
  : Z * gmap string Entry :=
  match lookup_live now cs key with
  | Some e => (e_count e + 1, <[key := mkEntry (e_count e + 1) (e_expiry e)]> cs)
  | None => (1, <[key := mkEntry 1 None]> cs)
  end.

(** EXPIRE: a non-positive timeout deletes the key. *)
Definition redis_expire (now : Z) (key : string) (seconds : Z)
    (cs : gmap string Entry) : bool * gmap string Entry :=
  match lookup_live now cs key with
  | Some e =>
      (true, if seconds <=? 0 then delete key cs
             else <[key := mkEntry (e_count e) (Some (now + seconds * 1000))]> cs)
  | None => (false, cs)
  end.

(** TTL: -2 for no key, -1 for no expiry, else the rounded remaining seconds. *)
Definition redis_ttl (now : Z) (key : string) (cs : gmap string Entry) : Z :=
  match lookup_live now cs key with
  | None => -2
  | Some e =>
      match e_expiry e with
      | None => -1
      | Some t => (t - now + 500) / 1000
      end
  end.

(** How the next call to the counter store goes. *)
Inductive Fault : Type :=
| Fine       (* served *)
| Fails      (* rejected *)
| Stalls.    (* never answered *)

Inductive ClientState : Type := Closed | Connecting | Ready.

Record Redis : Type := mkRedis {
  redisClient : option ClientState;   (* the module variable of lib/redis.ts *)
  counters    : gmap string Entry;
  faults      : list Fault            (* outcome of the successive calls *)
}.

Definition next_fault (r : Redis) : Fault * list Fault :=
  match faults r with
  | f :: fs => (f, fs)
  | [] => (Fine, [])
  end.

Definition redis_connect (r : Redis) : Outcome unit * Redis :=
  let (f, fs) := next_fault r in
  match f with
  | Fine   => (Ok tt, mkRedis (Some Ready) (counters r) fs)
  | Fails  => (Throw RedisError, mkRedis (Some Closed) (counters r) fs)
  | Stalls => (Pending, mkRedis (Some Connecting) (counters r) fs)
  end.

(** A command on the client: rejected when the client is closed, queued
    for ever while it is still connecting, else served or not as the store
    decides. *)
Definition redis_command {X : Type} (r : Redis)
    (cmd : gmap string Entry -> X * gmap string Entry) : Outcome X * Redis :=
  match redisClient r with
  | Some Ready =>
      let (f, fs) := next_fault r in
      match f with
      | Fine =>
          let (x, cs) := cmd (counters r) in (Ok x, mkRedis (Some Ready) cs fs)
      | Fails => (Throw RedisError, mkRedis (Some Ready) (counters r) fs)
      | Stalls => (Pending, mkRedis (Some Ready) (counters r) fs)
      end
  | Some Connecting => (Pending, r)
  | _ => (Throw RedisError, r)
  end.

(* ===================================================================== *)
(** ** The record store (PostgreSQL behind the pg pool) *)
(* ===================================================================== *)

(** The collaborator behind [db.query]: the tables [products] and
    [orders] with the column types of [initDatabase], one session per
    pooled connection, transactions at the default READ COMMITTED level,
    and the row lock of SELECT .. FOR UPDATE, which is held by the
    transaction that took it until that transaction commits or rolls
    back.  The store rejects a statement whose parameters do not fit
    their columns and every statement of an aborted transaction.  A
    connection that is lost or times out is outside this model; what the
    handler does with any answer whatever of any call is the subject of
    [returns] below. *)

(** One pooled connection: whether a transaction is open on it, the
    writes of that transaction that are not committed yet, and whether the
    transaction is aborted: after a rejected statement every statement of
    the transaction is rejected until it is ended, and ending it, by
    ROLLBACK or by COMMIT, rolls it back. *)
Record Conn : Type := mkConn {
  inTx     : bool;
  txStock  : gmap Z Z;
  txOrders : list Order;
  failed   : bool      (* a statement of the open transaction was rejected *)
}.

Definition idle : Conn := mkConn false ∅ [] false.

Record Db : Type := mkDb {
  products : gmap Z Product;
  orders   : list Order;
  orderSeq : Z;                (* next value of the orders id sequence *)
  rowLocks : gmap Z nat;       (* product row -> connection holding its lock *)
  conns    : gmap nat Conn
}.

Definition conn_of (c : nat) (d : Db) : Conn := default idle (conns d !! c).

(** May connection [c] touch row [pid], or does another connection's
    transaction hold its lock? *)
Definition lock_free (c : nat) (pid : Z) (d : Db) : bool :=
  match rowLocks d !! pid with
  | Some c' => bool_decide (c' = c)
  | None => true
  end.

Definition release (c : nat) (locks : gmap Z nat) : gmap Z nat :=
  filter (fun kv => kv.2 ≠ c) locks.

Definition set_stock (v : Z) (p : Product) : Product :=
  mkProduct (p_name p) v (p_price p).

Definition apply_stock (tx : gmap Z Z) (ps : gmap Z Product) : gmap Z Product :=
  map_imap (fun pid p => Some (set_stock (default (p_stock p) (tx !! pid)) p)) ps.

(** A rejected statement: it raises, and the transaction open on the
    connection, if any, is aborted.  [seq] is the order sequence
    afterwards: a value taken from it is not given back. *)
Definition rejected {R : Type} (c : nat) (seq : Z) (d : Db)
  : option (Outcome R * Db) :=
  let cn := conn_of c d in
  Some (Throw DbError,
        mkDb (products d) (orders d) seq (rowLocks d)
             (if inTx cn
              then <[c := mkConn true (txStock cn) (txOrders cn) true]> (conns d)
              else conns d)).

(** The end of a transaction that is not committed. *)
Definition rolled_back (c : nat) (d : Db) : Db :=
  mkDb (products d) (orders d) (orderSeq d)
       (release c (rowLocks d)) (<[c := idle]> (conns d)).

(** Execute one statement on connection [c].  [None]: the statement waits
    for a row lock held by another connection.  BEGIN inside a transaction
    and COMMIT outside one only raise a warning; a statement outside a
    transaction commits at once.  A parameter is rejected when it is bound
    if it does not read as the type of its column (a row's id is an
    INTEGER, so only an id that finds no row can be out of range).  INSERT
    takes the next value of the sequence, then assigns [user_id] and
    [total_price], and last checks the foreign key
    [product_id REFERENCES products(id)], waiting for the row if another
    transaction holds it. *)
Definition exec {R : Type} (c : nat) (now : Z) (s : Stmt R) (d : Db)
  : option (Outcome R * Db) :=
  let cn := conn_of c d in
  if inTx cn && failed cn then
    match s in Stmt R return option (Outcome R * Db) with
    | COMMIT => Some (Ok tt, rolled_back c d)
    | ROLLBACK => Some (Ok tt, rolled_back c d)
    | _ => Some (Throw DbError, d)
    end
  else
  match s in Stmt R return option (Outcome R * Db) with
  | BEGIN =>
      Some (Ok tt,
            mkDb (products d) (orders d) (orderSeq d) (rowLocks d)
                 (<[c := mkConn true (txStock cn) (txOrders cn) false]>
                    (conns d)))
  | COMMIT =>
      Some (Ok tt,
            if inTx cn then
              mkDb (apply_stock (txStock cn) (products d))
                   (orders d ++ txOrders cn) (orderSeq d)
                   (release c (rowLocks d)) (<[c := idle]> (conns d))
            else d)
  | ROLLBACK => Some (Ok tt, rolled_back c d)
  | SELECT_FOR_UPDATE pid =>
      match products d !! pid with
      | None => if int4 pid then Some (Ok [], d) else rejected c (orderSeq d) d
      | Some p =>
          if lock_free c pid d then
            Some (Ok [mkProductRow pid (default (p_stock p) (txStock cn !! pid))
                        (p_price p) (p_name p)],
                  if inTx cn then
                    mkDb (products d) (orders d) (orderSeq d)
                         (<[pid := c]> (rowLocks d)) (conns d)
                  else d)
          else None
      end
  | UPDATE_STOCK v pid =>
      if negb (int4 v) then rejected c (orderSeq d) d
      else
      match products d !! pid with
      | None => if int4 pid then Some (Ok tt, d) else rejected c (orderSeq d) d
      | Some p =>
          if lock_free c pid d then
            Some (Ok tt,
                  if inTx cn then
                    mkDb (products d) (orders d) (orderSeq d)
                         (<[pid := c]> (rowLocks d))
                         (<[c := mkConn true (<[pid := v]> (txStock cn))
                                   (txOrders cn) false]> (conns d))
                  else
                    mkDb (<[pid := set_stock v p]> (products d)) (orders d)
                         (orderSeq d) (rowLocks d) (conns d))
          else None
      end
  | INSERT_ORDER uid pid q total =>
      if negb (int4 q) || has_nul uid then rejected c (orderSeq d) d
      else
      match products d !! pid with
      | None =>
          if int4 pid
          then rejected c (orderSeq d + 1) d   (* REFERENCES products(id) *)
          else rejected c (orderSeq d) d
      | Some _ =>
          match varchar_255 uid with
          | Some stored =>
              if decimal_10_2 total then
                if lock_free c pid d then
                  let o := mkOrder (orderSeq d) stored pid q total
                             "completed" now in
                  Some (Ok [mkInsertedRow (orderSeq d) now],
                        if inTx cn then
                          mkDb (products d) (orders d) (orderSeq d + 1)
                               (rowLocks d)
                               (<[c := mkConn true (txStock cn)
                                         (txOrders cn ++ [o]) false]>
                                  (conns d))
                        else
                          mkDb (products d) (orders d ++ [o]) (orderSeq d + 1)
                               (rowLocks d) (conns d))
                else None
              else rejected c (orderSeq d + 1) d
          | None => rejected c (orderSeq d + 1) d
          end
      end
  end.

(* ===================================================================== *)
(** ** Running handlers *)
(* ===================================================================== *)

Record World : Type := mkWorld {
  now   : Z;          (* wall clock, milliseconds *)
  redis : Redis;
  db    : Db
}.

Definition with_redis (w : World) (r : Redis) : World := mkWorld (now w) r (db w).
Definition with_db (w : World) (d : Db) : World := mkWorld (now w) (redis w) d.

Definition lift_redis {X : Type} (w : World) (xr : X * Redis) : option (X * World) :=
  Some (xr.1, with_redis w xr.2).

(** One external call, with its statement (if any) served by connection
    [c] of the pool. *)
Definition handle {X : Type} (c : nat) (e : Eff X) (w : World)
  : option (X * World) :=
  match e in Eff X return option (X * World) with
  | ReadRedisClient =>
      Some (bool_decide (redisClient (redis w) ≠ None), w)
  | CreateClient =>
      Some (tt, with_redis w (mkRedis (Some Closed) (counters (redis w))
                                (faults (redis w))))
  | Connect => lift_redis w (redis_connect (redis w))
  | Incr key => lift_redis w (redis_command (redis w) (redis_incr (now w) key))
  | Expire key seconds =>
      lift_redis w (redis_command (redis w) (redis_expire (now w) key seconds))
  | Ttl key =>
      lift_redis w (redis_command (redis w)
                      (fun cs => (redis_ttl (now w) key cs, cs)))
  | Query s =>
      match exec c (now w) s (db w) with
      | Some (o, d) => Some (o, with_db w d)
      | None => None
      end
  end.

(** A handler run on its own, to completion: every statement is served by
    connection 0 (what the pool does when requests do not overlap) and the
    clock stands still meanwhile.  A statement that waits for a lock nobody
    will release never completes. *)
Fixpoint run {A : Type} (p : Prog A) (w : World) : Outcome A * World :=
  match p with
  | Ret r => (r, w)
  | Vis e k =>
      match handle 0 e w with
      | Some (x, w') => run (k x) w'
      | None => (Pending, w)
      end
  end.

(** [max: 20] of the pool built by [getPool] (src/lib/db.ts). *)
Definition pool_max : nat := 20.

(** Overlapping handlers.  [POST] sends each statement with [db.query] on
    the pool itself and never checks a client out, so every statement is
    served by whichever pooled connection is handed to it.  A schedule
    names, step by step, the handler that resumes at its [await] and the
    connection that serves it.  [None]: the named handler has finished,
    waits for a row lock, or the connection is not one of the pool's. *)
Definition step {A : Type} (c : nat) (p : Prog A) (w : World)
  : option (Prog A * World) :=
  match p with
  | Ret _ => None
  | Vis e k =>
      if (c <? pool_max)%nat then
        match handle c e w with
        | Some (x, w') => Some (k x, w')
        | None => None
        end
      else None
  end.

Fixpoint sched {A : Type} (schedule : list (nat * nat)) (hs : list (Prog A))
    (w : World) : option (list (Prog A) * World) :=
  match schedule with
  | [] => Some (hs, w)
  | (i, c) :: rest =>
      match hs !! i with
      | None => None
      | Some p =>
          match step c p w with
          | Some (p', w') => sched rest (<[i := p']> hs) w'
          | None => None
          end
      end
  end.

(* ===================================================================== *)
(** ** Which store a handler talks to *)
(* ===================================================================== *)

Definition is_query {X : Type} (e : Eff X) : bool :=
  match e with
  | Query _ => true
  | _ => false
  end.

(** Handlers that only talk to the counter store. *)
Fixpoint redis_only {A : Type} (p : Prog A) : Prop :=
  match p with
  | Ret _ => True
  | Vis e k => is_query e = false /\ forall x, redis_only (k x)
  end.

(** Handlers that only talk to the record store. *)
Fixpoint query_only {A : Type} (p : Prog A) : Prop :=
  match p with
  | Ret _ => True
  | Vis e k => is_query e = true /\ forall x, query_only (k x)
  end.

(** Walks through a concrete handler text, event by event. *)
Ltac store_tac :=
  repeat first
    [ exact I | reflexivity | split | intro | progress simpl
    | match goal with
      | |- context [match ?x with _ => _ end] => destruct x
      end ].

(* ===================================================================== *)
(** ** The rate limiter on a counter store that answers *)
(* ===================================================================== *)

(** The client is connected (or not created yet) and every coming call is
    served. *)
Definition healthy (r : Redis) : Prop :=
  (redisClient r = None \/ redisClient r = Some Ready) /\
  Forall (fun f => f = Fine) (faults r).

Definition connected (r : Redis) : Prop :=
  redisClient r = Some Ready /\ Forall (fun f => f = Fine) (faults r).

(** What one check does to the counters, and what it answers, when the
    store serves every call. *)
Definition check_counters (now : Z) (options : RateLimitOptions)
    (cs : gmap string Entry) : gmap string Entry :=
  let key := rate_limit_key (identifier options) in
  let r := redis_incr now key cs in
  if r.1 =? 1
  then (redis_expire now key (ceil_div (windowMs options) 1000) r.2).2
  else r.2.

Definition check_result (now : Z) (options : RateLimitOptions)
    (cs : gmap string Entry) : RateLimitResult :=
  let key := rate_limit_key (identifier options) in
  if maxRequests options <? (redis_incr now key cs).1 then
    let ttl := redis_ttl now key (check_counters now options cs) in
    {| allowed := false;
       retryAfter := Some (if 0 <? ttl then ttl
                           else ceil_div (windowMs options) 1000) |}
  else {| allowed := true; retryAfter := None |}.

(* ===================================================================== *)
(** ** Successive checks for one identifier *)
(* ===================================================================== *)

Definition at_time (t : Z) (w : World) : World := mkWorld t (redis w) (db w).

(** One check at each of the given instants. *)
Fixpoint checks_at (options : RateLimitOptions) (times : list Z) (w : World)
  : list (Outcome RateLimitResult) * World :=
  match times with
  | [] => ([], w)
  | t :: rest =>
      let r := run (checkRateLimit options) (at_time t w) in
      let rs := checks_at options rest r.2 in
      (r.1 :: rs.1, rs.2)
  end.

Definition allowed_result : RateLimitResult :=
  {| allowed := true; retryAfter := None |}.

(* ===================================================================== *)
(** ** Which counter a handler touches *)
(* ===================================================================== *)

(** Every counter command of the handler is on [key], and the handler sends
    no statement. *)
Definition on_key (key : string) {X : Type} (e : Eff X) : Prop :=
  match e with
  | Incr k | Expire k _ | Ttl k => k = key
  | Query _ => False
  | _ => True
  end.

Fixpoint keyed (key : string) {A : Type} (p : Prog A) : Prop :=
  match p with
  | Ret _ => True
  | Vis e k => on_key key e /\ forall x, keyed key (k x)
  end.

(* ===================================================================== *)
(** ** The two tiers of [rateLimitMiddleware] *)
(* ===================================================================== *)

Definition user_tier (req : NextRequest) (maxReq window : Z)
    (uid : option string) : RateLimitOptions :=
  {| maxRequests := maxReq; windowMs := window;
     identifier := "user:" +:+ finalUserId req uid |}.

Definition ip_tier (req : NextRequest) : RateLimitOptions :=
  {| maxRequests := 10; windowMs := 60000;
     identifier := "ip:" +:+ client_ip req |}.

(** Post-increment value the next INCR on [key] would return. *)
Definition next_count (w : World) (key : string) : Z :=
  (redis_incr (now w) key (counters (redis w))).1.

(** The reading of C9 under test: the IP tier enforces some budget below
    the user tier's [maxReq]. *)
Definition ip_budget_stricter (maxReq window : Z) : Prop :=
  exists b, b < maxReq /\
    forall req uid w,
      healthy (redis w) ->
      (run (checkRateLimit (user_tier req maxReq window uid)) w).1
        = Ok allowed_result ->
      b < next_count w (rate_limit_key (identifier (ip_tier req))) ->
      exists response,
        (run (rateLimitMiddleware req maxReq window uid) w).1
          = Ok (Some response).

Definition demo_db : Db :=
  mkDb {[ 1 := mkProduct "Laptop Pro 15" 5 129999 ]} [] 1 ∅ ∅.

Definition demo_world : World := mkWorld 0 (mkRedis None ∅ []) demo_db.

Definition demo_request (user : string) (q : option Z) : NextRequest :=
  mkRequest (mkBody (Some 1) (Some user) q) None (Some "10.0.0.7, 10.0.0.1") None.

(** Seven requests of the current window already counted for the client
    address, none for the user. *)
Definition busy_ip_world : World :=
  mkWorld 0
    (mkRedis (Some Ready)
       {[ "rate_limit:ip:10.0.0.7" := mkEntry 7 (Some 60000) ]} [])
    demo_db.

Definition count_of (w : World) (key : string) : option Z :=
  e_count <$> counters (redis w) !! key.

(* ===================================================================== *)
(** ** [POST], stage by stage *)
(* ===================================================================== *)

Definition bad_request : NextResponse :=
  json_response (Message false "Missing productId or userId") 400.

Definition internal_error : NextResponse :=
  json_response (Message false "Internal server error") 500.

(** No other transaction is in flight: no row is locked and connection 0
    has no open transaction. *)
Definition quiet (d : Db) : Prop :=
  rowLocks d = ∅ /\ conn_of 0 d = idle.

Definition not_found : NextResponse :=
  json_response (Message false "Product not found") 404.

Definition out_of_stock : NextResponse :=
  json_response (Message false "Out of stock") 200.

Definition purchased (d : Db) (now : Z) (pid : Z) (p : Product) (q : Z)
  : NextResponse :=
  json_response
    (Purchased true "Purchase successful"
       {| i_id := orderSeq d; i_productId := pid; i_productName := p_name p;
          i_quantity := q; i_totalPrice := js_times (p_price p) q;
          i_remainingStock := p_stock p - q; i_createdAt := now |})
    200.

(** What the store makes of a user id that it accepts. *)
Definition stored_user_id (uid : string) : string :=
  default uid (varchar_255 uid).

Definition new_order (d : Db) (now : Z) (uid : string) (pid : Z) (p : Product)
    (q : Z) : Order :=
  mkOrder (orderSeq d) (stored_user_id uid) pid q (p_price p * q)
    "completed" now.

(** The store accepts the UPDATE and the INSERT of a purchase of [q] units
    of [p] by [uid]: the new stock and the quantity are INTEGERs, the user
    id is a text of at most 255 characters (spaces beyond them apart) and
    the total fits DECIMAL(10,2). *)
Definition accepted (uid : string) (q : Z) (p : Product) : bool :=
  int4 (p_stock p - q) && int4 q && negb (has_nul uid) &&
  bool_decide (varchar_255 uid <> None) && decimal_10_2 (p_price p * q).

(** The record store while connection 0 runs a transaction over [d]:
    [seq] is the order sequence, [locks] the row locks, [cn] the state of
    connection 0. *)
Definition txdb (d : Db) (seq : Z) (locks : gmap Z nat) (cn : Conn) : Db :=
  mkDb (products d) (orders d) seq locks (<[0%nat := cn]> (conns d)).

(** Every lock is held by connection 0. *)
Definition own (locks : gmap Z nat) : Prop :=
  forall k c, locks !! k = Some c -> c = 0%nat.

Definition is_purchase (o : Outcome NextResponse) : bool :=
  match o with
  | Ok r => match body r with Purchased _ _ _ => true | Message _ _ => false end
  | _ => false
  end.

Definition requested (req : NextRequest) : Z := default 1 (quantity (json req)).

(** The rate limiter lets the request through. *)
Definition passes_limiter (req : NextRequest) (w : World) : Prop :=
  (run (rateLimitMiddleware req 5 60000 (userId (json req))) w).1 = Ok None.

(** A body without productId, without userId or with a quantity that is
    not positive. *)
Definition malformed (b : PurchaseBody) : bool :=
  match present_fields b with
  | None => true
  | Some _ => match quantity b with Some q => q <=? 0 | None => false end
  end.

(** The reading of C6 under test: such a body gets status 400 and leaves
    the tables alone (even granting that the limiter lets it through). *)
Definition rejects_malformed : Prop :=
  forall req w,
    quiet (db w) -> passes_limiter req w ->
    malformed (json req) = true ->
    exists r, (run (POST req) w).1 = Ok r /\ status r = 400 /\
              products (db (run (POST req) w).2) = products (db w) /\
              orders (db (run (POST req) w).2) = orders (db w).

(* ===================================================================== *)
(** ** Failures of the counter store *)
(* ===================================================================== *)

(** The counter store cannot be reached when the process serves its first
    request. *)
Definition redis_down (f : Fault) : World :=
  mkWorld 0 (mkRedis None ∅ [f]) demo_db.

(** The store answers [connect()] and the first INCR, then rejects the
    EXPIRE that follows; it is fine ever after. *)
Definition expire_lost : World :=
  mkWorld 0 (mkRedis None ∅ [Fine; Fine; Fails]) demo_db.

(** One request every 100 seconds. *)
Definition every_100s : list Z := [0; 100000; 200000; 300000; 400000; 500000].

Definition status_of (o : Outcome NextResponse) : option Z :=
  match o with
  | Ok r => Some (status r)
  | _ => None
  end.

(* ===================================================================== *)
(** ** Requests applied one at a time *)
(* ===================================================================== *)

(** The requests arrive one after the other, each at its own instant, and
    each is served to completion before the next. *)
Fixpoint serve (reqs : list (Z * NextRequest)) (w : World)
  : list (Outcome NextResponse) * World :=
  match reqs with
  | [] => ([], w)
  | (t, req) :: rest =>
      let r := run (POST req) (at_time t w) in
      let rs := serve rest r.2 in
      (r.1 :: rs.1, rs.2)
  end.

(** Units of product [pid] in the committed orders. *)
Fixpoint sold (pid : Z) (os : list Order) : Z :=
  match os with
  | [] => 0
  | o :: rest =>
      (if o_product_id o =? pid then o_quantity o else 0) + sold pid rest
  end.

(** Stock and committed orders of [pid] add up to [total]. *)
Definition balanced (pid total : Z) (d : Db) : Prop :=
  exists p, products d !! pid = Some p /\ 0 <= p_stock p /\
            p_stock p + sold pid (orders d) = total.

(* ===================================================================== *)
(** ** Overlapping requests *)
(* ===================================================================== *)

(** One unit left of product 1. *)
Definition last_unit_world : World :=
  mkWorld 0 (mkRedis None ∅ [])
    (mkDb {[ 1 := mkProduct "4K Monitor" 1 44999 ]} [] 1 ∅ ∅).

Definition alice_buys_one : NextRequest :=
  mkRequest (mkBody (Some 1) (Some "alice") (Some 1)) None (Some "10.0.0.7") None.

Definition bob_buys_one : NextRequest :=
  mkRequest (mkBody (Some 1) (Some "bob") (Some 1)) None (Some "10.0.0.8") None.

(** Both handlers get through the rate limiter (handler 0 first, creating
    the Redis client), then reach their transactions. *)
Definition through_limiter : list (nat * nat) :=
  replicate 8 (0%nat, 0%nat) ++ replicate 6 (1%nat, 0%nat).

(** The pool serves the statements of both handlers on connection 0,
    alternating: BEGIN, BEGIN, SELECT, SELECT, UPDATE, UPDATE, INSERT,
    INSERT, COMMIT, COMMIT. *)
Definition shared_connection : list (nat * nat) :=
  through_limiter ++
  [(0, 0); (1, 0); (0, 0); (1, 0); (0, 0); (1, 0); (0, 0); (1, 0);
   (0, 0); (1, 0)]%nat.

(** Each handler keeps a connection of its own (0 and 1); handler 1 sends
    its SELECT .. FOR UPDATE while handler 0 holds the row. *)
Definition own_connections_early : list (nat * nat) :=
  through_limiter ++ [(0, 0); (1, 1); (0, 0); (1, 1)]%nat.

(** The same, handler 1 resuming after handler 0 has committed. *)
Definition own_connections : list (nat * nat) :=
  through_limiter ++
  [(0, 0); (1, 1); (0, 0); (0, 0); (0, 0); (0, 0); (1, 1); (1, 1)]%nat.

Definition result_of {A : Type} (p : Prog A) : option (Outcome A) :=
  match p with
  | Ret r => Some r
  | Vis _ _ => None
  end.

Definition remaining_reported (o : option (Outcome NextResponse)) : option Z :=
  match o with
  | Some (Ok r) =>
      match body r with
      | Purchased true _ info => Some (i_remainingStock info)
      | _ => None
      end
  | _ => None
  end.

Definition stock_of (pid : Z) (w : World) : option Z :=
  p_stock <$> products (db w) !! pid.

(* ===================================================================== *)
(** ** Further concrete requests and worlds *)
(* ===================================================================== *)

Definition unknown_product_request : NextRequest :=
  mkRequest (mkBody (Some 9) (Some "bob") None) None None (Some "10.0.0.9").

Definition no_user_request : NextRequest :=
  mkRequest (mkBody (Some 1) None None) None None None.

(** Three buyers of two laptops each, five in stock. *)
Definition three_buyers : list (Z * NextRequest) :=
  [(0, demo_request "alice" (Some 2));
   (1, demo_request "bob" (Some 2));
   (2, demo_request "carol" (Some 2))].

(** Alice has used her five purchases of the current window. *)
Definition spent_user_world : World :=
  mkWorld 1000
    (mkRedis (Some Ready)
       {[ "rate_limit:user:alice" := mkEntry 5 (Some 60000) ]} [])
    demo_db.

(* ===================================================================== *)
(** ** lib/redis.ts: closing the client *)
(* ===================================================================== *)

(** [redisClient.quit()]: rejected on a client that is not open; on an open
    one the client is closed first and QUIT is then sent, so a rejected
    QUIT leaves a closed client behind. *)
Definition redis_quit (r : Redis) : Outcome unit * Redis :=
  match redisClient r with
  | Some Ready =>
      let (f, fs) := next_fault r in
      (match f with
       | Fine => Ok tt
       | Fails => Throw RedisError
       | Stalls => Pending
       end, mkRedis (Some Closed) (counters r) fs)
  | Some Connecting => (Pending, r)
  | _ => (Throw RedisError, r)
  end.

(** [closeRedisClient]: the module variable is reset only after [quit()]
    has returned. *)
Definition closeRedisClient (w : World) : Outcome unit * World :=
  match redisClient (redis w) with
  | None => (Ok tt, w)
  | Some _ =>
      let (o, r) := redis_quit (redis w) in
      match o with
      | Ok _ => (Ok tt, with_redis w (mkRedis None (counters r) (faults r)))
      | Throw e => (Throw e, with_redis w r)
      | Pending => (Pending, with_redis w r)
      end
  end.

(* ===================================================================== *)
(** ** lib/db.ts: the pool *)
(* ===================================================================== *)

(** A synchronous call: it returns, or raises an [Error] with a message. *)
Inductive Result (A : Type) : Type :=
| Returned (a : A)
| Raised (message : string).
Arguments Returned {A} a.
Arguments Raised {A} message.

Record PoolOptions : Type := mkPoolOptions {
  connectionString        : string;
  max                     : nat;
  idleTimeoutMillis       : Z;
  connectionTimeoutMillis : Z
}.

(** The server process: the environment variable, the module variable
    [pool] of lib/db.ts, and the two stores. *)
Record Process : Type := mkProcess {
  DATABASE_URL : option string;      (* process.env.DATABASE_URL *)
  pool         : option PoolOptions;
  world        : World
}.

Definition getPool (s : Process) : Result PoolOptions * Process :=
  match pool s with
  | Some p => (Returned p, s)
  | None =>
      match DATABASE_URL s with
      | Some connectionString =>
          if String.eqb connectionString "" then
            (Raised "DATABASE_URL environment variable is not set", s)
          else
            let p := {| connectionString := connectionString;
                        max := 20;
                        idleTimeoutMillis := 30000;
                        connectionTimeoutMillis := 2000 |} in
            (Returned p, mkProcess (DATABASE_URL s) (Some p) (world s))
      | None => (Raised "DATABASE_URL environment variable is not set", s)
      end
  end.

(* ===================================================================== *)
(** ** app/api/stock/[id]/route.ts *)
(* ===================================================================== *)

Inductive StockBody : Type :=
| StockError (success : bool) (message : string)
| StockCount (success : bool) (stock : Z).

Record StockResponse : Type := mkStockResponse {
  s_body   : StockBody;
  s_status : Z
}.

(** What a statement served by connection [c] reads as the stock of a row:
    the committed value, or the value its own open transaction wrote. *)
Definition visible_stock (c : nat) (pid : Z) (p : Product) (d : Db) : Z :=
  default (p_stock p) (txStock (conn_of c d) !! pid).

(** [SELECT stock FROM products WHERE id = $1] with the text of the route
    parameter as [$1].  [int4in] is the store's reading of a text as an
    INTEGER ([None]: the text is rejected and the statement raises).  A
    plain SELECT takes no row lock and waits for none; on a connection
    whose transaction is aborted it is rejected like any statement. *)
Definition select_stock (int4in : string -> option Z) (c : nat) (id : string)
    (d : Db) : Result (list Z) :=
  if inTx (conn_of c d) && failed (conn_of c d)
  then Raised "current transaction is aborted"
  else
  match int4in id with
  | None => Raised "invalid input syntax for type integer"
  | Some pid =>
      match products d !! pid with
      | None => Returned []
      | Some p => Returned [visible_stock c pid p d]
      end
  end.

Definition GET_stock (int4in : string -> option Z) (c : nat) (id : string)
    (s : Process) : StockResponse * Process :=
  match getPool s with
  | (Raised _, s') =>
      ({| s_body := StockError false "Internal server error"; s_status := 500 |},
       s')
  | (Returned _, s') =>
      match select_stock int4in c id (db (world s')) with
      | Raised _ =>
          ({| s_body := StockError false "Internal server error";
              s_status := 500 |}, s')
      | Returned [] =>
          ({| s_body := StockError false "Product not found";
              s_status := 404 |}, s')
      | Returned (stock :: _) =>
          ({| s_body := StockCount true stock; s_status := 200 |}, s')
      end
  end.

(* ===================================================================== *)
(** ** components/StockDisplay.tsx *)
(* ===================================================================== *)

(** [useState<number | null>(null)] and [useState(true)]. *)
Record StockDisplayState : Type := mkStockDisplay {
  sd_stock   : option Z;
  sd_loading : bool
}.

Definition StockDisplay_initial : StockDisplayState :=
  {| sd_stock := None; sd_loading := true |}.

(** [fetchStock]; [network = false]: [fetch] rejects and the request does
    not reach the route. *)
Definition fetchStock (int4in : string -> option Z) (network : bool) (c : nat)
    (productId : string) (ui : StockDisplayState) (s : Process)
  : StockDisplayState * Process :=
  if network then
    let (response, s') := GET_stock int4in c productId s in
    (match s_body response with
     | StockCount true stock => {| sd_stock := Some stock; sd_loading := false |}
     | StockError true _ => {| sd_stock := None; sd_loading := false |}
     | _ => {| sd_stock := sd_stock ui; sd_loading := false |}
     end, s')
  else ({| sd_stock := sd_stock ui; sd_loading := false |}, s).

(** What the component renders. *)
Inductive StockView : Type :=
| LoadingStock                                   (* "Loading stock..." *)
| StockShown (count : string) (outOfStock : bool).  (* "Stock: ..", badge *)

Definition StockDisplay_render (ui : StockDisplayState) : StockView :=
  match sd_stock ui with
  | None => if sd_loading ui then LoadingStock else StockShown "N/A" false
  | Some stock => StockShown (pretty stock) (stock =? 0)
  end.

(* ===================================================================== *)
(** ** components/PurchaseButton.tsx *)
(* ===================================================================== *)







(* ===================================================================== *)
(** ** What a handler can return *)
(* ===================================================================== *)

(** Every result the handler can return, whatever the external calls
    answer, satisfies [P]. *)
Fixpoint returns {A : Type} (P : Outcome A -> Prop) (p : Prog A) : Prop :=
  match p with
  | Ret r => P r
  | Vis _ k => forall x, returns P (k x)
  end.

(** The six answers of [POST]. *)
Definition POST_answer (r : NextResponse) : Prop :=
  (exists retry limit msg, r = rate_limited msg retry limit) \/
  r = bad_request \/ r = internal_error \/ r = not_found \/
  r = out_of_stock \/
  (status r = 200 /\ headers r = [] /\
   exists info, body r = Purchased true "Purchase successful" info).

Definition answers (o : Outcome NextResponse) : Prop :=
  match o with
  | Ok r => POST_answer r
  | Throw _ => False
  | Pending => True
  end.

(** Every committed order has an id below the next value of the
    sequence, and no two share one. *)
Definition ids_fresh (d : Db) : Prop :=
  Forall (fun o => o_id o < orderSeq d) (orders d) /\
  NoDup (o_id <$> orders d).

(* ===================================================================== *)
(** ** Further worlds *)
(* ===================================================================== *)

(** Alice has used up her five purchases; her window ends at 60 s. *)
Definition denied_user_world : World :=
  mkWorld 0
    (mkRedis (Some Ready)
       {[ "rate_limit:user:alice" := mkEntry 5 (Some 60000) ]} [])
    demo_db.


(** Alice's window as above, and a store that rejects the next call. *)
Definition quit_rejected_world : World :=
  mkWorld 0
    (mkRedis (Some Ready)
       {[ "rate_limit:user:alice" := mkEntry 5 (Some 60000) ]} [Fails])
    demo_db.

(** The pool can be had: it exists already, or DATABASE_URL is set to a
    non-empty string. *)
Definition pool_available (s : Process) : Prop :=
  pool s <> None \/ exists url, DATABASE_URL s = Some url /\ url <> "".

(** A process around a world, with its pool not created yet. *)
Definition fresh_process (w : World) : Process :=
  mkProcess (Some "postgres://localhost/shop") None w.

(** A reading of route parameters that accepts "1" and "9". *)
Definition small_ids (id : string) : option Z :=
  if String.eqb id "1" then Some 1
  else if String.eqb id "9" then Some 9
  else None.

Definition stock_answer (stock : Z) : StockResponse :=
  {| s_body := StockCount true stock; s_status := 200 |}.

Definition stock_not_found : StockResponse :=
  {| s_body := StockError false "Product not found"; s_status := 404 |}.

Definition stock_internal_error : StockResponse :=
  {| s_body := StockError false "Internal server error"; s_status := 500 |}.

(* ===================================================================== *)
(** ** Overlapping checks of one counter *)
(* ===================================================================== *)

(** The count INCR would find: 0 for an absent or expired key. *)
Definition live_count (now : Z) (cs : gmap string Entry) (key : string) : Z :=
  default 0 (e_count <$> lookup_live now cs key).

(** A check that holds the count [v] its INCR returned: as long as the
    store serves its commands it talks about [key] only, never shortens
    the expiry to nothing, and answers "allowed" exactly if [v <= limit]. *)
Fixpoint counted (key : string) (limit v : Z) (p : Prog RateLimitResult)
  : Prop :=
  match p with
  | Ret (Ok r) => allowed r = true <-> v <= limit
  | Ret _ => False
  | Vis e k =>
      match e in Eff X return (X -> Prop) -> Prop with
      | Expire key' seconds =>
          fun rest => key' = key /\ 0 < seconds /\ forall b, rest (Ok b)
      | Ttl key' => fun rest => key' = key /\ forall t, rest (Ok t)
      | _ => fun _ => False
      end (fun x => counted key limit v (k x))
  end.

(** A check that has not sent its INCR yet, in a process whose client
    exists. *)
Fixpoint uncounted (key : string) (limit : Z) (p : Prog RateLimitResult)
  : Prop :=
  match p with
  | Ret _ => False
  | Vis e k =>
      match e in Eff X
            return (X -> Prog RateLimitResult) -> (X -> Prop) -> Prop with
      | ReadRedisClient => fun _ rest => rest true
      | Incr key' =>
          fun k _ => key' = key /\ forall v, counted key limit v (k (Ok v))
      | _ => fun _ _ => False
      end k (fun x => uncounted key limit (k x))
  end.

(** Where a check stands: before its INCR, or holding the count [v]. *)
Definition stands (key : string) (limit : Z) (p : Prog RateLimitResult)
    (at_count : option Z) : Prop :=
  match at_count with
  | None => uncounted key limit p
  | Some v => counted key limit v p
  end.

(** The handler has finished and answered "allowed". *)
Definition granted (p : Prog RateLimitResult) : bool :=
  match p with
  | Ret (Ok r) => allowed r
  | _ => false
  end.

Definition finished {A : Type} (p : Prog A) : bool :=
  match p with
  | Ret _ => true
  | Vis _ _ => false
  end.

(** Overlapping checks of one counter that stood at [c0] when they
    started: each stands somewhere, and the counts held are distinct and
    are those from [c0 + 1] to the count now. *)
Definition in_flight (key : string) (limit c0 : Z)
    (hs : list (Prog RateLimitResult)) (w : World) : Prop :=
  connected (redis w) /\
  exists counts : list (option Z),
    Forall2 (stands key limit) hs counts /\
    NoDup (omap id counts) /\
    Forall (fun v => c0 < v <= live_count (now w) (counters (redis w)) key)
      (omap id counts) /\
    live_count (now w) (counters (redis w)) key
      = c0 + Z.of_nat (length (omap id counts)).

(** Three overlapping checks: all three look the client up, then send
    their INCR in the order 1, 0, 2, then handler 1 sends its EXPIRE and
    handler 2 its TTL. *)
Definition overlapping_checks : list (nat * nat) :=
  [(0, 0); (1, 1); (2, 2); (1, 1); (0, 0); (2, 2); (1, 0); (2, 1)]%nat.

(* ===================================================================== *)
(** ** What the column types decide *)
(* ===================================================================== *)

(** The reading of C5 under test: a request that reaches the transaction
    with a productId that names no product is answered 404. *)
Definition unknown_product_gets_404 : Prop :=
  forall req w pid uid,
    quiet (db w) -> passes_limiter req w ->
    present_fields (json req) = Some (pid, uid) ->
    products (db w) !! pid = None ->
    status_of (run (POST req) w).1 = Some 404.


(** The first id beyond INTEGER. *)
Definition out_of_range_request : NextRequest :=
  mkRequest (mkBody (Some 2147483648) (Some "bob") None) None None
    (Some "10.0.0.9").

(** A million laptops at 1299.99 in stock, and an order for a hundred
    thousand of them: 129 999 000.00 does not fit DECIMAL(10,2). *)
Definition warehouse_world : World :=
  mkWorld 0 (mkRedis None ∅ [])
    (mkDb {[ 1 := mkProduct "Laptop Pro 15" 1000000 129999 ]} [] 1 ∅ ∅).

Definition bulk_request : NextRequest := demo_request "alice" (Some 100000).

(** Bob asks for a product that does not exist while Alice buys the last
    unit, the pool serving both on connection 0: Alice's BEGIN, SELECT and
    UPDATE, then Bob's BEGIN, SELECT and ROLLBACK, then Alice's INSERT and
    COMMIT. *)
Definition rollback_in_between : list (nat * nat) :=
  through_limiter ++
  [(0, 0); (0, 0); (0, 0); (1, 0); (1, 0); (1, 0); (0, 0); (0, 0)]%nat.

(* ##################################################################### *)
(** * Part II: properties *)
(* ##################################################################### *)

(* ===================================================================== *)
(** ** Equations of [run] *)
(* ===================================================================== *)

Lemma run_bind {A B : Type} (p : Prog A) (f : A -> Prog B) (w : World) :
  run (bind p f) w =
  match run p w with
  | (Ok a, w') => run (f a) w'
  | (Throw e, w') => (Throw e, w')
  | (Pending, w') => (Pending, w')
  end.
Proof.
  revert w. induction p as [[a|e|]|X e k IH]; intros w; simpl; try reflexivity.
  destruct (handle 0 e w) as [[x w']|]; [apply IH | reflexivity].
Qed.

Lemma run_try_catch {A : Type} (p : Prog A) (h : Exn -> Prog A) (w : World) :
  run (try_catch p h) w =
  match run p w with
  | (Throw e, w') => run (h e) w'
  | r => r
  end.
Proof.
  revert w. induction p as [[a|e|]|X e k IH]; intros w; simpl; try reflexivity.
  destruct (handle 0 e w) as [[x w']|]; [apply IH | reflexivity].
Qed.

Lemma run_await {X : Type} (e : Eff (Outcome X)) (w : World) :
  run (await e) w =
  match handle 0 e w with
  | Some (o, w') => (o, w')
  | None => (Pending, w)
  end.
Proof. simpl. destruct (handle 0 e w) as [[o w']|]; reflexivity. Qed.

(* ===================================================================== *)
(** ** Which store a handler talks to *)
(* ===================================================================== *)

Lemma redis_only_bind {A B : Type} (p : Prog A) (f : A -> Prog B) :
  redis_only p -> (forall a, redis_only (f a)) -> redis_only (bind p f).
Proof.
  induction p as [[a|e|]|X e k IH]; simpl; intros Hp Hf; auto.
  destruct Hp as [He Hk]. split; [exact He | intros x; apply IH; auto].
Qed.

Lemma redis_only_try_catch {A : Type} (p : Prog A) (h : Exn -> Prog A) :
  redis_only p -> (forall e, redis_only (h e)) -> redis_only (try_catch p h).
Proof.
  induction p as [[a|e|]|X e k IH]; simpl; intros Hp Hh; auto.
  destruct Hp as [He Hk]. split; [exact He | intros x; apply IH; auto].
Qed.

Lemma query_only_bind {A B : Type} (p : Prog A) (f : A -> Prog B) :
  query_only p -> (forall a, query_only (f a)) -> query_only (bind p f).
Proof.
  induction p as [[a|e|]|X e k IH]; simpl; intros Hp Hf; auto.
  destruct Hp as [He Hk]. split; [exact He | intros x; apply IH; auto].
Qed.

Lemma query_only_try_catch {A : Type} (p : Prog A) (h : Exn -> Prog A) :
  query_only p -> (forall e, query_only (h e)) -> query_only (try_catch p h).
Proof.
  induction p as [[a|e|]|X e k IH]; simpl; intros Hp Hh; auto.
  destruct Hp as [He Hk]. split; [exact He | intros x; apply IH; auto].
Qed.

Lemma handle_redis_frame {X : Type} (c : nat) (e : Eff X) (w : World) :
  is_query e = false ->
  exists x w', handle c e w = Some (x, w') /\ db w' = db w /\ now w' = now w.
Proof.
  destruct e; simpl; intros H; try discriminate; eauto.
Qed.

Lemma handle_query_frame {X : Type} (c : nat) (e : Eff X) (w : World) x w' :
  is_query e = true -> handle c e w = Some (x, w') ->
  redis w' = redis w /\ now w' = now w.
Proof.
  destruct e; simpl; intros H; try discriminate.
  destruct (exec c (now w) s (db w)) as [[o d]|]; intros [= <- <-]; auto.
Qed.

(** The rate limiter never touches the record store or the clock. *)
Lemma redis_only_frame {A : Type} (p : Prog A) (w : World) :
  redis_only p -> db (run p w).2 = db w /\ now (run p w).2 = now w.
Proof.
  revert w. induction p as [r|X e k IH]; intros w; simpl; [auto|].
  intros [He Hk].
  destruct (handle_redis_frame 0 e w He) as (x & w' & -> & Hd & Hn).
  destruct (IH x w' (Hk x)) as [-> ->]. auto.
Qed.

(** The transaction never touches the counter store or the clock. *)
Lemma query_only_frame {A : Type} (p : Prog A) (w : World) :
  query_only p -> redis (run p w).2 = redis w /\ now (run p w).2 = now w.
Proof.
  revert w. induction p as [r|X e k IH]; intros w; simpl; [auto|].
  intros [He Hk].
  destruct (handle 0 e w) as [[x w']|] eqn:Hh; [|auto].
  destruct (handle_query_frame 0 e w x w' He Hh) as [<- <-]. apply IH, Hk.
Qed.

Lemma getRedisClient_redis_only : redis_only getRedisClient.
Proof. unfold getRedisClient. store_tac. Qed.

Lemma checkRateLimit_redis_only (options : RateLimitOptions) :
  redis_only (checkRateLimit options).
Proof. unfold checkRateLimit, getRedisClient. store_tac. Qed.

Lemma rateLimitMiddleware_redis_only req maxReq window uid :
  redis_only (rateLimitMiddleware req maxReq window uid).
Proof.
  unfold rateLimitMiddleware. apply redis_only_bind; [apply checkRateLimit_redis_only|].
  intros u. destruct (negb (allowed u)); [exact I|].
  apply redis_only_bind; [apply checkRateLimit_redis_only|].
  intros i. destruct (negb (allowed i)); exact I.
Qed.

Lemma purchaseTransaction_query_only pid uid q :
  query_only (purchaseTransaction pid uid q).
Proof. unfold purchaseTransaction. store_tac. Qed.

(* ===================================================================== *)
(** ** The rate limiter on a counter store that answers *)
(* ===================================================================== *)

Lemma connected_healthy r : connected r -> healthy r.
Proof. intros [H1 H2]. split; auto. Qed.

Lemma next_fault_fine r :
  Forall (fun f => f = Fine) (faults r) ->
  next_fault r = (Fine, tail (faults r)) /\
  Forall (fun f => f = Fine) (tail (faults r)).
Proof.
  unfold next_fault. destruct (faults r) as [|f fs]; simpl; intros H.
  - split; [reflexivity | constructor].
  - inversion H; subst. split; [reflexivity | assumption].
Qed.

Lemma redis_command_connected {X : Type} (r : Redis)
    (cmd : gmap string Entry -> X * gmap string Entry) :
  connected r ->
  redis_command r cmd =
    (Ok (cmd (counters r)).1,
     mkRedis (Some Ready) (cmd (counters r)).2 (tail (faults r))) /\
  connected (mkRedis (Some Ready) (cmd (counters r)).2 (tail (faults r))).
Proof.
  intros [Hc Hf]. unfold redis_command. rewrite Hc.
  destruct (next_fault_fine r Hf) as [-> Hf'].
  destruct (cmd (counters r)) as [x cs]. simpl. repeat split; assumption.
Qed.

Lemma getRedisClient_healthy (w : World) :
  healthy (redis w) ->
  exists r, run getRedisClient w = (Ok tt, with_redis w r) /\
            connected r /\ counters r = counters (redis w).
Proof.
  intros [[Hc|Hc] Hf]; unfold getRedisClient; simpl; rewrite Hc; simpl.
  - unfold lift_redis, redis_connect. simpl.
    assert (Hn : next_fault (mkRedis (Some Closed) (counters (redis w))
                               (faults (redis w)))
                 = (Fine, tail (faults (redis w))) /\
                 Forall (fun f => f = Fine) (tail (faults (redis w))))
      by (apply (next_fault_fine (mkRedis _ _ _)); exact Hf).
    destruct Hn as [-> Hf']. simpl.
    eexists. split; [reflexivity|]. split; [split|]; simpl; auto.
  - exists (redis w). destruct w as [n r d]; simpl in *.
    split; [reflexivity|]. split; [split|]; auto.
Qed.

Lemma checkRateLimit_healthy (options : RateLimitOptions) (w : World) :
  healthy (redis w) ->
  exists r,
    run (checkRateLimit options) w
      = (Ok (check_result (now w) options (counters (redis w))), with_redis w r) /\
    connected r /\
    counters r = check_counters (now w) options (counters (redis w)).
Proof.
  intros Hh. unfold checkRateLimit. rewrite run_bind.
  destruct (getRedisClient_healthy w Hh) as (r0 & -> & Hr0 & Hcs0).
  cbv zeta. rewrite run_try_catch, run_bind, run_await. simpl.
  destruct (redis_command_connected r0
              (redis_incr (now w) (rate_limit_key (identifier options))) Hr0)
    as [-> Hr1].
  unfold lift_redis, check_result, check_counters. simpl.
  rewrite Hcs0 in *.
  set (key := rate_limit_key (identifier options)) in *.
  set (inc := redis_incr (now w) key (counters (redis w))) in *.
  rewrite run_bind.
  destruct (inc.1 =? 1) eqn:Hone; simpl.
  - match goal with
    | |- context [redis_command ?r ?c] =>
        destruct (redis_command_connected r c Hr1) as [-> Hr2]
    end.
    simpl.
    destruct (maxRequests options <? inc.1); simpl.
    + match goal with
      | |- context [redis_command ?r ?c] =>
          destruct (redis_command_connected r c Hr2) as [-> Hr3]
      end.
      simpl. eexists; split; [reflexivity|]. split; [exact Hr3|reflexivity].
    + eexists; split; [reflexivity|]. split; [exact Hr2|reflexivity].
  - destruct (maxRequests options <? inc.1); simpl.
    + match goal with
      | |- context [redis_command ?r ?c] =>
          destruct (redis_command_connected r c Hr1) as [-> Hr3]
      end.
      simpl. eexists; split; [reflexivity|]. split; [exact Hr3|reflexivity].
    + eexists; split; [reflexivity|]. split; [exact Hr1|reflexivity].
Qed.

Lemma ceil_div_pos (a : Z) : 0 < a -> 0 < ceil_div a 1000.
Proof.
  intros Ha. unfold ceil_div.
  assert ((- a) / 1000 < 0) by (apply Z.div_lt_upper_bound; lia). lia.
Qed.

(** A check only touches its own counter. *)
Lemma check_counters_other now options cs key' :
  key' <> rate_limit_key (identifier options) ->
  check_counters now options cs !! key' = cs !! key'.
Proof.
  intros Hne. unfold check_counters, redis_incr, redis_expire.
  set (key := rate_limit_key (identifier options)) in *.
  destruct (lookup_live now cs key) as [e|]; simpl.
  - destruct (e_count e + 1 =? 1); simpl.
    + destruct (lookup_live now _ key); simpl.
      * destruct (_ <=? 0); rewrite ?lookup_delete_ne, ?lookup_insert_ne by auto;
          rewrite ?lookup_insert_ne by auto; reflexivity.
      * rewrite lookup_insert_ne by auto. reflexivity.
    + rewrite lookup_insert_ne by auto. reflexivity.
  - destruct (lookup_live now _ key); simpl.
    + destruct (_ <=? 0); rewrite ?lookup_delete_ne, ?lookup_insert_ne by auto;
        rewrite ?lookup_insert_ne by auto; reflexivity.
    + rewrite lookup_insert_ne by auto. reflexivity.
Qed.

Lemma lookup_live_insert now cs key e :
  lookup_live now (<[key := e]> cs) key = if live now e then Some e else None.
Proof. unfold lookup_live. rewrite lookup_insert_eq. reflexivity. Qed.

(** The first hit of a window: the counter restarts at 1 and gets its
    expiry. *)
Lemma check_first_hit now options cs :
  0 < windowMs options ->
  lookup_live now cs (rate_limit_key (identifier options)) = None ->
  check_counters now options cs !! rate_limit_key (identifier options)
    = Some (mkEntry 1 (Some (now + ceil_div (windowMs options) 1000 * 1000))) /\
  (redis_incr now (rate_limit_key (identifier options)) cs).1 = 1.
Proof.
  intros HW Hnone. pose proof (ceil_div_pos _ HW) as Hsec.
  unfold check_counters, redis_incr, redis_expire. rewrite Hnone. simpl.
  rewrite lookup_live_insert. simpl.
  destruct (ceil_div (windowMs options) 1000 <=? 0) eqn:Hle; [lia|].
  simpl. rewrite lookup_insert_eq. auto.
Qed.

(** A later hit in the same window: the count grows, the expiry stays. *)
Lemma check_later_hit now options cs c T :
  cs !! rate_limit_key (identifier options) = Some (mkEntry c (Some T)) ->
  now < T -> 1 <= c ->
  check_counters now options cs !! rate_limit_key (identifier options)
    = Some (mkEntry (c + 1) (Some T)) /\
  (redis_incr now (rate_limit_key (identifier options)) cs).1 = c + 1.
Proof.
  intros Hcs Hlt Hc.
  unfold check_counters, redis_incr, lookup_live. rewrite Hcs.
  unfold live. simpl.
  destruct (now <? T) eqn:Hlive; [|lia]. simpl.
  destruct (c + 1 =? 1) eqn:Hone; [lia|].
  rewrite lookup_insert_eq. auto.
Qed.

Lemma check_result_allowed now options cs :
  (redis_incr now (rate_limit_key (identifier options)) cs).1
    <= maxRequests options ->
  check_result now options cs = {| allowed := true; retryAfter := None |}.
Proof.
  intros H. unfold check_result.
  destruct (maxRequests options <? _) eqn:E; [lia | reflexivity].
Qed.

Lemma check_result_denied now options cs :
  0 < windowMs options ->
  maxRequests options
    < (redis_incr now (rate_limit_key (identifier options)) cs).1 ->
  exists r, check_result now options cs
              = {| allowed := false; retryAfter := Some r |} /\ 0 < r.
Proof.
  intros HW H. pose proof (ceil_div_pos _ HW) as Hsec. unfold check_result.
  destruct (maxRequests options <? _) eqn:E; [|lia].
  eexists. split; [reflexivity|].
  destruct (0 <? redis_ttl _ _ _) eqn:Ht; lia.
Qed.

(* ===================================================================== *)
(** ** Successive checks for one identifier *)
(* ===================================================================== *)

Lemma checks_at_app options ts1 ts2 w :
  checks_at options (ts1 ++ ts2) w =
  ((checks_at options ts1 w).1
     ++ (checks_at options ts2 (checks_at options ts1 w).2).1,
   (checks_at options ts2 (checks_at options ts1 w).2).2).
Proof.
  revert w. induction ts1 as [|t ts1 IH]; intros w; simpl.
  - destruct (checks_at options ts2 w); reflexivity.
  - rewrite IH. reflexivity.
Qed.

(** Hits after the first, all before the expiry [T] set by the first. *)
Lemma checks_in_window options (T : Z) (ts : list Z) :
  forall (w : World) (c : Z),
    healthy (redis w) ->
    counters (redis w) !! rate_limit_key (identifier options)
      = Some (mkEntry c (Some T)) ->
    1 <= c ->
    Forall (fun t => t < T) ts ->
    let res := checks_at options ts w in
    healthy (redis res.2) /\
    counters (redis res.2) !! rate_limit_key (identifier options)
      = Some (mkEntry (c + Z.of_nat (length ts)) (Some T)) /\
    (c + Z.of_nat (length ts) <= maxRequests options ->
     res.1 = replicate (length ts) (Ok allowed_result)).
Proof.
  induction ts as [|t ts IH]; intros w c Hh Hcs Hc Hts; simpl.
  - rewrite Z.add_0_r. auto.
  - inversion Hts as [|? ? Ht Hts']; subst.
    destruct (checkRateLimit_healthy options (at_time t w) Hh)
      as (r & Hrun & Hr & Hcnt).
    simpl in Hrun, Hcnt. rewrite Hrun. simpl.
    destruct (check_later_hit t options _ c T Hcs Ht Hc) as [Hent Hinc].
    rewrite <- Hcnt in Hent.
    specialize (IH (with_redis (at_time t w) r) (c + 1)
                  (connected_healthy _ Hr) Hent ltac:(lia) Hts').
    simpl in IH. destruct IH as (IH1 & IH2 & IH3).
    split; [exact IH1|]. split.
    + rewrite IH2. do 2 f_equal. lia.
    + intros Hle. rewrite IH3 by lia.
      rewrite check_result_allowed by lia. reflexivity.
Qed.

(** C7 - window law of the fixed-window limiter.  With limit [N] and window
    [W], for an identifier whose counter is absent or expired at the first
    call: of [N + 1] calls inside the window the first [N] are allowed and
    the last is denied with a positive [retryAfter]; the expiry written by
    the first call (the one that brought the count to 1) is still the
    counter's expiry after each later call. *)
Theorem window_law (id : string) (N : nat) (W : Z) (w : World)
    (t1 : Z) (ts : list Z) :
  healthy (redis w) ->
  0 < W ->
  lookup_live t1 (counters (redis w)) (rate_limit_key id) = None ->
  length ts = N ->
  Forall (fun t => t < t1 + ceil_div W 1000 * 1000) ts ->
  let options := mkOptions (Z.of_nat N) W id in
  (exists r,
      (checks_at options (t1 :: ts) w).1
        = replicate N (Ok allowed_result) ++ [Ok (mkResult false (Some r))] /\
      0 < r) /\
  (forall k, (k <= N)%nat ->
     counters (redis (checks_at options (t1 :: take k ts) w).2)
       !! rate_limit_key id
     = Some (mkEntry (Z.of_nat (S k)) (Some (t1 + ceil_div W 1000 * 1000)))).
Proof.
  intros Hh HW Hnone Hlen Hts options.
  set (T := t1 + ceil_div W 1000 * 1000) in *.
  destruct (checkRateLimit_healthy options (at_time t1 w) Hh)
    as (r1 & Hrun & Hr1 & Hcnt).
  simpl in Hrun, Hcnt.
  destruct (check_first_hit t1 options (counters (redis w)) HW Hnone)
    as [Hent Hinc].
  rewrite <- Hcnt in Hent. simpl in Hent. fold T in Hent.
  set (w1 := with_redis (at_time t1 w) r1) in *.
  assert (Hh1 : healthy (redis w1)) by (apply connected_healthy; exact Hr1).
  split.
  - destruct N as [|n].
    + destruct ts; [|discriminate]. simpl. rewrite Hrun. simpl.
      destruct (check_result_denied t1 options (counters (redis w)) HW)
        as (r & -> & Hpos); [rewrite Hinc; simpl; lia|].
      exists r. auto.
    + assert (Hsplit : ts = take n ts ++ drop n ts) by (symmetry; apply take_drop).
      assert (Hlast : exists tl, drop n ts = [tl]).
      { assert (length (drop n ts) = 1%nat) by (rewrite length_drop; lia).
        destruct (drop n ts) as [|tl [|? ?]]; try discriminate. eauto. }
      destruct Hlast as [tl Htl]. rewrite Htl in Hsplit.
      assert (Hn : length (take n ts) = n) by (rewrite length_take; lia).
      rewrite Hsplit in Hts. apply Forall_app in Hts as [Hts1 Hts2].
      inversion Hts2 as [|? ? Htl_lt _]; subst.
      rewrite Hsplit. simpl. rewrite Hrun. simpl. fold w1.
      rewrite checks_at_app. simpl.
      destruct (checks_in_window options T (take n ts) w1 1 Hh1 Hent
                  ltac:(lia) Hts1) as (Hh2 & Hent2 & Hres).
      simpl in Hres. rewrite Hn in *. rewrite Hres by (simpl; lia).
      set (w2 := (checks_at options (take n ts) w1).2) in *.
      destruct (checkRateLimit_healthy options (at_time tl w2) Hh2)
        as (r3 & Hrun3 & Hr3 & Hcnt3).
      simpl in Hrun3. rewrite Hrun3. simpl.
      destruct (check_later_hit tl options _ _ T Hent2 Htl_lt ltac:(lia))
        as [_ Hinc3].
      destruct (check_result_denied tl options (counters (redis w2)) HW)
        as (r & -> & Hpos); [rewrite Hinc3; simpl; lia|].
      exists r. split; [|exact Hpos].
      rewrite check_result_allowed by (rewrite Hinc; simpl; lia).
      reflexivity.
  - intros k Hk. simpl. rewrite Hrun. simpl. fold w1.
    assert (Htk : Forall (fun t => t < T) (take k ts)) by (apply Forall_take; exact Hts).
    destruct (checks_in_window options T (take k ts) w1 1 Hh1 Hent
                ltac:(lia) Htk) as (_ & Hent2 & _).
    simpl in Hent2. rewrite Hent2. rewrite length_take.
    do 2 f_equal. lia.
Qed.

(* ===================================================================== *)
(** ** Which counter a handler touches *)
(* ===================================================================== *)

Lemma redis_incr_other now key key' cs :
  key' <> key -> (redis_incr now key cs).2 !! key' = cs !! key'.
Proof.
  intros Hne. unfold redis_incr.
  destruct (lookup_live now cs key); simpl; rewrite lookup_insert_ne by auto;
    reflexivity.
Qed.

Lemma redis_expire_other now key seconds key' cs :
  key' <> key -> (redis_expire now key seconds cs).2 !! key' = cs !! key'.
Proof.
  intros Hne. unfold redis_expire.
  destruct (lookup_live now cs key); simpl; [|reflexivity].
  destruct (seconds <=? 0).
  - rewrite lookup_delete_ne by auto. reflexivity.
  - rewrite lookup_insert_ne by auto. reflexivity.
Qed.

Lemma redis_command_other {X : Type} (r : Redis)
    (cmd : gmap string Entry -> X * gmap string Entry) (key' : string) :
  (forall cs, (cmd cs).2 !! key' = cs !! key') ->
  counters (redis_command r cmd).2 !! key' = counters r !! key'.
Proof.
  intros Hcmd. unfold redis_command, next_fault.
  destruct (redisClient r) as [[| |]|]; try reflexivity.
  destruct (faults r) as [|[| |] fs]; simpl; try reflexivity;
    specialize (Hcmd (counters r)); destruct (cmd (counters r)); exact Hcmd.
Qed.

Lemma handle_keyed {X : Type} (key key' : string) (e : Eff X) (w : World) :
  on_key key e -> key' <> key ->
  exists x w', handle 0 e w = Some (x, w') /\
               counters (redis w') !! key' = counters (redis w) !! key'.
Proof.
  intros He Hne. destruct e; simpl in *; try contradiction;
    unfold lift_redis; simpl; try (do 2 eexists; split; [reflexivity|]); simpl;
    try reflexivity.
  - unfold redis_connect, next_fault.
    destruct (faults (redis w)) as [|[| |] fs]; reflexivity.
  - subst. apply redis_command_other. intros cs. apply redis_incr_other, Hne.
  - subst. apply redis_command_other. intros cs. apply redis_expire_other, Hne.
  - apply redis_command_other. intros cs. reflexivity.
Qed.

Lemma keyed_frame {A : Type} (key key' : string) (p : Prog A) (w : World) :
  keyed key p -> key' <> key ->
  counters (redis (run p w).2) !! key' = counters (redis w) !! key'.
Proof.
  revert w. induction p as [r|X e k IH]; intros w; simpl; [reflexivity|].
  intros [He Hk] Hne.
  destruct (handle_keyed key key' e w He Hne) as (x & w' & -> & Hw').
  rewrite IH by auto. exact Hw'.
Qed.

Lemma checkRateLimit_keyed (options : RateLimitOptions) :
  keyed (rate_limit_key (identifier options)) (checkRateLimit options).
Proof. unfold checkRateLimit, getRedisClient. store_tac. Qed.

Lemma tier_keys_differ (user ip : string) :
  rate_limit_key ("ip:" +:+ ip) <> rate_limit_key ("user:" +:+ user).
Proof. unfold rate_limit_key. simpl. discriminate. Qed.

(* ===================================================================== *)
(** ** The two tiers of [rateLimitMiddleware] *)
(* ===================================================================== *)

(** C9 - counterexample.  With the purchase handler's user budget of 5 the
    eighth request of a window from one address still passes both tiers:
    the IP tier's budget is not below the user tier's. *)
Lemma ip_budget_not_stricter : ~ ip_budget_stricter 5 60000.
Proof.
  intros (b & Hb & H).
  destruct (H (demo_request "alice" None) (Some "alice") busy_ip_world)
    as [response Hresp].
  - split; [right; reflexivity | constructor].
  - vm_compute. reflexivity.
  - assert (E : next_count busy_ip_world
                  (rate_limit_key
                     (identifier (ip_tier (demo_request "alice" None)))) = 8)
      by (vm_compute; reflexivity).
    rewrite E. lia.
  - vm_compute in Hresp. discriminate.
Qed.

(** A denial always carries a retry hint, positive for a positive window. *)
Lemma checkRateLimit_denied_retry (options : RateLimitOptions) (w : World)
    (res : RateLimitResult) :
  (run (checkRateLimit options) w).1 = Ok res ->
  allowed res = false ->
  exists r, retryAfter res = Some r /\ (0 < windowMs options -> 0 < r).
Proof.
  unfold checkRateLimit. cbv zeta. rewrite run_bind.
  destruct (run getRedisClient w) as [[[]|e|] w1]; cbn [fst];
    try discriminate.
  rewrite run_try_catch, run_bind.
  destruct (run (await (Incr _)) w1) as [[n|e|] w2]; cbn [run ret fst];
    try discriminate; [|intros [= <-]; discriminate].
  rewrite run_bind.
  destruct (run (if n =? 1 then _ else _) w2) as [[[]|e|] w3];
    cbn [run ret fst]; try discriminate; [|intros [= <-]; discriminate].
  destruct (maxRequests options <? n).
  - rewrite run_bind.
    destruct (run (await (Ttl _)) w3) as [[ttl|e|] w4]; cbn [run ret fst];
      try discriminate; [|intros [= <-]; discriminate].
    intros [= <-] _. eexists. split; [reflexivity|].
    intros HW. pose proof (ceil_div_pos _ HW).
    destruct (0 <? ttl) eqn:E; lia.
  - cbn [run ret fst]. intros [= <-]. discriminate.
Qed.

(** C9 - the two tiers in order.  The user tier is checked first, against
    the caller's [(maxReq, window)].  If it denies, the answer is the 429
    built from the user tier's [retryAfter] and [maxReq] (for a positive
    window the Retry-After header is exactly that [retryAfter], which is
    positive), the world is the one the user check left, and the counter of
    the IP tier has not moved.
    Only if it allows is the IP tier checked, against the fixed budget of
    10 requests per 60000 ms.  An exception or a stall of either check is
    the outcome of the middleware. *)
Theorem two_tier_order (req : NextRequest) (maxReq window : Z)
    (uid : option string) (w : World) :
  let u := run (checkRateLimit (user_tier req maxReq window uid)) w in
  match u.1 with
  | Ok ul =>
      if allowed ul then
        let i := run (checkRateLimit (ip_tier req)) u.2 in
        run (rateLimitMiddleware req maxReq window uid) w =
        (match i.1 with
         | Ok il =>
             Ok (if allowed il then None
                 else Some (rate_limited "Rate limit exceeded for IP"
                              (retryAfter il) "10"))
         | Throw e => Throw e
         | Pending => Pending
         end, i.2)
      else
        run (rateLimitMiddleware req maxReq window uid) w =
          (Ok (Some (rate_limited "Rate limit exceeded for user"
                       (retryAfter ul) (pretty maxReq))), u.2) /\
        counters (redis u.2) !! rate_limit_key (identifier (ip_tier req))
          = counters (redis w) !! rate_limit_key (identifier (ip_tier req)) /\
        exists r,
          retryAfter ul = Some r /\
          (0 < window ->
           0 < r /\
           headers (rate_limited "Rate limit exceeded for user"
                      (retryAfter ul) (pretty maxReq))
           = [("Retry-After", pretty r); ("X-RateLimit-Limit", pretty maxReq);
              ("X-RateLimit-Remaining", "0")])
  | Throw e => run (rateLimitMiddleware req maxReq window uid) w = (Throw e, u.2)
  | Pending => run (rateLimitMiddleware req maxReq window uid) w = (Pending, u.2)
  end.
Proof.
  intros u. unfold rateLimitMiddleware. cbv zeta. rewrite run_bind.
  fold (user_tier req maxReq window uid). fold u.
  pose proof (keyed_frame _ (rate_limit_key (identifier (ip_tier req))) _ w
                (checkRateLimit_keyed (user_tier req maxReq window uid))
                (tier_keys_differ _ _)) as Hframe.
  fold u in Hframe.
  pose proof (checkRateLimit_denied_retry (user_tier req maxReq window uid) w)
    as Hretry.
  fold u in Hretry.
  destruct u as [[ul|e|] w1]; cbn [fst snd] in *; try reflexivity.
  destruct (allowed ul) eqn:Hal; cbn [negb].
  - rewrite run_bind. fold (ip_tier req).
    destruct (run (checkRateLimit (ip_tier req)) w1) as [[il|e|] w2];
      cbn [fst snd]; try reflexivity.
    destruct (allowed il); reflexivity.
  - split; [reflexivity|]. split; [exact Hframe|].
    destruct (Hretry ul eq_refl Hal) as (r & Hr & Hpos).
    exists r. split; [exact Hr|]. intros HW. specialize (Hpos HW).
    split; [exact Hpos|]. rewrite Hr. unfold rate_limited, num_or.
    cbn [headers]. destruct (r =? 0) eqn:E; [lia | reflexivity].
Qed.

Lemma redis_incr_fst_ext now key cs cs' :
  cs !! key = cs' !! key ->
  (redis_incr now key cs).1 = (redis_incr now key cs').1.
Proof.
  intros H. unfold redis_incr, lookup_live. rewrite H.
  destruct (cs' !! key) as [e|]; [destruct (live now e)|]; reflexivity.
Qed.

Lemma lookup_live_Some now cs key e :
  lookup_live now cs key = Some e -> live now e = true.
Proof.
  unfold lookup_live. destruct (cs !! key) as [e'|]; [|discriminate].
  destruct (live now e') eqn:E; [|discriminate]. intros [= <-]. exact E.
Qed.

(** After a check the counter holds the value INCR returned. *)
Lemma check_counters_count now options cs :
  0 < windowMs options ->
  exists exp,
    check_counters now options cs !! rate_limit_key (identifier options)
    = Some (mkEntry (redis_incr now (rate_limit_key (identifier options)) cs).1
              exp).
Proof.
  intros HW. pose proof (ceil_div_pos _ HW) as Hsec.
  unfold check_counters, redis_incr, redis_expire.
  set (key := rate_limit_key (identifier options)).
  destruct (lookup_live now cs key) as [e|] eqn:Hl; simpl.
  - apply lookup_live_Some in Hl.
    destruct (e_count e + 1 =? 1) eqn:Hone; simpl.
    + rewrite lookup_live_insert. unfold live at 1. simpl.
      unfold live in Hl. rewrite Hl. simpl.
      destruct (ceil_div (windowMs options) 1000 <=? 0) eqn:Hle; [lia|].
      simpl. rewrite lookup_insert_eq. eauto.
    + rewrite lookup_insert_eq. eauto.
  - rewrite lookup_live_insert. simpl.
    destruct (ceil_div (windowMs options) 1000 <=? 0) eqn:Hle; [lia|].
    simpl. rewrite lookup_insert_eq. eauto.
Qed.

(** The middleware on a counter store that answers: the verdict is decided
    by the two post-increment counts. *)
Lemma rateLimitMiddleware_healthy req maxReq window uid (w : World) :
  healthy (redis w) -> 0 < window ->
  let ukey := rate_limit_key (identifier (user_tier req maxReq window uid)) in
  let ikey := rate_limit_key (identifier (ip_tier req)) in
  exists out r,
    run (rateLimitMiddleware req maxReq window uid) w = (Ok out, with_redis w r) /\
    connected r /\
    e_count <$> counters r !! ukey = Some (next_count w ukey) /\
    (maxReq < next_count w ukey ->
       counters r !! ikey = counters (redis w) !! ikey /\
       exists ra, out = Some (rate_limited "Rate limit exceeded for user" ra
                                (pretty maxReq))) /\
    (next_count w ukey <= maxReq ->
       e_count <$> counters r !! ikey = Some (next_count w ikey) /\
       (10 < next_count w ikey ->
          exists ra, out = Some (rate_limited "Rate limit exceeded for IP" ra "10")) /\
       (next_count w ikey <= 10 -> out = None)).
Proof.
  intros Hh HW ukey ikey.
  unfold rateLimitMiddleware. cbv zeta. rewrite run_bind.
  fold (user_tier req maxReq window uid). fold (ip_tier req).
  set (uo := user_tier req maxReq window uid) in *.
  set (io := ip_tier req) in *.
  destruct (checkRateLimit_healthy uo w Hh) as (r1 & -> & Hr1 & Hc1).
  assert (Hne : ikey <> ukey) by apply tier_keys_differ.
  assert (Hik1 : counters r1 !! ikey = counters (redis w) !! ikey)
    by (rewrite Hc1; apply check_counters_other; exact Hne).
  destruct (check_counters_count (now w) uo (counters (redis w)) HW)
    as [exp Hucount].
  fold ukey in Hucount. rewrite <- Hc1 in Hucount.
  unfold check_result. fold ukey. fold (next_count w ukey).
  change (maxRequests uo) with maxReq.
  destruct (maxReq <? next_count w ukey) eqn:Hu; cbn [allowed negb].
  - exists (Some (rate_limited "Rate limit exceeded for user"
              (Some (if 0 <? redis_ttl (now w) ukey
                              (check_counters (now w) uo (counters (redis w)))
                     then redis_ttl (now w) ukey
                              (check_counters (now w) uo (counters (redis w)))
                     else ceil_div (windowMs uo) 1000)) (pretty maxReq))), r1.
    split; [reflexivity|]. split; [exact Hr1|].
    split; [rewrite Hucount; reflexivity|].
    split; [intros _; split; [exact Hik1 | eauto] | intros; lia].
  - rewrite run_bind.
    destruct (checkRateLimit_healthy io (with_redis w r1)
                (connected_healthy _ Hr1)) as (r2 & -> & Hr2 & Hc2).
    simpl in Hc2.
    assert (Huk2 : counters r2 !! ukey = counters r1 !! ukey)
      by (rewrite Hc2; apply check_counters_other; apply not_eq_sym, Hne).
    destruct (check_counters_count (now w) io (counters r1) ltac:(simpl; lia))
      as [exp2 Hicount].
    fold ikey in Hicount. rewrite <- Hc2 in Hicount.
    assert (Hni : (redis_incr (now w) ikey (counters r1)).1 = next_count w ikey)
      by (apply redis_incr_fst_ext; exact Hik1).
    rewrite Hni in Hicount.
    unfold check_result. cbn [now redis with_redis counters]. fold ikey. rewrite Hni.
    change (maxRequests io) with 10.
    destruct (10 <? next_count w ikey) eqn:Hi; cbn [allowed negb].
    + eexists _, r2. split; [reflexivity|]. split; [exact Hr2|].
      split; [rewrite Huk2, Hucount; reflexivity|].
      split; [intros; lia|]. intros _.
      split; [rewrite Hicount; reflexivity|].
      split; [intros _; eauto | intros; lia].
    + exists None, r2. split; [reflexivity|]. split; [exact Hr2|].
      split; [rewrite Huk2, Hucount; reflexivity|].
      split; [intros; lia|]. intros _.
      split; [rewrite Hicount; reflexivity|].
      split; [intros; lia | reflexivity].
Qed.

(* ===================================================================== *)
(** ** [POST], stage by stage *)
(* ===================================================================== *)

Lemma run_POST (req : NextRequest) (w : World) :
  run (POST req) w =
  match run (rateLimitMiddleware req 5 60000 (userId (json req))) w with
  | (Ok (Some response), w1) => (Ok response, w1)
  | (Ok None, w1) =>
      match present_fields (json req) with
      | None => (Ok bad_request, w1)
      | Some (pid, uid) =>
          match run (purchaseTransaction pid uid
                       (default 1 (quantity (json req)))) w1 with
          | (Throw _, w2) => (Ok internal_error, w2)
          | r => r
          end
      end
  | (Throw _, w1) => (Ok internal_error, w1)
  | (Pending, w1) => (Pending, w1)
  end.
Proof.
  unfold POST. cbv zeta. rewrite run_try_catch, run_bind.
  destruct (run (rateLimitMiddleware req 5 60000 (userId (json req))) w)
    as [[[response|]|e|] w1]; try reflexivity.
  destruct (present_fields (json req)) as [[pid uid]|]; [|reflexivity].
  destruct (run (purchaseTransaction pid uid _) w1) as [[resp|e|] w2];
    reflexivity.
Qed.

Lemma set_stock_same (p : Product) : set_stock (p_stock p) p = p.
Proof. destruct p; reflexivity. Qed.

Lemma apply_stock_one (pid v : Z) (p : Product) (ps : gmap Z Product) :
  ps !! pid = Some p ->
  apply_stock (<[pid := v]> ∅) ps = <[pid := set_stock v p]> ps.
Proof.
  intros Hp. apply map_eq. intros k. unfold apply_stock.
  rewrite map_lookup_imap.
  destruct (decide (k = pid)) as [->|Hne].
  - rewrite Hp, lookup_insert_eq. simpl. rewrite lookup_insert_eq. reflexivity.
  - rewrite !lookup_insert_ne by auto. rewrite lookup_empty.
    destruct (ps !! k) as [p'|]; simpl; [|reflexivity].
    rewrite set_stock_same. reflexivity.
Qed.

Lemma release_own (c : nat) (locks : gmap Z nat) :
  (forall k c', locks !! k = Some c' -> c' = c) -> release c locks = ∅.
Proof.
  intros H. unfold release. apply map_eq. intros k.
  rewrite lookup_empty. apply map_lookup_filter_None. right.
  intros c' Hk. simpl. intros Hne. apply Hne. eapply H; eauto.
Qed.

Lemma release_empty (c : nat) : release c ∅ = ∅.
Proof. apply release_own. intros k c'. rewrite lookup_empty. discriminate. Qed.

Lemma release_one (c : nat) (pid : Z) : release c (<[pid := c]> ∅) = ∅.
Proof.
  apply release_own. intros k c'. destruct (decide (k = pid)) as [->|Hne].
  - rewrite lookup_insert_eq. congruence.
  - rewrite lookup_insert_ne, lookup_empty by auto. discriminate.
Qed.

Lemma own_empty : own ∅.
Proof. intros k c. rewrite lookup_empty. discriminate. Qed.

Lemma own_insert pid locks : own locks -> own (<[pid := 0%nat]> locks).
Proof.
  intros H k c. destruct (decide (k = pid)) as [->|Hne].
  - rewrite lookup_insert_eq. congruence.
  - rewrite lookup_insert_ne by auto. apply H.
Qed.

Lemma lock_free_own d seq locks cn pid :
  own locks -> lock_free 0 pid (txdb d seq locks cn) = true.
Proof.
  intros H. unfold lock_free, txdb. simpl.
  destruct (locks !! pid) as [c|] eqn:E; [|reflexivity].
  apply H in E. subst. reflexivity.
Qed.

Lemma conn_of_txdb d seq locks cn : conn_of 0 (txdb d seq locks cn) = cn.
Proof. unfold conn_of, txdb. simpl. rewrite lookup_insert_eq. reflexivity. Qed.

Lemma txdb_txdb d seq locks cn seq' locks' cn' :
  txdb (txdb d seq locks cn) seq' locks' cn' = txdb d seq' locks' cn'.
Proof.
  unfold txdb. cbn [products orders conns]. rewrite insert_insert_eq.
  reflexivity.
Qed.

(** A rejected statement inside the transaction of connection 0. *)
Lemma rejected_txdb {R : Type} d seq locks stk ords fl seq' :
  @rejected R 0 seq' (txdb d seq locks (mkConn true stk ords fl))
  = Some (Throw DbError, txdb d seq' locks (mkConn true stk ords true)).
Proof.
  unfold rejected. rewrite conn_of_txdb. cbn [inTx txStock txOrders].
  unfold txdb. cbn [products orders conns rowLocks].
  rewrite insert_insert_eq. reflexivity.
Qed.

Lemma exec_BEGIN_open now d :
  failed (conn_of 0 d) = false ->
  exec 0 now BEGIN d
  = Some (Ok (),
          txdb d (orderSeq d) (rowLocks d)
            (mkConn true (txStock (conn_of 0 d)) (txOrders (conn_of 0 d))
               false)).
Proof. intros Hf. unfold exec. rewrite Hf, andb_false_r. reflexivity. Qed.

Lemma exec_BEGIN now d :
  quiet d ->
  exec 0 now BEGIN d
  = Some (Ok (), txdb d (orderSeq d) ∅ (mkConn true ∅ [] false)).
Proof. intros [Hl Hc]. unfold exec, txdb. rewrite Hc, Hl. reflexivity. Qed.

Lemma exec_SELECT now d seq locks stk ords pid p :
  products d !! pid = Some p -> own locks ->
  exec 0 now (SELECT_FOR_UPDATE pid)
    (txdb d seq locks (mkConn true stk ords false))
  = Some (Ok [mkProductRow pid (default (p_stock p) (stk !! pid))
                (p_price p) (p_name p)],
          txdb d seq (<[pid := 0%nat]> locks) (mkConn true stk ords false)).
Proof.
  intros Hp Hown. unfold exec. rewrite conn_of_txdb, lock_free_own by auto.
  cbn [inTx failed andb products txdb]. rewrite Hp. reflexivity.
Qed.

Lemma exec_SELECT_none now d seq locks stk ords pid :
  products d !! pid = None -> int4 pid = true ->
  exec 0 now (SELECT_FOR_UPDATE pid)
    (txdb d seq locks (mkConn true stk ords false))
  = Some (Ok [], txdb d seq locks (mkConn true stk ords false)).
Proof.
  intros Hp Hr. unfold exec. rewrite conn_of_txdb.
  cbn [inTx failed andb products txdb]. rewrite Hp, Hr. reflexivity.
Qed.

Lemma exec_SELECT_rejected now d seq locks stk ords pid :
  products d !! pid = None -> int4 pid = false ->
  exec 0 now (SELECT_FOR_UPDATE pid)
    (txdb d seq locks (mkConn true stk ords false))
  = Some (Throw DbError, txdb d seq locks (mkConn true stk ords true)).
Proof.
  intros Hp Hr. unfold exec. rewrite conn_of_txdb.
  cbn [inTx failed andb]. cbn [products txdb]. rewrite Hp, Hr.
  apply (rejected_txdb d seq locks stk ords false seq).
Qed.

Lemma exec_UPDATE now d seq locks stk ords pid p v :
  products d !! pid = Some p -> own locks -> int4 v = true ->
  exec 0 now (UPDATE_STOCK v pid)
    (txdb d seq locks (mkConn true stk ords false))
  = Some (Ok (),
          txdb d seq (<[pid := 0%nat]> locks)
            (mkConn true (<[pid := v]> stk) ords false)).
Proof.
  intros Hp Hown Hv. unfold exec.
  rewrite conn_of_txdb, lock_free_own by auto.
  cbn [inTx failed andb]. rewrite Hv. cbn [negb products txdb]. rewrite Hp.
  cbn [inTx txStock txOrders].
  unfold txdb. cbn [conns orders orderSeq products].
  rewrite insert_insert_eq. reflexivity.
Qed.

Lemma exec_UPDATE_rejected now d seq locks stk ords pid v :
  int4 v = false ->
  exec 0 now (UPDATE_STOCK v pid)
    (txdb d seq locks (mkConn true stk ords false))
  = Some (Throw DbError, txdb d seq locks (mkConn true stk ords true)).
Proof.
  intros Hv. unfold exec. rewrite conn_of_txdb.
  cbn [inTx failed andb]. rewrite Hv. cbn [negb].
  apply (rejected_txdb d seq locks stk ords false seq).
Qed.

Lemma exec_INSERT now d seq locks stk ords pid p uid stored q total :
  products d !! pid = Some p -> own locks ->
  int4 q = true -> has_nul uid = false ->
  varchar_255 uid = Some stored -> decimal_10_2 total = true ->
  exec 0 now (INSERT_ORDER uid pid q total)
    (txdb d seq locks (mkConn true stk ords false))
  = Some (Ok [mkInsertedRow seq now],
          txdb d (seq + 1) locks
            (mkConn true stk
               (ords ++ [mkOrder seq stored pid q total "completed" now])
               false)).
Proof.
  intros Hp Hown Hq Hn Hv Ht. unfold exec.
  rewrite conn_of_txdb, lock_free_own by auto.
  cbn [inTx failed andb]. rewrite Hq, Hn. cbn [negb orb products txdb].
  rewrite Hp, Hv, Ht. cbn [inTx txStock txOrders].
  unfold txdb. cbn [conns orders orderSeq products rowLocks].
  rewrite insert_insert_eq. reflexivity.
Qed.

Lemma exec_INSERT_rejected now d seq locks stk ords pid p uid q total :
  products d !! pid = Some p ->
  int4 q && negb (has_nul uid) && bool_decide (varchar_255 uid <> None)
    && decimal_10_2 total = false ->
  exists seq',
    exec 0 now (INSERT_ORDER uid pid q total)
      (txdb d seq locks (mkConn true stk ords false))
    = Some (Throw DbError, txdb d seq' locks (mkConn true stk ords true)) /\
    seq <= seq' <= seq + 1.
Proof.
  intros Hp Hacc. unfold exec. rewrite conn_of_txdb.
  cbn [inTx failed andb].
  destruct (int4 q) eqn:Eq; cbn [negb orb andb] in *.
  2:{ exists seq. split; [|lia]. apply (rejected_txdb d seq locks stk ords false seq). }
  destruct (has_nul uid) eqn:En; cbn [negb orb andb] in *.
  { exists seq. split; [|lia]. apply (rejected_txdb d seq locks stk ords false seq). }
  cbn [products txdb]. rewrite Hp. cbn [orderSeq].
  destruct (varchar_255 uid) as [stored|] eqn:Ev.
  - rewrite bool_decide_true in Hacc by discriminate. cbn [andb] in Hacc.
    rewrite Hacc. exists (seq + 1). split; [|lia].
    apply (rejected_txdb d seq locks stk ords false (seq + 1)).
  - exists (seq + 1). split; [|lia].
    apply (rejected_txdb d seq locks stk ords false (seq + 1)).
Qed.

Lemma exec_COMMIT now d seq locks stk ords :
  own locks ->
  exec 0 now COMMIT (txdb d seq locks (mkConn true stk ords false))
  = Some (Ok (),
          mkDb (apply_stock stk (products d)) (orders d ++ ords) seq ∅
               (<[0%nat := idle]> (conns d))).
Proof.
  intros Hown. unfold exec. rewrite conn_of_txdb.
  cbn [inTx failed andb txStock txOrders].
  unfold txdb. cbn [conns orders orderSeq products rowLocks].
  rewrite insert_insert_eq, release_own by exact Hown. reflexivity.
Qed.

Lemma exec_ROLLBACK_any now d seq locks cn :
  exec 0 now ROLLBACK (txdb d seq locks cn)
  = Some (Ok (),
          mkDb (products d) (orders d) seq (release 0 locks)
               (<[0%nat := idle]> (conns d))).
Proof.
  unfold exec, rolled_back. rewrite conn_of_txdb.
  unfold txdb. cbn [conns orders orderSeq products rowLocks].
  rewrite insert_insert_eq. destruct (inTx cn && failed cn); reflexivity.
Qed.

Lemma exec_ROLLBACK now d seq locks cn :
  own locks ->
  exec 0 now ROLLBACK (txdb d seq locks cn)
  = Some (Ok (),
          mkDb (products d) (orders d) seq ∅ (<[0%nat := idle]> (conns d))).
Proof.
  intros Hown. rewrite exec_ROLLBACK_any, release_own by exact Hown.
  reflexivity.
Qed.

Lemma quiet_closed ps os seq cs : quiet (mkDb ps os seq ∅ (<[0%nat := idle]> cs)).
Proof.
  split; [reflexivity|]. unfold conn_of. simpl. rewrite lookup_insert_eq.
  reflexivity.
Qed.

Lemma run_query {R A : Type} (s : Stmt R) (k : Outcome R -> Prog A) (w : World)
    (o : Outcome R) (d : Db) :
  exec 0 (now w) s (db w) = Some (o, d) ->
  run (Vis (Query s) k) w = run (k o) (with_db w d).
Proof. intros H. simpl. rewrite H. reflexivity. Qed.

(** The transaction on a connection that may hold the open transaction of
    an earlier request, as long as that one is not aborted: an id in range
    that names no product. *)
Lemma purchaseTransaction_not_found pid uid q (w : World) :
  products (db w) !! pid = None ->
  int4 pid = true ->
  failed (conn_of 0 (db w)) = false ->
  exists d,
    run (purchaseTransaction pid uid q) w = (Ok not_found, with_db w d) /\
    products d = products (db w) /\ orders d = orders (db w) /\
    orderSeq d = orderSeq (db w) /\
    conn_of 0 d = idle /\
    (quiet (db w) -> quiet d).
Proof.
  intros Hp Hr Hf. unfold purchaseTransaction, await. cbn [bind try_catch].
  erewrite run_query by (apply exec_BEGIN_open; exact Hf).
  cbn [bind try_catch].
  erewrite run_query
    by (cbn [now db with_db]; apply exec_SELECT_none; assumption).
  cbn [bind try_catch].
  erewrite run_query by (cbn [now db with_db]; apply exec_ROLLBACK_any).
  cbn [bind try_catch run ret]. unfold with_db at 1 2 3. cbn [now redis db].
  eexists. split; [reflexivity|]. cbn [products orders orderSeq].
  split; [reflexivity|]. split; [reflexivity|]. split; [reflexivity|].
  split.
  - unfold conn_of. cbn [conns]. rewrite lookup_insert_eq. reflexivity.
  - intros [Hl _]. rewrite Hl, release_empty. apply quiet_closed.
Qed.

(** An id outside the range of INTEGER that names no product: the SELECT
    is rejected, the [catch] rolls back and raises again. *)
Lemma purchaseTransaction_out_of_range pid uid q (w : World) :
  products (db w) !! pid = None ->
  int4 pid = false ->
  failed (conn_of 0 (db w)) = false ->
  exists d,
    run (purchaseTransaction pid uid q) w = (Throw DbError, with_db w d) /\
    products d = products (db w) /\ orders d = orders (db w) /\
    orderSeq d = orderSeq (db w) /\
    conn_of 0 d = idle /\
    (quiet (db w) -> quiet d).
Proof.
  intros Hp Hr Hf. unfold purchaseTransaction, await. cbn [bind try_catch].
  erewrite run_query by (apply exec_BEGIN_open; exact Hf).
  cbn [bind try_catch].
  erewrite run_query
    by (cbn [now db with_db]; apply exec_SELECT_rejected; assumption).
  cbn [bind try_catch].
  erewrite run_query by (cbn [now db with_db]; apply exec_ROLLBACK_any).
  cbn [bind try_catch run ret throw]. unfold with_db at 1 2 3.
  cbn [now redis db].
  eexists. split; [reflexivity|]. cbn [products orders orderSeq].
  split; [reflexivity|]. split; [reflexivity|]. split; [reflexivity|].
  split.
  - unfold conn_of. cbn [conns]. rewrite lookup_insert_eq. reflexivity.
  - intros [Hl _]. rewrite Hl, release_empty. apply quiet_closed.
Qed.

Lemma purchaseTransaction_out_of_stock pid uid q (p : Product) (w : World) :
  quiet (db w) ->
  products (db w) !! pid = Some p ->
  p_stock p < q ->
  exists d,
    run (purchaseTransaction pid uid q) w = (Ok out_of_stock, with_db w d) /\
    products d = products (db w) /\ orders d = orders (db w) /\
    orderSeq d = orderSeq (db w) /\ quiet d.
Proof.
  intros Hq Hp Hlt. unfold purchaseTransaction, await. cbn [bind try_catch].
  erewrite run_query by (apply exec_BEGIN; exact Hq).
  cbn [bind try_catch].
  erewrite run_query
    by (cbn [now db with_db]; apply (exec_SELECT _ _ _ _ _ _ _ p Hp own_empty)).
  rewrite lookup_empty. cbn [bind try_catch default r_stock r_price r_name].
  destruct (p_stock p <? q) eqn:E; [|lia].
  cbn [bind try_catch].
  erewrite run_query
    by (cbn [now db with_db]; apply exec_ROLLBACK, own_insert, own_empty).
  cbn [bind try_catch run ret]. unfold with_db at 1 2 3. cbn [now redis db].
  eexists. split; [reflexivity|]. cbn [products orders orderSeq].
  repeat split; try reflexivity. apply quiet_closed.
Qed.

Lemma accepted_true uid q p :
  accepted uid q p = true ->
  int4 (p_stock p - q) = true /\ int4 q = true /\ has_nul uid = false /\
  varchar_255 uid = Some (stored_user_id uid) /\
  decimal_10_2 (p_price p * q) = true.
Proof.
  unfold accepted, stored_user_id. intros H.
  apply andb_prop in H as [H H5]. apply andb_prop in H as [H H4].
  apply andb_prop in H as [H H3]. apply andb_prop in H as [H1 H2].
  apply negb_true_iff in H3. apply bool_decide_eq_true in H4.
  destruct (varchar_255 uid) as [stored|]; [|contradiction].
  auto.
Qed.

Lemma purchaseTransaction_success pid uid q (p : Product) (w : World) :
  quiet (db w) ->
  products (db w) !! pid = Some p ->
  q <= p_stock p ->
  accepted uid q p = true ->
  exists d,
    run (purchaseTransaction pid uid q) w
      = (Ok (purchased (db w) (now w) pid p q), with_db w d) /\
    products d = <[pid := set_stock (p_stock p - q) p]> (products (db w)) /\
    orders d = orders (db w) ++ [new_order (db w) (now w) uid pid p q] /\
    orderSeq d = orderSeq (db w) + 1 /\ quiet d.
Proof.
  intros Hq Hp Hle Hacc.
  destruct (accepted_true uid q p Hacc) as (Hs & Hi & Hn & Hv & Ht).
  unfold purchaseTransaction, await. cbn [bind try_catch].
  erewrite run_query by (apply exec_BEGIN; exact Hq).
  cbn [bind try_catch].
  erewrite run_query
    by (cbn [now db with_db]; apply (exec_SELECT _ _ _ _ _ _ _ p Hp own_empty)).
  rewrite lookup_empty. cbn [bind try_catch default r_stock r_price r_name].
  destruct (p_stock p <? q) eqn:E; [lia|].
  cbn [bind try_catch].
  erewrite run_query
    by (cbn [now db with_db];
        apply (exec_UPDATE _ _ _ _ _ _ _ p _ Hp);
        [apply own_insert, own_empty | exact Hs]).
  cbn [bind try_catch].
  erewrite run_query
    by (cbn [now db with_db];
        apply (exec_INSERT _ _ _ _ _ _ _ p uid (stored_user_id uid) _ _ Hp);
        [do 2 apply own_insert; apply own_empty
        | exact Hi | exact Hn | exact Hv | exact Ht]).
  cbn [bind try_catch].
  erewrite run_query
    by (cbn [now db with_db]; apply exec_COMMIT;
        do 2 apply own_insert; apply own_empty).
  cbn [bind try_catch run ret r_order_id r_created_at].
  unfold with_db at 1 2 3 4 5. cbn [now redis db].
  eexists. split; [reflexivity|]. cbn [products orders orderSeq].
  split; [apply apply_stock_one; exact Hp|].
  repeat split; try reflexivity. apply quiet_closed.
Qed.

(** Enough stock, but the store rejects the UPDATE or the INSERT: the
    [catch] rolls back what the transaction has written and raises
    again. *)
Lemma purchaseTransaction_rejected pid uid q (p : Product) (w : World) :
  quiet (db w) ->
  products (db w) !! pid = Some p ->
  q <= p_stock p ->
  accepted uid q p = false ->
  exists d,
    run (purchaseTransaction pid uid q) w = (Throw DbError, with_db w d) /\
    products d = products (db w) /\ orders d = orders (db w) /\
    orderSeq (db w) <= orderSeq d <= orderSeq (db w) + 1 /\ quiet d.
Proof.
  intros Hq Hp Hle Hacc.
  unfold purchaseTransaction, await. cbn [bind try_catch].
  erewrite run_query by (apply exec_BEGIN; exact Hq).
  cbn [bind try_catch].
  erewrite run_query
    by (cbn [now db with_db]; apply (exec_SELECT _ _ _ _ _ _ _ p Hp own_empty)).
  rewrite lookup_empty. cbn [bind try_catch default r_stock r_price r_name].
  destruct (p_stock p <? q) eqn:E; [lia|].
  cbn [bind try_catch].
  unfold accepted in Hacc.
  destruct (int4 (p_stock p - q)) eqn:Es.
  - erewrite run_query
      by (cbn [now db with_db];
          apply (exec_UPDATE _ _ _ _ _ _ _ p _ Hp);
          [apply own_insert, own_empty | exact Es]).
    cbn [bind try_catch].
    cbn [andb] in Hacc. rewrite <- !andb_assoc in Hacc.
    destruct (exec_INSERT_rejected (now w) (db w) (orderSeq (db w))
                (<[pid := 0%nat]> (<[pid := 0%nat]> ∅))
                (<[pid := p_stock p - q]> ∅) [] pid p uid q
                (p_price p * q) Hp
                ltac:(rewrite <- !andb_assoc; exact Hacc))
      as (seq' & Hex & Hseq).
    erewrite run_query by (cbn [now db with_db]; exact Hex).
    cbn [bind try_catch].
    erewrite run_query
      by (cbn [now db with_db]; apply exec_ROLLBACK;
          do 2 apply own_insert; apply own_empty).
    cbn [bind try_catch run ret throw]. unfold with_db at 1 2 3 4.
    cbn [now redis db].
    eexists. split; [reflexivity|]. cbn [products orders orderSeq].
    repeat split; try reflexivity; try lia. apply quiet_closed.
  - erewrite run_query
      by (cbn [now db with_db]; apply exec_UPDATE_rejected; exact Es).
    cbn [bind try_catch].
    erewrite run_query
      by (cbn [now db with_db]; apply exec_ROLLBACK, own_insert, own_empty).
    cbn [bind try_catch run ret throw]. unfold with_db at 1 2 3.
    cbn [now redis db].
    eexists. split; [reflexivity|]. cbn [products orders orderSeq].
    repeat split; try reflexivity; try lia. apply quiet_closed.
Qed.

(** What the middleware answers, when it answers, is a 429. *)
Lemma rateLimitMiddleware_status req maxReq window uid (w : World) r :
  (run (rateLimitMiddleware req maxReq window uid) w).1 = Ok (Some r) ->
  status r = 429 /\ exists msg, body r = Message false msg.
Proof.
  unfold rateLimitMiddleware. cbv zeta. rewrite run_bind.
  destruct (run (checkRateLimit _) w) as [[ul|e|] w1]; cbn [fst];
    try discriminate.
  destruct (allowed ul); cbn [negb].
  - rewrite run_bind.
    destruct (run (checkRateLimit _) w1) as [[il|e|] w2]; cbn [fst];
      try discriminate.
    destruct (allowed il); cbn [negb run ret fst]; intros [= <-].
    split; [reflexivity | eexists; reflexivity].
  - cbn [run ret fst]. intros [= <-]. split; [reflexivity | eexists; reflexivity].
Qed.

(** One request on a store where nothing else is in flight.  Either it
    is a purchase: the product was there with enough stock, the store
    accepted the UPDATE and the INSERT, and the order and the decrement
    are both committed.  Or the two tables are as before, also when a
    statement was rejected after the UPDATE.  Either way the transaction
    is closed, and an order id once taken is not handed out again. *)
Lemma POST_cases (req : NextRequest) (w : World) :
  quiet (db w) ->
  let res := run (POST req) w in
  quiet (db res.2) /\
  ((exists pid uid p,
       present_fields (json req) = Some (pid, uid) /\
       passes_limiter req w /\
       products (db w) !! pid = Some p /\
       requested req <= p_stock p /\
       accepted uid (requested req) p = true /\
       res.1 = Ok (purchased (db w) (now w) pid p (requested req)) /\
       orders (db res.2)
         = orders (db w) ++ [new_order (db w) (now w) uid pid p (requested req)] /\
       products (db res.2)
         = <[pid := set_stock (p_stock p - requested req) p]> (products (db w)) /\
       orderSeq (db res.2) = orderSeq (db w) + 1)
   \/
   (is_purchase res.1 = false /\
    products (db res.2) = products (db w) /\
    orders (db res.2) = orders (db w) /\
    orderSeq (db w) <= orderSeq (db res.2) <= orderSeq (db w) + 1)).
Proof.
  intros Hq res. subst res. rewrite run_POST.
  pose proof (redis_only_frame _ w
                (rateLimitMiddleware_redis_only req 5 60000 (userId (json req))))
    as [Hdb Hnow].
  pose proof (rateLimitMiddleware_status req 5 60000 (userId (json req)) w)
    as Hst.
  assert (Hpass : forall o w1,
             run (rateLimitMiddleware req 5 60000 (userId (json req))) w
               = (o, w1) -> o = Ok None -> passes_limiter req w).
  { intros o w1 Hrun ->. unfold passes_limiter. rewrite Hrun. reflexivity. }
  destruct (run (rateLimitMiddleware req 5 60000 (userId (json req))) w)
    as [[[response|]|e|] w1] eqn:Hrun; cbn [fst snd] in *.
  - rewrite Hdb. split; [exact Hq|]. right.
    destruct (Hst response eq_refl) as [_ [msg Hb]].
    unfold is_purchase. rewrite Hb. repeat split; auto; lia.
  - specialize (Hpass _ _ eq_refl eq_refl).
    destruct (present_fields (json req)) as [[pid uid]|] eqn:Hpf.
    + fold (requested req).
      assert (Hq1 : quiet (db w1)) by (rewrite Hdb; exact Hq).
      destruct (products (db w) !! pid) as [p|] eqn:Hp.
      * destruct (Z_lt_le_dec (p_stock p) (requested req)) as [Hlt|Hle].
        -- destruct (purchaseTransaction_out_of_stock pid uid (requested req)
                       p w1 Hq1 ltac:(rewrite Hdb; exact Hp) Hlt)
             as (d & -> & Hps & Hos & Hseq & Hqd).
           cbn [fst snd db with_db]. split; [exact Hqd|]. right.
           rewrite Hps, Hos, Hseq, Hdb. repeat split; auto; lia.
        -- destruct (accepted uid (requested req) p) eqn:Hacc.
           ++ destruct (purchaseTransaction_success pid uid (requested req)
                          p w1 Hq1 ltac:(rewrite Hdb; exact Hp) Hle Hacc)
                as (d & -> & Hps & Hos & Hseq & Hqd).
              cbn [fst snd db with_db]. split; [exact Hqd|]. left.
              exists pid, uid, p. rewrite Hps, Hos, Hseq, Hdb, Hnow. auto 12.
           ++ destruct (purchaseTransaction_rejected pid uid (requested req)
                          p w1 Hq1 ltac:(rewrite Hdb; exact Hp) Hle Hacc)
                as (d & -> & Hps & Hos & Hseq & Hqd).
              cbn [fst snd db with_db]. split; [exact Hqd|]. right.
              rewrite Hps, Hos, <- Hdb. repeat split; auto; lia.
      * assert (Hf : failed (conn_of 0 (db w1)) = false)
          by (destruct Hq1 as [_ ->]; reflexivity).
        destruct (int4 pid) eqn:Hr.
        -- destruct (purchaseTransaction_not_found pid uid (requested req) w1
                       ltac:(rewrite Hdb; exact Hp) Hr Hf)
             as (d & -> & Hps & Hos & Hseq & _ & Hqd).
           cbn [fst snd db with_db]. split; [apply Hqd, Hq1|]. right.
           rewrite Hps, Hos, Hseq, Hdb. repeat split; auto; lia.
        -- destruct (purchaseTransaction_out_of_range pid uid (requested req)
                       w1 ltac:(rewrite Hdb; exact Hp) Hr Hf)
             as (d & -> & Hps & Hos & Hseq & _ & Hqd).
           cbn [fst snd db with_db]. split; [apply Hqd, Hq1|]. right.
           rewrite Hps, Hos, Hseq, Hdb. repeat split; auto; lia.
    + cbn [fst snd]. rewrite Hdb. split; [exact Hq|]. right.
      repeat split; auto; lia.
  - rewrite Hdb. split; [exact Hq|]. right. repeat split; auto; lia.
  - rewrite Hdb. split; [exact Hq|]. right. repeat split; auto; lia.
Qed.

Lemma POST_outcome (req : NextRequest) (w : World) :
  quiet (db w) ->
  let res := run (POST req) w in
  quiet (db res.2) /\
  ((exists pid uid p,
       present_fields (json req) = Some (pid, uid) /\
       products (db w) !! pid = Some p /\
       requested req <= p_stock p /\
       res.1 = Ok (purchased (db w) (now w) pid p (requested req)) /\
       orders (db res.2)
         = orders (db w) ++ [new_order (db w) (now w) uid pid p (requested req)] /\
       products (db res.2)
         = <[pid := set_stock (p_stock p - requested req) p]> (products (db w)))
   \/
   (is_purchase res.1 = false /\
    products (db res.2) = products (db w) /\
    orders (db res.2) = orders (db w))).
Proof.
  intros Hq res. destruct (POST_cases req w Hq) as [Hq' H]. fold res in Hq', H.
  split; [exact Hq'|].
  destruct H as [(pid & uid & p & H1 & _ & H2 & H3 & _ & H4 & H5 & H6 & _)
                |(H1 & H2 & H3 & _)].
  - left. exists pid, uid, p. auto 10.
  - right. auto.
Qed.

(** A request served on its own.  Whenever [POST] answers with a purchase
    of [q] units ([q] is 1 when the body has no quantity) the product
    existed with stock at least [q], the store accepted the statements,
    exactly one order row was appended, completed and priced [q * price],
    the stock went down by exactly [q], and the answer reports the old
    stock minus [q] and, as total, the double
    [parseFloat(price) * q]; whenever it answers anything else, neither
    table changed, also when the store rejected the INSERT after the
    UPDATE.  Either way no transaction and no lock is left behind. *)
Lemma purchase_order_and_decrement_together (req : NextRequest) (w : World) :
  quiet (db w) ->
  let q := default 1 (quantity (json req)) in
  let res := run (POST req) w in
  quiet (db res.2) /\
  if is_purchase res.1 then
    exists pid uid p,
      present_fields (json req) = Some (pid, uid) /\
      products (db w) !! pid = Some p /\
      q <= p_stock p /\
      accepted uid q p = true /\
      res.1 = Ok (json_response
                    (Purchased true "Purchase successful"
                       {| i_id := orderSeq (db w); i_productId := pid;
                          i_productName := p_name p; i_quantity := q;
                          i_totalPrice := js_times (p_price p) q;
                          i_remainingStock := p_stock p - q;
                          i_createdAt := now w |}) 200) /\
      orders (db res.2)
        = orders (db w)
            ++ [mkOrder (orderSeq (db w)) (stored_user_id uid) pid q
                  (p_price p * q) "completed" (now w)] /\
      products (db res.2)
        = <[pid := mkProduct (p_name p) (p_stock p - q) (p_price p)]>
            (products (db w))
  else
    products (db res.2) = products (db w) /\
    orders (db res.2) = orders (db w).
Proof.
  intros Hq q res.
  destruct (POST_cases req w Hq) as [Hq' [H|H]]; fold res in Hq', H;
    (split; [exact Hq'|]).
  - destruct H as (pid & uid & p & Hpf & _ & Hp & Hle & Hacc & Hres & Hos & Hps & _).
    rewrite Hres. cbn [is_purchase purchased json_response body].
    exists pid, uid, p. repeat split; assumption.
  - destruct H as (Hnot & Hps & Hos & _). rewrite Hnot. auto.
Qed.

(** C4 - out of stock.  On a store where nothing else is in flight, the
    transaction for an existing product whose stock is below the requested
    quantity answers [{ success: false, message: "Out of stock" }] with
    status 200 after ROLLBACK (no lock and no open transaction remain),
    leaves the stock unchanged and creates no order row; and that is the
    answer of [POST] to every request that reaches the
    transaction (the limiter lets it through, productId and userId are
    there). *)
Theorem out_of_stock_is_a_normal_answer (w : World) (pid : Z) (uid : string)
    (q : Z) (p : Product) :
  quiet (db w) ->
  products (db w) !! pid = Some p ->
  p_stock p < q ->
  (let res := run (purchaseTransaction pid uid q) w in
   res.1 = Ok {| body := Message false "Out of stock"; status := 200;
                 headers := [] |} /\
   products (db res.2) = products (db w) /\
   orders (db res.2) = orders (db w) /\
   quiet (db res.2)) /\
  (forall req,
     passes_limiter req w ->
     present_fields (json req) = Some (pid, uid) ->
     default 1 (quantity (json req)) = q ->
     let res := run (POST req) w in
     res.1 = Ok {| body := Message false "Out of stock"; status := 200;
                   headers := [] |} /\
     products (db res.2) = products (db w) /\
     orders (db res.2) = orders (db w)).
Proof.
  intros Hq Hp Hlt. split.
  - destruct (purchaseTransaction_out_of_stock pid uid q p w Hq Hp Hlt)
      as (d & -> & Hps & Hos & _ & Hqd).
    cbn [fst snd db with_db]. auto.
  - intros req Hpass Hpf Hreq res. subst res. rewrite run_POST.
    unfold passes_limiter in Hpass.
    pose proof (redis_only_frame _ w
                  (rateLimitMiddleware_redis_only req 5 60000
                     (userId (json req)))) as [Hdb _].
    destruct (run (rateLimitMiddleware req 5 60000 (userId (json req))) w)
      as [o w1]; cbn [fst snd] in *. subst o. rewrite Hpf, Hreq.
    destruct (purchaseTransaction_out_of_stock pid uid q p w1
                ltac:(rewrite Hdb; exact Hq) ltac:(rewrite Hdb; exact Hp) Hlt)
      as (d & -> & Hps & Hos & _).
    cbn [fst snd db with_db]. rewrite Hps, Hos, Hdb. auto.
Qed.

(** C5 - counterexample.  [{ productId: 2147483648, userId: "bob" }]
    names no product; the SELECT is rejected because the id is not an
    INTEGER, and the answer is the 500, not the 404. *)
Lemma out_of_range_id_is_an_internal_error : ~ unknown_product_gets_404.
Proof.
  intros H.
  specialize (H out_of_range_request demo_world 2147483648 "bob").
  assert (Hst : status_of (run (POST out_of_range_request) demo_world).1
                = Some 500) by (vm_compute; reflexivity).
  rewrite Hst in H. discriminate H.
  - split; reflexivity.
  - vm_compute. reflexivity.
  - reflexivity.
  - reflexivity.
Qed.

(** C5 - unknown product.  The transaction for a productId that names no
    product, started on a connection that holds no aborted transaction:
    when the id is in the range of INTEGER the SELECT finds no row, the
    code issues ROLLBACK and answers with status 404; when it is not, the
    SELECT is rejected, the [catch] issues ROLLBACK and raises again, and
    [POST] answers with status 500.  Either way the transaction opened by
    BEGIN is closed, no order row is created and no stock changes; and
    that is the answer of [POST] to every request that reaches the
    transaction. *)
Theorem unknown_product_is_not_found (w : World) (pid : Z) (uid : string)
    (q : Z) :
  products (db w) !! pid = None ->
  failed (conn_of 0 (db w)) = false ->
  (let res := run (purchaseTransaction pid uid q) w in
   res.1 = (if int4 pid
            then Ok {| body := Message false "Product not found";
                       status := 404; headers := [] |}
            else Throw DbError) /\
   products (db res.2) = products (db w) /\
   orders (db res.2) = orders (db w) /\
   conn_of 0 (db res.2) = idle) /\
  (forall req,
     passes_limiter req w ->
     present_fields (json req) = Some (pid, uid) ->
     let res := run (POST req) w in
     res.1 = Ok (if int4 pid
                 then {| body := Message false "Product not found";
                         status := 404; headers := [] |}
                 else {| body := Message false "Internal server error";
                         status := 500; headers := [] |}) /\
     products (db res.2) = products (db w) /\
     orders (db res.2) = orders (db w)).
Proof.
  intros Hp Hf. split.
  - destruct (int4 pid) eqn:Hr.
    + destruct (purchaseTransaction_not_found pid uid q w Hp Hr Hf)
        as (d & -> & Hps & Hos & _ & Hidle & _).
      cbn [fst snd db with_db]. auto.
    + destruct (purchaseTransaction_out_of_range pid uid q w Hp Hr Hf)
        as (d & -> & Hps & Hos & _ & Hidle & _).
      cbn [fst snd db with_db]. auto.
  - intros req Hpass Hpf res. subst res. rewrite run_POST.
    unfold passes_limiter in Hpass.
    pose proof (redis_only_frame _ w
                  (rateLimitMiddleware_redis_only req 5 60000
                     (userId (json req)))) as [Hdb _].
    destruct (run (rateLimitMiddleware req 5 60000 (userId (json req))) w)
      as [o w1]; cbn [fst snd] in *. subst o. rewrite Hpf.
    destruct (int4 pid) eqn:Hr.
    + destruct (purchaseTransaction_not_found pid uid
                  (default 1 (quantity (json req))) w1
                  ltac:(rewrite Hdb; exact Hp) Hr
                  ltac:(rewrite Hdb; exact Hf))
        as (d & -> & Hps & Hos & _).
      cbn [fst snd db with_db]. rewrite Hps, Hos, Hdb. auto.
    + destruct (purchaseTransaction_out_of_range pid uid
                  (default 1 (quantity (json req))) w1
                  ltac:(rewrite Hdb; exact Hp) Hr
                  ltac:(rewrite Hdb; exact Hf))
        as (d & -> & Hps & Hos & _).
      cbn [fst snd db with_db]. rewrite Hps, Hos, Hdb. auto.
Qed.

(** C6 - counterexample.  [{ productId: 1, userId: "mallory", quantity: -1 }]
    against a stock of 5: the answer is a purchase with status 200, the
    stock becomes 6 and an order row is written. *)
Lemma quantity_is_not_validated : ~ rejects_malformed.
Proof.
  intros H.
  destruct (H (demo_request "mallory" (Some (-1))) demo_world)
    as (r & Hr & Hst & _).
  - split; reflexivity.
  - vm_compute. reflexivity.
  - reflexivity.
  - vm_compute in Hr. injection Hr as <-. vm_compute in Hst. discriminate.
Qed.

(** C6 - missing fields.  A request whose body lacks productId or userId
    (absent, 0 or the empty string) never reaches the record store: the
    store is exactly as before.  The answer is the 400 when the limiter
    lets the request through, the limiter's own 429 when it does not, and
    the 500 when the limiter raises. *)
Theorem missing_fields_are_rejected (req : NextRequest) (w : World) :
  present_fields (json req) = None ->
  let res := run (POST req) w in
  let limiter := run (rateLimitMiddleware req 5 60000 (userId (json req))) w in
  db res.2 = db w /\
  match limiter.1 with
  | Ok None =>
      res.1 = Ok {| body := Message false "Missing productId or userId";
                    status := 400; headers := [] |}
  | Ok (Some r) => res.1 = Ok r /\ status r = 429
  | Throw _ =>
      res.1 = Ok {| body := Message false "Internal server error";
                    status := 500; headers := [] |}
  | Pending => res.1 = Pending
  end.
Proof.
  intros Hpf res limiter. subst res limiter. rewrite run_POST.
  pose proof (redis_only_frame _ w
                (rateLimitMiddleware_redis_only req 5 60000 (userId (json req))))
    as [Hdb _].
  pose proof (rateLimitMiddleware_status req 5 60000 (userId (json req)) w)
    as Hst.
  destruct (run (rateLimitMiddleware req 5 60000 (userId (json req))) w)
    as [[[r|]|e|] w1]; cbn [fst snd] in *; rewrite ?Hpf; cbn [fst snd];
    split; auto.
  split; [reflexivity | apply Hst; reflexivity].
Qed.

(** After the middleware, [POST] leaves the counter store alone. *)
Lemma POST_redis (req : NextRequest) (w : World) :
  redis (run (POST req) w).2
  = redis (run (rateLimitMiddleware req 5 60000 (userId (json req))) w).2.
Proof.
  rewrite run_POST.
  destruct (run (rateLimitMiddleware req 5 60000 (userId (json req))) w)
    as [[[r|]|e|] w1]; cbn [snd]; try reflexivity.
  destruct (present_fields (json req)) as [[pid uid]|]; [|reflexivity].
  pose proof (query_only_frame _ w1
                (purchaseTransaction_query_only pid uid
                   (default 1 (quantity (json req))))) as [Hr _].
  destruct (run (purchaseTransaction pid uid _) w1) as [[resp|e|] w2];
    exact Hr.
Qed.

(** C10 - the limiter runs before validation.  On a counter store that
    answers, every request - whatever its body - leaves the user-tier
    counter at the value INCR returned for it, and the IP-tier counter too
    whenever the user tier allowed (count within 5); a body without
    productId or userId is only then answered 400.  Without a userId in
    body or query string the user-tier key is that of "anonymous". *)
Theorem limiter_runs_before_validation (req : NextRequest) (w : World) :
  healthy (redis w) ->
  let ukey := rate_limit_key ("user:" +:+ finalUserId req (userId (json req))) in
  let ikey := rate_limit_key ("ip:" +:+ client_ip req) in
  let res := run (POST req) w in
  count_of res.2 ukey = Some (next_count w ukey) /\
  (next_count w ukey <= 5 -> count_of res.2 ikey = Some (next_count w ikey)) /\
  (present_fields (json req) = None ->
   next_count w ukey <= 5 -> next_count w ikey <= 10 ->
   res.1 = Ok {| body := Message false "Missing productId or userId";
                 status := 400; headers := [] |}) /\
  (userId (json req) = None -> query_userId req = None ->
   ukey = "rate_limit:user:anonymous").
Proof.
  intros Hh ukey ikey res.
  destruct (rateLimitMiddleware_healthy req 5 60000 (userId (json req)) w Hh
              ltac:(lia))
    as (out & r & Hrun & _ & Hu & Hdenied & Hallowed).
  cbn [user_tier ip_tier identifier] in Hu, Hdenied, Hallowed.
  fold ukey in Hu, Hdenied, Hallowed. fold ikey in Hdenied, Hallowed.
  assert (Hredis : redis res.2 = r).
  { subst res. rewrite POST_redis, Hrun. reflexivity. }
  unfold count_of. rewrite Hredis.
  split; [exact Hu|]. split; [intros Hle; apply Hallowed, Hle|]. split.
  - intros Hpf Hule Hile. destruct (Hallowed Hule) as (_ & _ & Hnone).
    specialize (Hnone Hile). subst out res.
    rewrite run_POST, Hrun, Hpf. reflexivity.
  - intros Hb Hqs. subst ukey. unfold finalUserId. rewrite Hb, Hqs. reflexivity.
Qed.

(* ===================================================================== *)
(** ** Failures of the counter store *)
(* ===================================================================== *)

(** Once the client object exists, no failure of a command escapes the
    check: the [catch] of [checkRateLimit] turns it into "allowed". *)
Lemma checkRateLimit_catches_commands (options : RateLimitOptions) (w : World) :
  redisClient (redis w) <> None ->
  forall e, (run (checkRateLimit options) w).1 <> Throw e.
Proof.
  intros Hc e. unfold checkRateLimit, getRedisClient. cbv zeta.
  rewrite run_bind, run_bind. cbn [run perform handle].
  rewrite bool_decide_true by exact Hc. cbn [negb run ret].
  rewrite run_try_catch.
  destruct (run _ w) as [[res|e'|] w1]; cbn [run ret fst]; discriminate.
Qed.

Lemma checkRateLimit_fails_open (options : RateLimitOptions) (w : World) fs :
  redisClient (redis w) = Some Ready ->
  faults (redis w) = Fails :: fs ->
  (run (checkRateLimit options) w).1 = Ok allowed_result.
Proof.
  intros Hc Hf. unfold checkRateLimit, getRedisClient, await. simpl.
  rewrite Hc. simpl. unfold redis_command, next_fault. rewrite Hc, Hf.
  reflexivity.
Qed.

(** The first check of a process whose [connect()] does not succeed: the
    failure is raised by [getRedisClient], outside the [try]. *)
Lemma checkRateLimit_connect_failure (options : RateLimitOptions) (w : World)
    f fs :
  redisClient (redis w) = None ->
  faults (redis w) = f :: fs -> f <> Fine ->
  (run (checkRateLimit options) w).1
  = match f with Stalls => Pending | _ => Throw RedisError end.
Proof.
  intros Hc Hf Hne. unfold checkRateLimit, getRedisClient, await. simpl.
  rewrite Hc. simpl. unfold redis_connect, next_fault. simpl. rewrite Hf.
  destruct f; [contradiction | reflexivity | reflexivity].
Qed.

(** C8 - evaluation at the failing inputs.  With the store unreachable at
    the first call, the check does not answer "allowed": it raises when
    [connect()] is rejected and never returns when [connect()] is left
    unanswered; the purchase then ends in the 500 or does not end.  And a
    single rejected EXPIRE, although the check that met it answers
    "allowed", leaves a counter without expiry: of six requests of one
    user 100 seconds apart (each alone in its window, all allowed when the
    store is sound) the sixth is denied. *)
Theorem counter_store_failure_reaches_the_purchase :
  (run (checkRateLimit (mkOptions 5 60000 "user:alice")) (redis_down Fails)).1
    = Throw RedisError /\
  (run (POST (demo_request "alice" None)) (redis_down Fails)).1
    = Ok {| body := Message false "Internal server error"; status := 500;
            headers := [] |} /\
  (run (checkRateLimit (mkOptions 5 60000 "user:alice")) (redis_down Stalls)).1
    = Pending /\
  (run (POST (demo_request "alice" None)) (redis_down Stalls)).1 = Pending /\
  (checks_at (mkOptions 5 60000 "user:alice") every_100s demo_world).1
    = replicate 6 (Ok allowed_result) /\
  (checks_at (mkOptions 5 60000 "user:alice") every_100s expire_lost).1
    = replicate 5 (Ok allowed_result) ++ [Ok (mkResult false (Some 60))] /\
  status_of <$>
    (serve ((fun t => (t, demo_request "alice" None)) <$> every_100s)
       expire_lost).1
    = [Some 200; Some 200; Some 200; Some 200; Some 200; Some 429].
Proof. vm_compute. repeat split; reflexivity. Qed.

(* ===================================================================== *)
(** ** Requests applied one at a time *)
(* ===================================================================== *)

Lemma sold_app pid os1 os2 : sold pid (os1 ++ os2) = sold pid os1 + sold pid os2.
Proof. induction os1 as [|o os1 IH]; simpl; [reflexivity | rewrite IH; lia]. Qed.

Lemma POST_balanced pid total (req : NextRequest) (w : World) :
  quiet (db w) -> 0 < requested req -> balanced pid total (db w) ->
  quiet (db (run (POST req) w).2) /\
  balanced pid total (db (run (POST req) w).2).
Proof.
  intros Hq Hpos (p & Hp & Hge & Hsum).
  destruct (POST_outcome req w Hq) as [Hq' [H|H]]; split; try exact Hq'.
  - destruct H as (pid' & uid & p' & _ & Hp' & Hle & _ & Hos & Hps).
    unfold balanced. rewrite Hos, Hps, sold_app. simpl.
    destruct (decide (pid' = pid)) as [->|Hne].
    + rewrite Hp in Hp'. injection Hp' as <-.
      rewrite lookup_insert_eq. eexists. split; [reflexivity|].
      simpl. rewrite Z.eqb_refl. lia.
    + rewrite lookup_insert_ne by auto. exists p. split; [exact Hp|].
      destruct (pid' =? pid) eqn:E; [lia|]. lia.
  - destruct H as (_ & Hps & Hos). unfold balanced. rewrite Hps, Hos.
    exists p. auto.
Qed.

Lemma serve_balanced pid total (reqs : list (Z * NextRequest)) :
  forall w,
    quiet (db w) -> balanced pid total (db w) ->
    Forall (fun tr => 0 < requested tr.2) reqs ->
    quiet (db (serve reqs w).2) /\ balanced pid total (db (serve reqs w).2).
Proof.
  induction reqs as [|[t req] reqs IH]; intros w Hq Hb Hall; simpl; [auto|].
  inversion Hall as [|? ? Hpos Hall']; subst. simpl in Hpos.
  destruct (POST_balanced pid total req (at_time t w) Hq Hpos Hb) as [Hq1 Hb1].
  apply IH; assumption.
Qed.



(* ===================================================================== *)
(** ** Overlapping requests *)
(* ===================================================================== *)

(** [run] is the schedule in which a lone handler is always served by
    connection 0. *)
Lemma run_is_a_schedule {A : Type} (p : Prog A) :
  forall w, exists n p',
    sched (replicate n (0%nat, 0%nat)) [p] w = Some ([p'], (run p w).2) /\
    (p' = Ret (run p w).1 \/
     (step 0 p' (run p w).2 = None /\ (run p w).1 = Pending)).
Proof.
  induction p as [r|X e k IH]; intros w.
  - exists 0%nat, (Ret r). split; [reflexivity | left; reflexivity].
  - simpl. destruct (handle 0 e w) as [[x w1]|] eqn:Hh.
    + destruct (IH x w1) as (n & p' & Hs & Hp').
      exists (S n), p'. split; [|exact Hp'].
      simpl. rewrite Hh. exact Hs.
    + exists 0%nat, (Vis e k). split; [reflexivity|]. right.
      simpl. rewrite Hh. auto.
Qed.

(** With a connection per handler the row lock does its work: the second
    SELECT .. FOR UPDATE cannot run while the first transaction is open,
    and once it runs it sees the committed stock 0 and answers "Out of
    stock". *)
Lemma row_lock_with_own_connections :
  sched own_connections_early [POST alice_buys_one; POST bob_buys_one]
    last_unit_world = None /\
  match sched own_connections [POST alice_buys_one; POST bob_buys_one]
          last_unit_world with
  | Some (hs, w) =>
      remaining_reported <$> (result_of <$> hs) = [Some 0; None] /\
      result_of <$> hs !! 1%nat = Some (Some (Ok out_of_stock)) /\
      stock_of 1 w = Some 0 /\ sold 1 (orders (db w)) = 1
  | None => False
  end.
Proof. vm_compute. repeat split; reflexivity. Qed.

(** C1 - evaluation at the failing input.  Two overlapping purchases of
    the last unit, their statements served by the same pooled connection:
    both read stock 1, both answer "Purchase successful" with remaining
    stock 0, two orders are committed, and the units sold (2) exceed the
    starting stock (1). *)
Theorem oversell_on_shared_connection :
  stock_of 1 last_unit_world = Some 1 /\
  match sched shared_connection [POST alice_buys_one; POST bob_buys_one]
          last_unit_world with
  | Some (hs, w) =>
      remaining_reported <$> (result_of <$> hs) = [Some 0; Some 0] /\
      sold 1 (orders (db w)) = 2 /\
      length (orders (db w)) = 2%nat /\
      stock_of 1 w = Some 0
  | None => False
  end.
Proof. vm_compute. repeat split; reflexivity. Qed.

(** C3 - evaluation at the failing input.  Alice buys the last unit while
    Bob asks for a product that does not exist, their statements served by
    the same pooled connection: Bob's ROLLBACK ends the transaction that
    holds Alice's UPDATE, her INSERT then commits on its own and her
    COMMIT finds no transaction.  Alice is answered "Purchase successful"
    with remaining stock 0, her order is committed, and the stock is still
    1: the order without the decrement. *)
Theorem order_without_decrement_on_shared_connection :
  stock_of 1 last_unit_world = Some 1 /\
  match sched rollback_in_between
          [POST alice_buys_one; POST unknown_product_request]
          last_unit_world with
  | Some (hs, w) =>
      remaining_reported <$> (result_of <$> hs) = [Some 0; None] /\
      result_of <$> hs !! 1%nat = Some (Some (Ok not_found)) /\
      o_user_id <$> orders (db w) = ["alice"] /\
      sold 1 (orders (db w)) = 1 /\
      stock_of 1 w = Some 1 /\
      rowLocks (db w) = ∅ /\ conn_of 0 (db w) = idle
  | None => False
  end.
Proof. vm_compute. repeat split; reflexivity. Qed.

(* ===================================================================== *)
(** ** The theorems at concrete inputs *)
(* ===================================================================== *)

Lemma demo_world_quiet : quiet (db demo_world).
Proof. split; reflexivity. Defined.

Lemma demo_world_healthy : healthy (redis demo_world).
Proof. split; [left; reflexivity | constructor]. Defined.

(** Limit 2, window 60 s, calls at 0, 10 and 20 ms. *)
Lemma window_law_witness :
  let options := mkOptions (Z.of_nat 2) 60000 "user:alice" in
  (exists r,
      (checks_at options (0 :: [10; 20]) demo_world).1
        = replicate 2 (Ok allowed_result) ++ [Ok (mkResult false (Some r))] /\
      0 < r) /\
  (forall k, (k <= 2)%nat ->
     counters (redis (checks_at options (0 :: take k [10; 20]) demo_world).2)
       !! rate_limit_key "user:alice"
     = Some (mkEntry (Z.of_nat (S k)) (Some (0 + ceil_div 60000 1000 * 1000)))).
Proof.
  apply (window_law "user:alice" 2 60000 demo_world 0 [10; 20]).
  - exact demo_world_healthy.
  - lia.
  - reflexivity.
  - reflexivity.
  - repeat constructor.
Defined.

(** Alice buys two of the five laptops. *)
Lemma purchase_order_and_decrement_together_witness :
  is_purchase (run (POST (demo_request "alice" (Some 2))) demo_world).1 = true /\
  let q := default 1 (quantity (json (demo_request "alice" (Some 2)))) in
  let res := run (POST (demo_request "alice" (Some 2))) demo_world in
  quiet (db res.2) /\
  if is_purchase res.1 then
    exists pid uid p,
      present_fields (json (demo_request "alice" (Some 2))) = Some (pid, uid) /\
      products (db demo_world) !! pid = Some p /\
      q <= p_stock p /\
      accepted uid q p = true /\
      res.1 = Ok (json_response
                    (Purchased true "Purchase successful"
                       {| i_id := orderSeq (db demo_world); i_productId := pid;
                          i_productName := p_name p; i_quantity := q;
                          i_totalPrice := js_times (p_price p) q;
                          i_remainingStock := p_stock p - q;
                          i_createdAt := now demo_world |}) 200) /\
      orders (db res.2)
        = orders (db demo_world)
            ++ [mkOrder (orderSeq (db demo_world)) (stored_user_id uid) pid q
                  (p_price p * q) "completed" (now demo_world)] /\
      products (db res.2)
        = <[pid := mkProduct (p_name p) (p_stock p - q) (p_price p)]>
            (products (db demo_world))
  else
    products (db res.2) = products (db demo_world) /\
    orders (db res.2) = orders (db demo_world).
Proof.
  split; [vm_compute; reflexivity|].
  apply (purchase_order_and_decrement_together
           (demo_request "alice" (Some 2)) demo_world).
  exact demo_world_quiet.
Defined.

(** Seven laptops asked for, five in stock. *)
Lemma out_of_stock_is_a_normal_answer_witness :
  let res := run (POST (demo_request "alice" (Some 7))) demo_world in
  res.1 = Ok {| body := Message false "Out of stock"; status := 200;
                headers := [] |} /\
  products (db res.2) = products (db demo_world) /\
  orders (db res.2) = orders (db demo_world).
Proof.
  apply (out_of_stock_is_a_normal_answer demo_world 1 "alice" 7
           (mkProduct "Laptop Pro 15" 5 129999)).
  - exact demo_world_quiet.
  - reflexivity.
  - reflexivity.
  - vm_compute. reflexivity.
  - reflexivity.
  - reflexivity.
Defined.

Lemma unknown_product_is_not_found_witness :
  (let res := run (POST unknown_product_request) demo_world in
   res.1 = Ok {| body := Message false "Product not found"; status := 404;
                 headers := [] |} /\
   products (db res.2) = products (db demo_world) /\
   orders (db res.2) = orders (db demo_world)) /\
  (let res := run (POST out_of_range_request) demo_world in
   res.1 = Ok {| body := Message false "Internal server error"; status := 500;
                 headers := [] |} /\
   products (db res.2) = products (db demo_world) /\
   orders (db res.2) = orders (db demo_world)).
Proof.
  split.
  - apply (unknown_product_is_not_found demo_world 9 "bob" 1).
    + reflexivity.
    + reflexivity.
    + vm_compute. reflexivity.
    + reflexivity.
  - apply (unknown_product_is_not_found demo_world 2147483648 "bob" 1).
    + reflexivity.
    + reflexivity.
    + vm_compute. reflexivity.
    + reflexivity.
Defined.

Lemma missing_fields_are_rejected_witness :
  (run (rateLimitMiddleware no_user_request 5 60000 None) demo_world).1 = Ok None /\
  let res := run (POST no_user_request) demo_world in
  let limiter := run (rateLimitMiddleware no_user_request 5 60000
                     (userId (json no_user_request))) demo_world in
  db res.2 = db demo_world /\
  match limiter.1 with
  | Ok None =>
      res.1 = Ok {| body := Message false "Missing productId or userId";
                    status := 400; headers := [] |}
  | Ok (Some r) => res.1 = Ok r /\ status r = 429
  | Throw _ =>
      res.1 = Ok {| body := Message false "Internal server error";
                    status := 500; headers := [] |}
  | Pending => res.1 = Pending
  end.
Proof.
  split; [vm_compute; reflexivity|].
  apply (missing_fields_are_rejected no_user_request demo_world).
  reflexivity.
Defined.

Lemma limiter_runs_before_validation_witness :
  let req := no_user_request in
  let ukey := rate_limit_key ("user:" +:+ finalUserId req (userId (json req))) in
  let ikey := rate_limit_key ("ip:" +:+ client_ip req) in
  let res := run (POST req) demo_world in
  count_of res.2 ukey = Some (next_count demo_world ukey) /\
  (next_count demo_world ukey <= 5 ->
   count_of res.2 ikey = Some (next_count demo_world ikey)) /\
  (present_fields (json req) = None ->
   next_count demo_world ukey <= 5 -> next_count demo_world ikey <= 10 ->
   res.1 = Ok {| body := Message false "Missing productId or userId";
                 status := 400; headers := [] |}) /\
  (userId (json req) = None -> query_userId req = None ->
   ukey = "rate_limit:user:anonymous").
Proof.
  apply (limiter_runs_before_validation no_user_request demo_world).
  exact demo_world_healthy.
Defined.


(** A check that finds a live counter and does not bring it to 1 leaves
    the counter's expiry as it was. *)
Lemma expiry_written_only_at_count_one now options cs (e : Entry) :
  lookup_live now cs (rate_limit_key (identifier options)) = Some e ->
  e_count e + 1 <> 1 ->
  check_counters now options cs !! rate_limit_key (identifier options)
  = Some (mkEntry (e_count e + 1) (e_expiry e)).
Proof.
  intros Hl Hne. unfold check_counters, redis_incr. rewrite Hl. simpl.
  destruct (e_count e + 1 =? 1) eqn:E; [lia|].
  apply lookup_insert_eq.
Qed.

Lemma two_tier_order_witness :
  (run (rateLimitMiddleware (demo_request "alice" None) 5 60000 (Some "alice"))
     spent_user_world).1
  = Ok (Some {| body := Message false "Rate limit exceeded for user";
                status := 429;
                headers := [("Retry-After", "59"); ("X-RateLimit-Limit", "5");
                            ("X-RateLimit-Remaining", "0")] |}) /\
  let req := demo_request "alice" None in
  let u := run (checkRateLimit (user_tier req 5 60000 (Some "alice")))
             spent_user_world in
  match u.1 with
  | Ok ul =>
      if allowed ul then
        let i := run (checkRateLimit (ip_tier req)) u.2 in
        run (rateLimitMiddleware req 5 60000 (Some "alice")) spent_user_world =
        (match i.1 with
         | Ok il =>
             Ok (if allowed il then None
                 else Some (rate_limited "Rate limit exceeded for IP"
                              (retryAfter il) "10"))
         | Throw e => Throw e
         | Pending => Pending
         end, i.2)
      else
        run (rateLimitMiddleware req 5 60000 (Some "alice")) spent_user_world =
          (Ok (Some (rate_limited "Rate limit exceeded for user"
                       (retryAfter ul) (pretty 5))), u.2) /\
        counters (redis u.2) !! rate_limit_key (identifier (ip_tier req))
          = counters (redis spent_user_world)
              !! rate_limit_key (identifier (ip_tier req)) /\
        exists r,
          retryAfter ul = Some r /\
          (0 < 60000 ->
           0 < r /\
           headers (rate_limited "Rate limit exceeded for user"
                      (retryAfter ul) (pretty 5))
           = [("Retry-After", pretty r); ("X-RateLimit-Limit", pretty 5);
              ("X-RateLimit-Remaining", "0")])
  | Throw e =>
      run (rateLimitMiddleware req 5 60000 (Some "alice")) spent_user_world
      = (Throw e, u.2)
  | Pending =>
      run (rateLimitMiddleware req 5 60000 (Some "alice")) spent_user_world
      = (Pending, u.2)
  end.
Proof.
  split; [vm_compute; reflexivity|].
  exact (two_tier_order (demo_request "alice" None) 5 60000 (Some "alice")
           spent_user_world).
Defined.

(* ===================================================================== *)
(** ** More on the rate limiter *)
(* ===================================================================== *)

Lemma rate_limit_key_inj (a b : string) :
  rate_limit_key a = rate_limit_key b -> a = b.
Proof. unfold rate_limit_key. simpl. intros H. injection H. auto. Qed.

(** X1 - the retry hint.  A caller denied at [t], whose counter expires at
    [T], is told to retry after [r] seconds with [T < t + 1000 r + 500]:
    the hint may fall up to half a second short of the expiry, never more.
    Any check from [t + 1000 r + 500] on finds the counter gone, restarts
    it at 1 with a fresh expiry and is allowed (for a limit of at least
    1). *)
Theorem retry_hint_suffices (options : RateLimitOptions) (w : World)
    (t t' c T r : Z) :
  healthy (redis w) ->
  0 < windowMs options ->
  1 <= maxRequests options ->
  counters (redis w) !! rate_limit_key (identifier options)
    = Some (mkEntry c (Some T)) ->
  t < T ->
  let denied := run (checkRateLimit options) (at_time t w) in
  denied.1 = Ok (mkResult false (Some r)) ->
  t + 1000 * r + 500 <= t' ->
  let again := run (checkRateLimit options) (at_time t' denied.2) in
  T < t + 1000 * r + 500 /\
  again.1 = Ok allowed_result /\
  counters (redis again.2) !! rate_limit_key (identifier options)
    = Some (mkEntry 1 (Some (t' + ceil_div (windowMs options) 1000 * 1000))).
Proof.
  intros Hh HW HN Hcs Hlive denied Hden Hwait again.
  pose proof (ceil_div_pos _ HW) as Hsec.
  destruct (checkRateLimit_healthy options (at_time t w) Hh)
    as (r1 & Hrun & Hr1 & Hc1).
  cbn [now redis at_time] in Hrun, Hc1.
  subst again denied. rewrite Hrun in Hden |- *. cbn [fst snd] in *.
  injection Hden as Hres.
  assert (Hinc : (redis_incr t (rate_limit_key (identifier options))
                    (counters (redis w))).1 = c + 1).
  { unfold redis_incr, lookup_live. rewrite Hcs. unfold live. simpl.
    destruct (t <? T) eqn:E; [reflexivity | lia]. }
  unfold check_result in Hres. rewrite Hinc in Hres.
  destruct (maxRequests options <? c + 1) eqn:Hover; [|discriminate].
  injection Hres as Hr.
  destruct (check_later_hit t options _ c T Hcs Hlive ltac:(lia)) as [Hent _].
  assert (Httl : redis_ttl t (rate_limit_key (identifier options))
                   (check_counters t options (counters (redis w)))
                 = (T - t + 500) / 1000).
  { unfold redis_ttl, lookup_live. rewrite Hent. unfold live. simpl.
    destruct (t <? T) eqn:E; [reflexivity | lia]. }
  rewrite Httl in Hr.
  assert (HT : T < t + 1000 * r + 500).
  { pose proof (Z.mod_pos_bound (T - t + 500) 1000 ltac:(lia)) as Hm.
    pose proof (Z.div_mod (T - t + 500) 1000 ltac:(lia)) as Hd.
    destruct (0 <? (T - t + 500) / 1000) eqn:E; subst r; lia. }
  split; [exact HT|].
  assert (Hh2 : healthy (redis (at_time t' (with_redis (at_time t w) r1))))
    by (apply connected_healthy; exact Hr1).
  destruct (checkRateLimit_healthy options _ Hh2) as (r2 & Hrun2 & Hr2 & Hc2).
  cbn [now redis at_time with_redis] in Hrun2, Hc2.
  rewrite Hrun2. cbn [fst snd redis with_redis].
  assert (Hgone : lookup_live t' (counters r1)
                    (rate_limit_key (identifier options)) = None).
  { unfold lookup_live. rewrite Hc1, Hent. unfold live. simpl.
    destruct (t' <? T) eqn:E; [lia | reflexivity]. }
  destruct (check_first_hit t' options (counters r1) HW Hgone) as [Hent2 Hinc2].
  split.
  - f_equal. apply check_result_allowed. rewrite Hinc2. exact HN.
  - rewrite Hc2. exact Hent2.
Qed.

Lemma retry_hint_suffices_witness :
  let options := mkOptions 5 60000 "user:alice" in
  let denied := run (checkRateLimit options) (at_time 58600 denied_user_world) in
  let again := run (checkRateLimit options) (at_time 60100 denied.2) in
  denied.1 = Ok (mkResult false (Some 1)) /\
  (run (checkRateLimit options) (at_time 59600 denied.2)).1
    = Ok (mkResult false (Some 60)) /\
  60000 < 58600 + 1000 * 1 + 500 /\
  again.1 = Ok allowed_result /\
  counters (redis again.2) !! rate_limit_key (identifier options)
    = Some (mkEntry 1 (Some (60100 + ceil_div (windowMs options) 1000 * 1000))).
Proof.
  split; [vm_compute; reflexivity|]. split; [vm_compute; reflexivity|].
  apply (retry_hint_suffices (mkOptions 5 60000 "user:alice")
           denied_user_world 58600 60100 5 60000 1).
  - split; [right; reflexivity | constructor].
  - reflexivity.
  - vm_compute. discriminate.
  - reflexivity.
  - reflexivity.
  - vm_compute. reflexivity.
  - vm_compute. discriminate.
Defined.

Lemma redis_command_ready {X : Type} (r : Redis)
    (cmd : gmap string Entry -> X * gmap string Entry) :
  redisClient r = Some Ready ->
  redis_command r cmd =
  match faults r with
  | Fails :: fs => (Throw RedisError, mkRedis (Some Ready) (counters r) fs)
  | Stalls :: fs => (Pending, mkRedis (Some Ready) (counters r) fs)
  | Fine :: fs =>
      (Ok (cmd (counters r)).1, mkRedis (Some Ready) (cmd (counters r)).2 fs)
  | [] => (Ok (cmd (counters r)).1, mkRedis (Some Ready) (cmd (counters r)).2 [])
  end.
Proof.
  intros Hc. unfold redis_command, next_fault. rewrite Hc.
  destruct (faults r) as [|[| |] fs]; simpl; try reflexivity;
    destruct (cmd (counters r)); reflexivity.
Qed.

(** X2 - what the [catch] of [checkRateLimit] guarantees.  Once the client
    is connected, whatever the store does next: the check never raises; it
    is left unanswered only if the store leaves a command unanswered; and
    when it denies, no command was rejected - the denial is the verdict of
    the counts and the counters are those of a fully served check. *)
Theorem denial_only_from_a_served_check (options : RateLimitOptions) (w : World) :
  redisClient (redis w) = Some Ready ->
  let res := run (checkRateLimit options) w in
  (forall e, res.1 <> Throw e) /\
  (res.1 = Pending -> In Stalls (faults (redis w))) /\
  (forall r, res.1 = Ok r -> allowed r = false ->
     r = check_result (now w) options (counters (redis w)) /\
     counters (redis res.2)
       = check_counters (now w) options (counters (redis w))).
Proof.
  intros Hc res. subst res.
  split; [apply checkRateLimit_catches_commands; rewrite Hc; discriminate|].
  unfold checkRateLimit, getRedisClient, await, perform. cbv zeta.
  cbn [bind run handle]. rewrite Hc.
  rewrite bool_decide_true by discriminate.
  cbn [negb bind ret try_catch run handle lift_redis].
  rewrite (redis_command_ready _ _ Hc).
  unfold check_result, check_counters.
  set (key := rate_limit_key (identifier options)).
  set (inc := redis_incr (now w) key (counters (redis w))).
  destruct (faults (redis w)) as [|f1 fs1];
    [|destruct f1]; cbn [fst snd bind try_catch run ret with_redis redis now];
    try (split; [discriminate | intros r [= <-]; discriminate]);
    try (split; [intros _; left; reflexivity | discriminate]).
  - (* no fault listed *)
    destruct (inc.1 =? 1); cbn [bind try_catch run handle lift_redis];
      rewrite ?redis_command_ready by reflexivity;
      cbn [faults fst snd bind try_catch run ret with_redis redis now counters];
      destruct (maxRequests options <? inc.1);
      cbn [bind try_catch run handle lift_redis];
      rewrite ?redis_command_ready by reflexivity;
      cbn [faults fst snd bind try_catch run ret with_redis redis now counters];
      (split; [discriminate|]); intros r [= <-]; try discriminate;
      intros _; split; reflexivity.
  - (* INCR served *)
    destruct (inc.1 =? 1); cbn [bind try_catch run handle lift_redis];
      rewrite ?redis_command_ready by reflexivity;
      cbn [faults fst snd bind try_catch run ret with_redis redis now counters].
    + destruct fs1 as [|[| |] fs2];
        cbn [fst snd bind try_catch run ret with_redis redis now counters];
        try (split; [discriminate | intros r [= <-]; discriminate]);
        try (split; [intros _; right; left; reflexivity | discriminate]);
        destruct (maxRequests options <? inc.1);
        cbn [bind try_catch run handle lift_redis];
        rewrite ?redis_command_ready by reflexivity;
        cbn [faults fst snd bind try_catch run ret with_redis redis now counters];
        try (split; [discriminate | intros r [= <-]; discriminate]);
        try (split; [discriminate | intros r [= <-] _; split; reflexivity]).
      * destruct fs2 as [|[| |] fs3];
          cbn [fst snd bind try_catch run ret with_redis redis now counters];
          try (split; [discriminate | intros r [= <-]; discriminate]);
          try (split; [discriminate | intros r [= <-] _; split; reflexivity]).
        split; [intros _; right; right; left; reflexivity | discriminate].
    + destruct (maxRequests options <? inc.1);
        cbn [bind try_catch run handle lift_redis];
        rewrite ?redis_command_ready by reflexivity;
        cbn [faults fst snd bind try_catch run ret with_redis redis now counters];
        try (split; [discriminate | intros r [= <-]; discriminate]).
      destruct fs1 as [|[| |] fs2];
        cbn [fst snd bind try_catch run ret with_redis redis now counters];
        try (split; [discriminate | intros r [= <-]; discriminate]);
        try (split; [discriminate | intros r [= <-] _; split; reflexivity]).
      split; [intros _; right; left; reflexivity | discriminate].
Qed.

Lemma denial_only_from_a_served_check_witness :
  let options := mkOptions 5 60000 "user:alice" in
  let res := run (checkRateLimit options) denied_user_world in
  res.1 = Ok (mkResult false (Some 60)) /\
  (forall e, res.1 <> Throw e) /\
  (res.1 = Pending -> In Stalls (faults (redis denied_user_world))) /\
  (forall r, res.1 = Ok r -> allowed r = false ->
     r = check_result (now denied_user_world) options
           (counters (redis denied_user_world)) /\
     counters (redis res.2)
       = check_counters (now denied_user_world) options
           (counters (redis denied_user_world))).
Proof.
  split; [vm_compute; reflexivity|].
  apply (denial_only_from_a_served_check (mkOptions 5 60000 "user:alice")
           denied_user_world).
  reflexivity.
Defined.

(** X3 - one counter per identifier.  Whatever the store does, a check for
    one identifier leaves the counter of every other identifier as it was,
    and so does a whole purchase request for every counter but the two of
    its own user and address. *)
Theorem other_counters_untouched (options : RateLimitOptions)
    (req : NextRequest) (w : World) :
  (forall other,
     other <> identifier options ->
     counters (redis (run (checkRateLimit options) w).2)
       !! rate_limit_key other
     = counters (redis w) !! rate_limit_key other) /\
  (forall key,
     key <> rate_limit_key ("user:" +:+ finalUserId req (userId (json req))) ->
     key <> rate_limit_key ("ip:" +:+ client_ip req) ->
     counters (redis (run (POST req) w).2) !! key = counters (redis w) !! key).
Proof.
  split.
  - intros other Hne. apply (keyed_frame (rate_limit_key (identifier options))).
    + apply checkRateLimit_keyed.
    + intros H. apply Hne. apply rate_limit_key_inj. exact H.
  - intros key Hu Hi. rewrite POST_redis.
    unfold rateLimitMiddleware. cbv zeta. rewrite run_bind.
    pose proof (keyed_frame _ key _ w
                  (checkRateLimit_keyed
                     (mkOptions 5 60000
                        ("user:" +:+ finalUserId req (userId (json req)))))
                  Hu) as H1.
    destruct (run (checkRateLimit _) w) as [[ul|e|] w1]; cbn [fst snd] in *;
      try exact H1.
    destruct (negb (allowed ul)); [exact H1|].
    rewrite run_bind.
    pose proof (keyed_frame _ key _ w1
                  (checkRateLimit_keyed
                     (mkOptions 10 60000 ("ip:" +:+ client_ip req))) Hi) as H2.
    destruct (run (checkRateLimit _) w1) as [[il|e|] w2]; cbn [fst snd] in *;
      try (rewrite H2; exact H1).
    destruct (negb (allowed il)); cbn [run ret snd]; rewrite H2; exact H1.
Qed.

(** Alice's request leaves Bob's counter and the counter of another
    address alone. *)
Lemma other_counters_untouched_witness :
  let req := demo_request "alice" None in
  let options := mkOptions 5 60000 "user:alice" in
  counters (redis (run (checkRateLimit options) busy_ip_world).2)
    !! rate_limit_key "user:bob"
  = counters (redis busy_ip_world) !! rate_limit_key "user:bob" /\
  counters (redis (run (POST req) busy_ip_world).2) !! "rate_limit:ip:10.0.0.9"
  = counters (redis busy_ip_world) !! "rate_limit:ip:10.0.0.9".
Proof.
  intros req options.
  destruct (other_counters_untouched options req busy_ip_world) as [H1 H2].
  split.
  - apply H1. discriminate.
  - apply H2; discriminate.
Defined.

Lemma first_segment_no_comma (s : string) :
  forall a b, first_segment s <> a +:+ String ","%char b.
Proof.
  induction s as [|ch s IH]; intros a b; simpl.
  - destruct a; discriminate.
  - destruct (Ascii.eqb ch ","%char) eqn:E.
    + destruct a; discriminate.
    + destruct a as [|ch' a]; simpl.
      * intros H. injection H as -> _. rewrite Ascii.eqb_refl in E. discriminate.
      * intros H. injection H as _ H. exact (IH _ _ H).
Qed.

Lemma first_segment_prefix (s : string) :
  exists rest, s = first_segment s +:+ rest /\
               (rest = "" \/ exists r, rest = String ","%char r).
Proof.
  induction s as [|ch s (rest & IH & Hrest)]; simpl.
  - exists "". split; [reflexivity | left; reflexivity].
  - destruct (Ascii.eqb ch ","%char) eqn:E.
    + apply Ascii.eqb_eq in E. subst ch.
      exists (String ","%char s). split; [reflexivity | right; eauto].
    + exists rest. split; [|exact Hrest]. rewrite IH at 1. reflexivity.
Qed.

Lemma str_or_nonempty (a : option string) (b : string) :
  b <> "" -> str_or a b <> "".
Proof.
  intros Hb. unfold str_or. destruct a as [s|]; [|exact Hb].
  destruct (String.eqb s "") eqn:E; [exact Hb|].
  intros ->. discriminate.
Qed.

(** X4 - the identifiers of a request.  The user identifier is never
    empty: it is the body's userId if that is a non-empty string, else the
    userId query parameter if that is non-empty, else "anonymous".  The
    address is never empty either: when x-forwarded-for starts with a
    non-empty entry the address is that entry - the header up to its first
    comma, untrimmed - and when the header is absent or starts with an
    empty entry it is x-real-ip if that is non-empty, else "unknown". *)
Theorem request_identifiers (req : NextRequest) (uid : option string) :
  finalUserId req uid <> "" /\
  client_ip req <> "" /\
  (forall u, uid = Some u -> u <> "" -> finalUserId req uid = u) /\
  (uid = None \/ uid = Some "" ->
   (forall q, query_userId req = Some q -> q <> "" ->
      finalUserId req uid = q) /\
   (query_userId req = None \/ query_userId req = Some "" ->
      finalUserId req uid = "anonymous")) /\
  (forall header,
     x_forwarded_for req = Some header ->
     first_segment header <> "" ->
     client_ip req = first_segment header /\
     (exists rest, header = client_ip req +:+ rest /\
                   (rest = "" \/ exists r, rest = String ","%char r)) /\
     (forall a b, client_ip req <> a +:+ String ","%char b)) /\
  (x_forwarded_for req = None \/
   (exists header, x_forwarded_for req = Some header /\
                   first_segment header = "") ->
   (forall r, x_real_ip req = Some r -> r <> "" -> client_ip req = r) /\
   (x_real_ip req = None \/ x_real_ip req = Some "" ->
      client_ip req = "unknown")).
Proof.
  assert (Hor : forall (a : option string) b,
             a = None \/ a = Some "" -> str_or a b = b).
  { intros a b [->| ->]; reflexivity. }
  assert (Hsome : forall (x : string) b, x <> "" -> str_or (Some x) b = x).
  { intros x b Hx. unfold str_or. destruct (String.eqb x "") eqn:E;
      [apply String.eqb_eq in E; contradiction | reflexivity]. }
  split; [apply str_or_nonempty, str_or_nonempty; discriminate|].
  split; [apply str_or_nonempty, str_or_nonempty; discriminate|].
  split; [intros u -> Hu; apply Hsome, Hu|].
  split.
  { intros Huid. unfold finalUserId. rewrite (Hor uid _ Huid). split.
    - intros q -> Hq. apply Hsome, Hq.
    - intros Hq. apply Hor, Hq. }
  split.
  - intros header Hh Hne. unfold client_ip. rewrite Hh.
    cbn [fmap option_fmap option_map]. rewrite (Hsome _ _ Hne).
    split; [reflexivity|].
    split; [apply first_segment_prefix | apply first_segment_no_comma].
  - intros Hx.
    assert (Hip : client_ip req = str_or (x_real_ip req) "unknown").
    { unfold client_ip. destruct Hx as [->|(header & -> & He)].
      - reflexivity.
      - cbn [fmap option_fmap option_map]. rewrite He. reflexivity. }
    rewrite Hip. split.
    + intros r -> Hr. apply Hsome, Hr.
    + intros Hr. apply Hor, Hr.
Qed.

(** A request through two proxies, without a userId in its body. *)
Lemma request_identifiers_witness :
  let req := mkRequest (mkBody (Some 1) None None) (Some "carol")
               (Some "10.0.0.7, 10.0.0.1") (Some "192.168.0.1") in
  let direct := mkRequest (mkBody (Some 1) None None) None None
                  (Some "192.168.0.1") in
  finalUserId req None = "carol" /\
  finalUserId req (Some "alice") = "alice" /\
  finalUserId direct None = "anonymous" /\
  client_ip req = first_segment "10.0.0.7, 10.0.0.1" /\
  client_ip direct = "192.168.0.1".
Proof.
  intros req direct.
  destruct (request_identifiers req None) as (_ & _ & _ & H4 & H5 & _).
  destruct (request_identifiers req (Some "alice")) as (_ & _ & H3 & _).
  destruct (request_identifiers direct None) as (_ & _ & _ & H4' & _ & H6').
  split; [apply (proj1 (H4 (or_introl eq_refl)) "carol");
          [reflexivity | discriminate]|].
  split; [apply H3; [reflexivity | discriminate]|].
  split; [apply (proj2 (H4' (or_introl eq_refl))); left; reflexivity|].
  split; [apply (H5 "10.0.0.7, 10.0.0.1"); [reflexivity | discriminate]|].
  apply (proj1 (H6' (or_introl eq_refl)) "192.168.0.1");
    [reflexivity | discriminate].
Defined.

(* ===================================================================== *)
(** ** The life of the Redis client *)
(* ===================================================================== *)

(** On a client that is set but closed every check is "allowed" and
    nothing moves: no reconnect, no counter touched. *)
Lemma check_on_closed_client (options : RateLimitOptions) (w : World) :
  redisClient (redis w) = Some Closed ->
  run (checkRateLimit options) w = (Ok allowed_result, w).
Proof.
  intros Hc. destruct w as [n r d]. simpl in Hc.
  unfold checkRateLimit, getRedisClient, await, perform. simpl.
  rewrite Hc. simpl. unfold redis_command. simpl. rewrite Hc. reflexivity.
Qed.

Lemma checks_on_closed_client (options : RateLimitOptions) (ts : list Z) :
  forall w,
    redisClient (redis w) = Some Closed ->
    (checks_at options ts w).1 = replicate (length ts) (Ok allowed_result) /\
    redis (checks_at options ts w).2 = redis w.
Proof.
  induction ts as [|t ts IH]; intros w Hc; cbn [checks_at]; [auto|].
  rewrite (check_on_closed_client options (at_time t w)) by exact Hc.
  cbn [fst snd]. destruct (IH (at_time t w) Hc) as [-> ->]. auto.
Qed.

(** X5 - a rejected [connect()] switches the limiter off.  [getRedisClient]
    stores the client before it awaits [connect()], so after one rejected
    connect the variable holds a client that was never opened: no later
    call connects again, every later check - any identifier, any limit,
    any time - answers "allowed", and no counter is written. *)
Theorem rejected_connect_disables_the_limiter (options : RateLimitOptions)
    (w : World) (fs : list Fault) :
  redisClient (redis w) = None ->
  faults (redis w) = Fails :: fs ->
  let first := run (checkRateLimit options) w in
  first.1 = Throw RedisError /\
  redis first.2 = mkRedis (Some Closed) (counters (redis w)) fs /\
  forall options' ts,
    (checks_at options' ts first.2).1
      = replicate (length ts) (Ok allowed_result) /\
    redis (checks_at options' ts first.2).2 = redis first.2.
Proof.
  intros Hc Hf first.
  assert (Hfirst : first = (Throw RedisError,
                            with_redis w (mkRedis (Some Closed)
                                            (counters (redis w)) fs))).
  { subst first. unfold checkRateLimit, getRedisClient, await, perform. simpl.
    rewrite Hc. simpl. unfold redis_connect, next_fault. simpl. rewrite Hf.
    reflexivity. }
  rewrite Hfirst. cbn [fst snd redis with_redis].
  split; [reflexivity|]. split; [reflexivity|].
  intros options' ts. apply checks_on_closed_client. reflexivity.
Qed.

Lemma rejected_connect_disables_the_limiter_witness :
  let first := run (checkRateLimit (mkOptions 0 60000 "user:alice"))
                 (redis_down Fails) in
  first.1 = Throw RedisError /\
  redis first.2 = mkRedis (Some Closed) (counters (redis (redis_down Fails))) [] /\
  forall options' ts,
    (checks_at options' ts first.2).1
      = replicate (length ts) (Ok allowed_result) /\
    redis (checks_at options' ts first.2).2 = redis first.2.
Proof.
  apply (rejected_connect_disables_the_limiter
           (mkOptions 0 60000 "user:alice") (redis_down Fails) []);
    reflexivity.
Defined.

(** X6 - restarting the client does not reset the limits.  On a connected
    client [closeRedisClient] succeeds and clears the module variable; the
    counters stay in the store, so the next check reconnects and answers
    exactly as it would have without the restart, leaving the same
    counters.  With no client to close, [closeRedisClient] does nothing. *)
Theorem restart_keeps_the_limits (w : World) :
  (redisClient (redis w) = None -> closeRedisClient w = (Ok tt, w)) /\
  (connected (redis w) ->
   let closed := closeRedisClient w in
   closed.1 = Ok tt /\
   redisClient (redis closed.2) = None /\
   counters (redis closed.2) = counters (redis w) /\
   forall options t,
     let restarted := run (checkRateLimit options) (at_time t closed.2) in
     let straight := run (checkRateLimit options) (at_time t w) in
     restarted.1 = straight.1 /\
     redisClient (redis restarted.2) = Some Ready /\
     counters (redis restarted.2) = counters (redis straight.2)).
Proof.
  split.
  - intros Hc. unfold closeRedisClient. rewrite Hc. reflexivity.
  - intros [Hc Hf] closed.
    destruct (next_fault_fine (redis w) Hf) as [Hnf Hf'].
    assert (Hclosed : closed = (Ok tt, with_redis w (mkRedis None (counters (redis w))
                                                 (tail (faults (redis w)))))).
    { subst closed. unfold closeRedisClient, redis_quit. rewrite Hc, Hnf.
      reflexivity. }
    rewrite Hclosed. cbn [fst snd redis with_redis redisClient counters].
    split; [reflexivity|]. split; [reflexivity|]. split; [reflexivity|].
    intros options t.
    assert (H1 : healthy (redis (at_time t
                   (with_redis w (mkRedis None (counters (redis w))
                                    (tail (faults (redis w)))))))).
    { split; [left; reflexivity | exact Hf']. }
    assert (H2 : healthy (redis (at_time t w))).
    { split; [right; exact Hc | exact Hf]. }
    destruct (checkRateLimit_healthy options _ H1) as (r1 & E1 & [Hr1 _] & Hc1).
    destruct (checkRateLimit_healthy options _ H2) as (r2 & E2 & _ & Hc2).
    cbv zeta. rewrite E1, E2.
    cbn [fst snd redis with_redis now at_time counters] in *.
    split; [reflexivity|]. split; [exact Hr1|]. congruence.
Qed.

Lemma restart_keeps_the_limits_witness :
  let w := denied_user_world in
  let closed := closeRedisClient w in
  closed.1 = Ok tt /\
  redisClient (redis closed.2) = None /\
  counters (redis closed.2) = counters (redis w) /\
  forall options t,
    let restarted := run (checkRateLimit options) (at_time t closed.2) in
    let straight := run (checkRateLimit options) (at_time t w) in
    restarted.1 = straight.1 /\
    redisClient (redis restarted.2) = Some Ready /\
    counters (redis restarted.2) = counters (redis straight.2).
Proof.
  apply (restart_keeps_the_limits denied_user_world).
  split; [reflexivity | constructor].
Defined.

(** X7 - a rejected [quit()].  [closeRedisClient] resets the module
    variable only after [quit()] has returned: when [quit()] is rejected
    the variable keeps the client, now closed, [getRedisClient] goes on
    handing it out without connecting, and every later check answers
    "allowed" without writing a counter. *)
Theorem rejected_quit_keeps_the_dead_client (w : World) (fs : list Fault) :
  redisClient (redis w) = Some Ready ->
  faults (redis w) = Fails :: fs ->
  let closed := closeRedisClient w in
  closed.1 = Throw RedisError /\
  redis closed.2 = mkRedis (Some Closed) (counters (redis w)) fs /\
  run getRedisClient closed.2 = (Ok tt, closed.2) /\
  forall options ts,
    (checks_at options ts closed.2).1
      = replicate (length ts) (Ok allowed_result) /\
    redis (checks_at options ts closed.2).2 = redis closed.2.
Proof.
  intros Hc Hf closed.
  assert (Hclosed : closed = (Throw RedisError,
                              with_redis w (mkRedis (Some Closed)
                                              (counters (redis w)) fs))).
  { subst closed. unfold closeRedisClient, redis_quit, next_fault.
    rewrite Hc, Hf. reflexivity. }
  rewrite Hclosed. cbn [fst snd redis with_redis].
  split; [reflexivity|]. split; [reflexivity|]. split.
  - reflexivity.
  - intros options ts. apply checks_on_closed_client. reflexivity.
Qed.

Lemma rejected_quit_keeps_the_dead_client_witness :
  let closed := closeRedisClient quit_rejected_world in
  closed.1 = Throw RedisError /\
  redis closed.2
    = mkRedis (Some Closed) (counters (redis quit_rejected_world)) [] /\
  run getRedisClient closed.2 = (Ok tt, closed.2) /\
  forall options ts,
    (checks_at options ts closed.2).1
      = replicate (length ts) (Ok allowed_result) /\
    redis (checks_at options ts closed.2).2 = redis closed.2.
Proof.
  apply (rejected_quit_keeps_the_dead_client quit_rejected_world []);
    reflexivity.
Defined.

(* ===================================================================== *)
(** ** The pool *)
(* ===================================================================== *)

Lemma getPool_available (s : Process) :
  pool_available s ->
  exists p, getPool s = (Returned p, mkProcess (DATABASE_URL s) (Some p) (world s)).
Proof.
  intros [Hp|(url & Hu & Hne)]; unfold getPool.
  - destruct s as [u [p|] w]; simpl in *; [eauto | contradiction].
  - destruct (pool s) as [p|] eqn:Ep.
    + exists p. destruct s; simpl in *. subst. reflexivity.
    + rewrite Hu. destruct (String.eqb url "") eqn:E.
      * apply String.eqb_eq in E. contradiction.
      * eauto.
Qed.

(** X8 - one pool per process.  [getPool] raises exactly when no pool
    exists yet and DATABASE_URL is unset or empty, and then creates
    nothing, so a later call with the variable set succeeds.  When it
    returns, the pool is stored; every later call returns that same pool
    without looking at DATABASE_URL again; a pool it creates has the 20
    connections of [pool_max] and the connection string of the
    variable.  The two stores are never touched. *)
Theorem getPool_creates_one_pool (s : Process) :
  match getPool s with
  | (Returned p, s') =>
      pool_available s /\
      pool s' = Some p /\ DATABASE_URL s' = DATABASE_URL s /\
      world s' = world s /\
      (pool s = None ->
       DATABASE_URL s = Some (connectionString p) /\ max p = pool_max) /\
      (forall url',
         getPool (mkProcess url' (pool s') (world s'))
         = (Returned p, mkProcess url' (pool s') (world s')))
  | (Raised _, s') =>
      ~ pool_available s /\ s' = s /\
      (forall url, url <> "" ->
         exists p,
           (getPool (mkProcess (Some url) (pool s') (world s'))).1 = Returned p /\
           connectionString p = url)
  end.
Proof.
  unfold getPool. destruct s as [u [p|] w]; cbn [pool DATABASE_URL world].
  - split; [left; discriminate|]. repeat split; try reflexivity; discriminate.
  - destruct u as [url|].
    + destruct (String.eqb url "") eqn:E.
      * apply String.eqb_eq in E. subst url.
        split; [|split; [reflexivity|]].
        -- intros [H|(url & [= <-] & Hne)]; [apply H; reflexivity | apply Hne; reflexivity].
        -- intros url Hne. destruct (String.eqb url "") eqn:E'.
           ++ apply String.eqb_eq in E'. contradiction.
           ++ eexists. split; reflexivity.
      * split; [right; exists url; split; [reflexivity|]; intros ->; discriminate|].
        repeat split; reflexivity.
    + split; [|split; [reflexivity|]].
      * intros [H|(url & [=] & _)]. apply H. reflexivity.
      * intros url Hne. destruct (String.eqb url "") eqn:E'.
        -- apply String.eqb_eq in E'. contradiction.
        -- eexists. split; reflexivity.
Qed.

(** The first call of a process with DATABASE_URL set. *)
Lemma getPool_creates_one_pool_witness :
  exists p s',
    getPool (fresh_process demo_world) = (Returned p, s') /\
    pool s' = Some p /\ max p = pool_max /\
    getPool (mkProcess None (pool s') (world s'))
    = (Returned p, mkProcess None (pool s') (world s')).
Proof.
  pose proof (getPool_creates_one_pool (fresh_process demo_world)) as H.
  destruct (getPool (fresh_process demo_world)) as [[p|m] s'] eqn:E.
  - destruct H as (_ & Hp & _ & _ & Hnew & Hagain).
    exists p, s'. split; [reflexivity|]. split; [exact Hp|].
    split; [exact (proj2 (Hnew eq_refl)) | apply Hagain].
  - exfalso. destruct H as [H _]. apply H. right.
    eexists. split; [reflexivity | discriminate].
Defined.

(* ===================================================================== *)
(** ** The stock route and its display *)
(* ===================================================================== *)



Lemma GET_stock_idle (int4in : string -> option Z) (c : nat) (id : string)
    (s : Process) :
  pool_available s ->
  conn_of c (db (world s)) = idle ->
  (GET_stock int4in c id s).1 =
  match int4in id with
  | None => stock_internal_error
  | Some pid =>
      match products (db (world s)) !! pid with
      | None => stock_not_found
      | Some p => stock_answer (p_stock p)
      end
  end.
Proof.
  intros Ha Hidle. unfold GET_stock.
  destruct (getPool_available s Ha) as [p ->].
  cbn [world]. unfold select_stock, visible_stock. rewrite Hidle.
  cbn [inTx failed idle andb].
  destruct (int4in id) as [pid|]; [|reflexivity].
  destruct (products (db (world s)) !! pid) as [pr|]; [|reflexivity].
  cbn [txStock idle]. rewrite lookup_empty. reflexivity.
Qed.



(** X10 - purchase, then stock.  On a store where nothing else is in
    flight, the stock route asked right after a purchase request answers
    the [remainingStock] of that purchase for the product bought; for any
    other product, and after any request that was not a purchase (400,
    404, 429, 500, out of stock), it answers what it would have answered
    before the request. *)
Theorem stock_route_after_purchase (int4in : string -> option Z)
    (id : string) (req : NextRequest) (url : option string)
    (pl : option PoolOptions) (w : World) :
  quiet (db w) ->
  pool_available (mkProcess url pl w) ->
  let post := run (POST req) w in
  let before := (GET_stock int4in 0 id (mkProcess url pl w)).1 in
  let after := (GET_stock int4in 0 id (mkProcess url pl post.2)).1 in
  match post.1 with
  | Ok {| body := Purchased _ _ info |} =>
      if bool_decide (int4in id = Some (i_productId info))
      then after = stock_answer (i_remainingStock info)
      else after = before
  | _ => after = before
  end.
Proof.
  intros Hq Ha post before after. subst post before after.
  destruct (POST_outcome req w Hq) as [[_ Hidle'] H].
  destruct Hq as [_ Hidle].
  assert (Ha' : pool_available (mkProcess url pl (run (POST req) w).2))
    by exact Ha.
  rewrite (GET_stock_idle int4in 0 id _ Ha Hidle).
  rewrite (GET_stock_idle int4in 0 id _ Ha' Hidle').
  cbn [world].
  destruct H as [(pid & uid & p & _ & Hp & _ & Hres & _ & Hps)|(Hnot & Hps & _)].
  - rewrite Hres. cbn [purchased json_response body i_productId i_remainingStock].
    rewrite Hps. case_bool_decide as Hid.
    + rewrite Hid, lookup_insert_eq. reflexivity.
    + destruct (int4in id) as [pid'|]; [|reflexivity].
      rewrite lookup_insert_ne by congruence. reflexivity.
  - rewrite Hps.
    destruct ((run (POST req) w).1) as [[[s0 m|s0 m info] st hs]|e|];
      try reflexivity.
    discriminate Hnot.
Qed.

Lemma stock_route_after_purchase_witness :
  let req := demo_request "alice" (Some 2) in
  let post := run (POST req) demo_world in
  let before := (GET_stock small_ids 0 "1" (fresh_process demo_world)).1 in
  let after := (GET_stock small_ids 0 "1" (fresh_process post.2)).1 in
  before = stock_answer 5 /\ after = stock_answer 3 /\
  match post.1 with
  | Ok {| body := Purchased _ _ info |} =>
      if bool_decide (small_ids "1" = Some (i_productId info))
      then after = stock_answer (i_remainingStock info)
      else after = before
  | _ => after = before
  end.
Proof.
  split; [vm_compute; reflexivity|]. split; [vm_compute; reflexivity|].
  apply (stock_route_after_purchase small_ids "1"
           (demo_request "alice" (Some 2))
           (Some "postgres://localhost/shop") None demo_world).
  - exact demo_world_quiet.
  - right. eexists. split; [reflexivity | discriminate].
Defined.

(** X11 - the stock route never reports a negative stock.  Start from a
    store where nothing is in flight and product [pid] has stock
    [S >= 0]; serve any purchase requests with positive quantities one at
    a time.  The stock route then answers 200 with a stock that is not
    negative, namely [S] minus the units of [pid] sold since. *)
Theorem stock_route_never_negative (int4in : string -> option Z)
    (id : string) (pid S : Z) (p0 : Product) (reqs : list (Z * NextRequest))
    (url : option string) (pl : option PoolOptions) (w0 : World) :
  quiet (db w0) ->
  products (db w0) !! pid = Some p0 ->
  p_stock p0 = S ->
  0 <= S ->
  Forall (fun tr => 0 < default 1 (quantity (json tr.2))) reqs ->
  int4in id = Some pid ->
  let w := (serve reqs w0).2 in
  pool_available (mkProcess url pl w) ->
  exists stock,
    (GET_stock int4in 0 id (mkProcess url pl w)).1 = stock_answer stock /\
    0 <= stock /\
    stock = S - (sold pid (orders (db w)) - sold pid (orders (db w0))).
Proof.
  intros Hq Hp HS Hge Hall Hid w Ha.
  assert (Hb0 : balanced pid (S + sold pid (orders (db w0))) (db w0)).
  { exists p0. rewrite HS. auto. }
  destruct (serve_balanced pid _ reqs w0 Hq Hb0 Hall)
    as [[_ Hidle] (p & Hpw & Hgew & Hsum)].
  fold w in Hidle, Hpw, Hsum.
  exists (p_stock p).
  rewrite (GET_stock_idle int4in 0 id _ Ha Hidle). cbn [world].
  rewrite Hid, Hpw. split; [reflexivity|]. split; [exact Hgew | lia].
Qed.

(** One instant of the shop window: three laptops left. *)
Lemma stock_route_never_negative_witness :
  let w := (serve three_buyers demo_world).2 in
  exists stock,
    (GET_stock small_ids 0 "1" (fresh_process w)).1 = stock_answer stock /\
    0 <= stock /\
    stock = 5 - (sold 1 (orders (db w)) - sold 1 (orders (db demo_world))).
Proof.
  apply (stock_route_never_negative small_ids "1" 1 5
           (mkProduct "Laptop Pro 15" 5 129999) three_buyers
           (Some "postgres://localhost/shop") None demo_world).
  - exact demo_world_quiet.
  - reflexivity.
  - reflexivity.
  - lia.
  - repeat constructor.
  - reflexivity.
  - right. eexists. split; [reflexivity | discriminate].
Defined.

(** X12 - what the stock display shows after a poll.  It is never
    "Loading stock..." again.  When the request reaches the route and the
    product exists it shows the committed stock, with the "Out of Stock"
    badge exactly at 0.  When the fetch fails or the route answers 404 or
    500 the display keeps the count it had, with no sign that it is
    stale; a display that had none shows "N/A". *)
Theorem display_after_a_poll (int4in : string -> option Z) (network : bool)
    (c : nat) (productId : string) (ui : StockDisplayState) (s : Process) :
  pool_available s ->
  conn_of c (db (world s)) = idle ->
  let ui' := (fetchStock int4in network c productId ui s).1 in
  sd_loading ui' = false /\
  StockDisplay_render ui' <> LoadingStock /\
  match (if network
         then int4in productId ≫= fun pid => products (db (world s)) !! pid
         else None) with
  | Some p =>
      StockDisplay_render ui' = StockShown (pretty (p_stock p)) (p_stock p =? 0)
  | None =>
      sd_stock ui' = sd_stock ui /\
      (sd_stock ui = None -> StockDisplay_render ui' = StockShown "N/A" false)
  end.
Proof.
  intros Ha Hidle ui'. subst ui'. unfold fetchStock.
  destruct network.
  - pose proof (GET_stock_idle int4in c productId s Ha Hidle) as H.
    destruct (GET_stock int4in c productId s) as [response s'].
    cbn [fst] in *. subst response.
    destruct (int4in productId) as [pid|]; cbn [mbind option_bind].
    + destruct (products (db (world s)) !! pid) as [p|].
      * cbn. repeat split; discriminate.
      * cbn. unfold StockDisplay_render. cbn.
        repeat split; [destruct (sd_stock ui); discriminate|].
        intros ->. reflexivity.
    + cbn. unfold StockDisplay_render. cbn.
      repeat split; [destruct (sd_stock ui); discriminate|].
      intros ->. reflexivity.
  - cbn. unfold StockDisplay_render. cbn.
    repeat split; [destruct (sd_stock ui); discriminate|].
    intros ->. reflexivity.
Qed.

(** The last laptop has been sold; a display that showed 3 polls twice,
    the second time with the network down. *)
Lemma display_after_a_poll_witness :
  let d := mkDb {[ 1 := mkProduct "Laptop Pro 15" 0 129999 ]} [] 1 ∅ ∅ in
  let s := fresh_process (mkWorld 0 (mkRedis None ∅ []) d) in
  let ui := mkStockDisplay (Some 3) false in
  StockDisplay_render (fetchStock small_ids true 0 "1" ui s).1
    = StockShown "0" true /\
  StockDisplay_render (fetchStock small_ids false 0 "1" ui s).1
    = StockShown "3" false.
Proof.
  intros d s ui.
  assert (Ha : pool_available s)
    by (right; eexists; split; [reflexivity | discriminate]).
  split.
  - exact (proj2 (proj2 (display_after_a_poll small_ids true 0 "1" ui s Ha eq_refl))).
  - destruct (display_after_a_poll small_ids false 0 "1" ui s Ha eq_refl)
      as (_ & _ & Hs & _).
    unfold StockDisplay_render. rewrite Hs. reflexivity.
Defined.

(* ===================================================================== *)
(** ** What the purchase handler can answer *)
(* ===================================================================== *)

Lemma returns_all {A : Type} (P : Outcome A -> Prop) (p : Prog A) :
  (forall o, P o) -> returns P p.
Proof. intros H. induction p as [r|X e k IH]; simpl; auto. Qed.

Lemma returns_mono {A : Type} (P Q : Outcome A -> Prop) (p : Prog A) :
  (forall o, P o -> Q o) -> returns P p -> returns Q p.
Proof. intros H. induction p as [r|X e k IH]; simpl; auto. Qed.

Lemma returns_bind {A B : Type} (P : Outcome B -> Prop) (p : Prog A)
    (f : A -> Prog B) :
  returns (fun o => match o with
                    | Ok a => returns P (f a)
                    | Throw e => P (Throw e)
                    | Pending => P Pending
                    end) p ->
  returns P (bind p f).
Proof.
  induction p as [[a|e|]|X e k IH]; simpl; auto.
Qed.

Lemma returns_try_catch {A : Type} (P : Outcome A -> Prop) (p : Prog A)
    (h : Exn -> Prog A) :
  returns (fun o => match o with
                    | Throw e => returns P (h e)
                    | r => P r
                    end) p ->
  returns P (try_catch p h).
Proof.
  induction p as [[a|e|]|X e k IH]; simpl; auto.
Qed.

Lemma returns_run {A : Type} (P : Outcome A -> Prop) (p : Prog A) :
  P Pending -> returns P p -> forall w, P (run p w).1.
Proof.
  intros HP. induction p as [r|X e k IH]; simpl; intros H w; [exact H|].
  destruct (handle 0 e w) as [[x w']|]; [apply IH, H | exact HP].
Qed.

Lemma returns_sched {A : Type} (P : Outcome A -> Prop) (schedule : list (nat * nat)) :
  forall (hs : list (Prog A)) (w : World) hs' w',
    Forall (returns P) hs ->
    sched schedule hs w = Some (hs', w') ->
    Forall (returns P) hs'.
Proof.
  induction schedule as [|[i c] rest IH]; simpl; intros hs w hs' w' Hall Hs.
  - injection Hs as <- <-. exact Hall.
  - destruct (hs !! i) as [p|] eqn:Hp; [|discriminate].
    destruct (step c p w) as [[p' w1]|] eqn:Hst; [|discriminate].
    apply (IH (<[i := p']> hs) w1 hs' w'); [|exact Hs].
    apply Forall_insert; [exact Hall|].
    pose proof (Forall_lookup_1 _ _ _ _ Hall Hp) as Hr.
    unfold step in Hst. destruct p as [r|X e k]; [discriminate|].
    destruct (c <? pool_max)%nat; [|discriminate].
    destruct (handle c e w) as [[x w2]|]; [|discriminate].
    injection Hst as <- <-. apply Hr.
Qed.

Lemma rateLimitMiddleware_returns req maxReq window uid :
  returns (fun o => match o with
                    | Ok (Some r) =>
                        exists retry limit msg, r = rate_limited msg retry limit
                    | _ => True
                    end)
          (rateLimitMiddleware req maxReq window uid).
Proof.
  unfold rateLimitMiddleware. cbv zeta. apply returns_bind, returns_all.
  intros [ul|e|]; [|exact I|exact I].
  destruct (allowed ul); cbn [negb].
  - apply returns_bind, returns_all. intros [il|e|]; [|exact I|exact I].
    destruct (allowed il); cbn [negb returns ret]; eauto.
  - cbn [returns ret]. eauto.
Qed.

Lemma purchaseTransaction_returns pid uid q :
  returns (fun o => match o with Ok r => POST_answer r | _ => True end)
          (purchaseTransaction pid uid q).
Proof.
  unfold purchaseTransaction, POST_answer, await, ret, throw.
  repeat (cbn [bind try_catch returns]; intros;
          try match goal with
              | |- context [match ?x with _ => _ end] => destruct x
              end);
    try exact I.
  - do 3 right. left. reflexivity.
  - do 4 right. left. reflexivity.
  - do 5 right. cbn. eauto.
Qed.

Lemma POST_returns (req : NextRequest) : returns answers (POST req).
Proof.
  unfold POST. cbv zeta. apply returns_try_catch, returns_bind.
  eapply returns_mono; [|apply rateLimitMiddleware_returns].
  intros [[r|]|e|]; cbn [returns ret answers]; intros H.
  - left. exact H.
  - destruct (present_fields (json req)) as [[pid uid]|].
    + eapply returns_mono; [|apply purchaseTransaction_returns].
      intros [r|e|]; cbn [returns ret answers]; auto.
      intros _. do 2 right. left. reflexivity.
    + cbn [returns ret answers]. right. left. reflexivity.
  - do 2 right. left. reflexivity.
  - exact I.
Qed.

(** X13 - the purchase handler never raises.  Whatever the two stores
    answer to each of its calls (a value, a rejection, or nothing at all),
    what [POST] returns, if it returns, is one of six answers: the
    limiter's 429, 400 "Missing productId or userId", 500 "Internal server
    error", 404 "Product not found", 200 "Out of stock" with success
    false, or 200 "Purchase successful" with the order; an error is never
    passed on to the framework.  In particular that holds of a request
    served on its own in any state of the stores, and of every handler
    that finishes when the statements of overlapping requests are
    interleaved over the connections of the pool. *)
Theorem POST_always_answers :
  (forall req, returns answers (POST req)) /\
  (forall req w, answers (run (POST req) w).1) /\
  (forall reqs schedule w hs w' i r,
     sched schedule (POST <$> reqs) w = Some (hs, w') ->
     hs !! i = Some (Ret r) ->
     answers r).
Proof.
  split; [exact POST_returns|]. split.
  - intros req w. apply returns_run; [exact I | apply POST_returns].
  - intros reqs schedule w hs w' i r Hs Hi.
    assert (Hall : Forall (returns answers) (POST <$> reqs)).
    { apply Forall_fmap, Forall_forall. intros req _. apply POST_returns. }
    pose proof (returns_sched answers schedule _ _ _ _ Hall Hs) as Hall'.
    exact (Forall_lookup_1 _ _ _ _ Hall' Hi).
Qed.

(** A rejected INSERT answered 500, and two overlapping purchases of the
    last unit on one connection, the second answered with the sixth
    form. *)
Lemma POST_always_answers_witness :
  status_of (run (POST bulk_request) warehouse_world).1 = Some 500 /\
  answers (run (POST bulk_request) warehouse_world).1 /\
  exists hs w' r,
    sched shared_connection (POST <$> [alice_buys_one; bob_buys_one])
      last_unit_world = Some (hs, w') /\
    hs !! 1%nat = Some (Ret r) /\ answers r.
Proof.
  split; [vm_compute; reflexivity|].
  split; [exact (proj1 (proj2 POST_always_answers) bulk_request warehouse_world)|].
  destruct (sched shared_connection (POST <$> [alice_buys_one; bob_buys_one])
              last_unit_world) as [[hs w']|] eqn:Hs;
    [|vm_compute in Hs; discriminate Hs].
  destruct (hs !! 1%nat) as [[r|X e k]|] eqn:Hi.
  - exists hs, w', r. split; [reflexivity|]. split; [exact Hi|].
    exact (proj2 (proj2 POST_always_answers) _ _ _ _ _ _ _ Hs Hi).
  - exfalso. vm_compute in Hs. injection Hs as <- <-. discriminate Hi.
  - exfalso. vm_compute in Hs. injection Hs as <- <-. discriminate Hi.
Defined.

(* ===================================================================== *)
(** ** Order ids *)
(* ===================================================================== *)

(** The order a purchase answer reports, as a row of the table. *)
Lemma POST_ids (req : NextRequest) (w : World) :
  quiet (db w) -> ids_fresh (db w) ->
  let res := run (POST req) w in
  quiet (db res.2) /\ ids_fresh (db res.2) /\
  orderSeq (db w) + (if is_purchase res.1 then 1 else 0)
    <= orderSeq (db res.2) <= orderSeq (db w) + 1 /\
  (exists more, orders (db res.2) = orders (db w) ++ more) /\
  (forall r s m info,
     res.1 = Ok r -> body r = Purchased s m info ->
     orderSeq (db w) <= i_id info /\
     exists o price,
       o ∈ orders (db res.2) /\ o_id o = i_id info /\
       o_product_id o = i_productId info /\
       o_quantity o = i_quantity info /\
       o_total_price o = price * i_quantity info /\
       i_totalPrice info = js_times price (i_quantity info)).
Proof.
  intros Hq [Hlt Hnd] res.
  destruct (POST_cases req w Hq) as [Hq' H].
  fold res in Hq', H. split; [exact Hq'|].
  destruct H as [(pid & uid & p & _ & _ & _ & _ & _ & Hres & Hos & _ & Hseq)
                |(Hnot & _ & Hos & Hseq)].
  - rewrite Hres. cbn [is_purchase purchased json_response body].
    split; [|split; [lia|split; [eauto|]]].
    + unfold ids_fresh. rewrite Hos, Hseq. split.
      * apply Forall_app. split.
        -- eapply Forall_impl; [exact Hlt|]. cbn. intros o Ho. lia.
        -- constructor; [|constructor]. cbn. lia.
      * rewrite fmap_app. apply NoDup_app. split; [exact Hnd|]. split.
        -- intros x Hx Hx'. cbn in Hx'. apply list_elem_of_singleton in Hx'.
           subst x. apply list_elem_of_fmap in Hx as (o & Ho & Hin).
           rewrite Forall_forall in Hlt. specialize (Hlt o Hin).
           cbn in Ho. lia.
        -- cbn. apply NoDup_singleton.
    + intros r s m info Hr Hb. injection Hr as <-.
      cbn [purchased json_response body] in Hb. injection Hb as _ _ <-.
      cbn [i_id]. split; [lia|].
      eexists. exists (p_price p).
      split; [rewrite Hos; apply elem_of_app; right;
              apply list_elem_of_singleton; reflexivity|].
      cbn. auto.
  - rewrite Hnot.
    split; [|split; [lia|split; [exists []; rewrite app_nil_r; exact Hos|]]].
    + unfold ids_fresh. rewrite Hos. split; [|exact Hnd].
      eapply Forall_impl; [exact Hlt|]. cbv beta. intros o Ho. lia.
    + intros r s m info Hr Hb. rewrite Hr in Hnot. cbn [is_purchase] in Hnot.
      rewrite Hb in Hnot. discriminate Hnot.
Qed.

Lemma serve_ids (reqs : list (Z * NextRequest)) :
  forall w,
    quiet (db w) -> ids_fresh (db w) ->
    let res := serve reqs w in
    quiet (db res.2) /\ ids_fresh (db res.2) /\
    orderSeq (db w)
      + Z.of_nat (length (filter (fun o => is_purchase o = true) res.1))
      <= orderSeq (db res.2) <= orderSeq (db w) + Z.of_nat (length reqs) /\
    (exists more, orders (db res.2) = orders (db w) ++ more) /\
    (forall r s m info,
       Ok r ∈ res.1 -> body r = Purchased s m info ->
       orderSeq (db w) <= i_id info /\
       exists o price,
         o ∈ orders (db res.2) /\ o_id o = i_id info /\
         o_product_id o = i_productId info /\
         o_quantity o = i_quantity info /\
         o_total_price o = price * i_quantity info /\
         i_totalPrice info = js_times price (i_quantity info)).
Proof.
  induction reqs as [|[t req] reqs IH]; intros w Hq Hf.
  - cbn. split; [exact Hq|]. split; [exact Hf|]. split; [lia|].
    split; [exists []; rewrite app_nil_r; reflexivity|].
    intros r s m info Hin. apply elem_of_nil in Hin. contradiction.
  - cbn [serve fst snd].
    destruct (POST_ids req (at_time t w) Hq Hf)
      as (Hq1 & Hf1 & Hle1 & [m1 Hm1] & H1).
    destruct (IH _ Hq1 Hf1) as (Hq2 & Hf2 & Hle2 & [m2 Hm2] & H2).
    cbn [db at_time] in *.
    split; [exact Hq2|]. split; [exact Hf2|]. split.
    { rewrite filter_cons. cbn [length].
      destruct (is_purchase (run (POST req) (at_time t w)).1) eqn:E.
      - rewrite decide_True by reflexivity. cbn [length]. lia.
      - rewrite decide_False by discriminate. lia. }
    split; [exists (m1 ++ m2); rewrite Hm2, Hm1, app_assoc; reflexivity|].
    intros r s m info Hin Hb. apply elem_of_cons in Hin as [Heq|Hin].
    + destruct (H1 r s m info (eq_sym Heq) Hb)
        as [Hge (o & price & Ho & Hrest)].
      split; [exact Hge|]. exists o, price. split; [|exact Hrest].
      rewrite Hm2. apply elem_of_app. left. exact Ho.
    + destruct (H2 r s m info Hin Hb) as [Hge Hex]. split; [|exact Hex].
      destruct (is_purchase (run (POST req) (at_time t w)).1); lia.
Qed.

(** X14 - order ids.  Start from a store where nothing is in flight and
    the committed orders have distinct ids below the next value of the
    sequence; serve any purchase requests one at a time.  Afterwards the
    ids are still distinct and below the sequence, the orders that were
    there come first and unchanged, and the sequence has advanced by at
    least the number of purchases and at most the number of requests (an
    INSERT the store rejects may use up an id).  Every purchase answer
    names an order id not used before the run, which is the id of a
    committed row with the product and quantity of that answer; the row
    holds the exact product of a price and the quantity as its total, the
    answer the product of the same two as JavaScript computes it. *)
Theorem order_ids_are_fresh (reqs : list (Z * NextRequest)) (w0 : World) :
  quiet (db w0) ->
  ids_fresh (db w0) ->
  let res := serve reqs w0 in
  ids_fresh (db res.2) /\
  (exists more, orders (db res.2) = orders (db w0) ++ more) /\
  orderSeq (db w0)
    + Z.of_nat (length (filter (fun o => is_purchase o = true) res.1))
    <= orderSeq (db res.2) <= orderSeq (db w0) + Z.of_nat (length reqs) /\
  (forall r s m info,
     Ok r ∈ res.1 -> body r = Purchased s m info ->
     orderSeq (db w0) <= i_id info /\
     exists o price,
       o ∈ orders (db res.2) /\ o_id o = i_id info /\
       o_product_id o = i_productId info /\
       o_quantity o = i_quantity info /\
       o_total_price o = price * i_quantity info /\
       i_totalPrice info = js_times price (i_quantity info)).
Proof.
  intros Hq Hf res. subst res.
  destruct (serve_ids reqs w0 Hq Hf) as (_ & Hf' & Hseq & Hmore & Hans).
  auto.
Qed.

(** Three laptops at 1299.99: the row holds 3899.97, the answer the
    double 3899.9700000000003, which is not the double nearest to
    3899.97. *)
Lemma order_ids_are_fresh_witness :
  let res := serve [(0, demo_request "alice" (Some 3))] demo_world in
  (forall r s m info,
     Ok r ∈ res.1 -> body r = Purchased s m info ->
     orderSeq (db demo_world) <= i_id info /\
     exists o price,
       o ∈ orders (db res.2) /\ o_id o = i_id info /\
       o_product_id o = i_productId info /\
       o_quantity o = i_quantity info /\
       o_total_price o = price * i_quantity info /\
       i_totalPrice info = js_times price (i_quantity info)) /\
  o_total_price <$> orders (db res.2) = [389997] /\
  js_times 129999 3 <> parseFloat_decimal 389997.
Proof.
  split; [|split; [vm_compute; reflexivity | vm_compute; discriminate]].
  apply (order_ids_are_fresh [(0, demo_request "alice" (Some 3))] demo_world).
  - exact demo_world_quiet.
  - split; [constructor | constructor].
Defined.

(* ===================================================================== *)
(** ** The purchase button *)
(* ===================================================================== *)



(* ===================================================================== *)
(** ** Overlapping checks of one counter *)
(* ===================================================================== *)

Lemma checkRateLimit_uncounted (options : RateLimitOptions) :
  0 < windowMs options ->
  uncounted (rate_limit_key (identifier options)) (maxRequests options)
    (checkRateLimit options).
Proof.
  intros HW. pose proof (ceil_div_pos _ HW) as Hsec.
  unfold checkRateLimit, getRedisClient, perform, await, ret. cbv zeta.
  cbn [bind try_catch uncounted negb].
  split; [reflexivity|]. intros v.
  destruct (v =? 1) eqn:E1; cbn [bind try_catch counted].
  - split; [reflexivity|]. split; [exact Hsec|]. intros b.
    cbn [bind try_catch counted].
    destruct (maxRequests options <? v) eqn:E2; cbn [bind try_catch counted].
    + split; [reflexivity|]. intros t. cbn [counted allowed].
      split; [discriminate | lia].
    + cbn [allowed]. split; [lia | reflexivity].
  - destruct (maxRequests options <? v) eqn:E2; cbn [bind try_catch counted].
    + split; [reflexivity|]. intros t. cbn [counted allowed].
      split; [discriminate | lia].
    + cbn [allowed]. split; [lia | reflexivity].
Qed.

Lemma live_count_incr now key cs :
  (redis_incr now key cs).1 = live_count now cs key + 1 /\
  live_count now (redis_incr now key cs).2 key = live_count now cs key + 1.
Proof.
  unfold redis_incr, live_count.
  destruct (lookup_live now cs key) as [e|] eqn:E; cbn [fst snd default fmap option_fmap option_map].
  - split; [reflexivity|]. rewrite lookup_live_insert.
    pose proof (lookup_live_Some _ _ _ _ E) as Hl. unfold live in *.
    cbn [e_expiry] in *. rewrite Hl. reflexivity.
  - split; [reflexivity|]. rewrite lookup_live_insert. reflexivity.
Qed.

Lemma live_count_expire now key seconds cs :
  0 < seconds ->
  live_count now (redis_expire now key seconds cs).2 key = live_count now cs key.
Proof.
  intros Hs. unfold redis_expire, live_count.
  destruct (lookup_live now cs key) as [e|] eqn:E; cbn [snd]; [|rewrite E; reflexivity].
  destruct (seconds <=? 0) eqn:E0; [lia|].
  rewrite lookup_live_insert. unfold live. cbn [e_expiry].
  destruct (now <? now + seconds * 1000) eqn:E1; [reflexivity | lia].
Qed.

Lemma step_counted key limit v c (p p' : Prog RateLimitResult) (w w' : World) :
  connected (redis w) ->
  counted key limit v p ->
  step c p w = Some (p', w') ->
  connected (redis w') /\ now w' = now w /\ counted key limit v p' /\
  live_count (now w') (counters (redis w')) key
    = live_count (now w) (counters (redis w)) key.
Proof.
  intros Hc Hp Hs. destruct p as [r|X e k]; [discriminate Hs|].
  unfold step in Hs. destruct (c <? pool_max)%nat; [|discriminate Hs].
  destruct e; cbn [counted] in Hp; try contradiction.
  - destruct Hp as (-> & Hsec & Hk). cbn [handle lift_redis] in Hs.
    destruct (redis_command_connected (redis w)
                (redis_expire (now w) key seconds) Hc) as [Hcmd Hc'].
    rewrite Hcmd in Hs. cbn [fst snd] in Hs. injection Hs as <- <-.
    cbn [redis with_redis now counters].
    split; [exact Hc'|]. split; [reflexivity|]. split; [apply Hk|].
    apply live_count_expire, Hsec.
  - destruct Hp as (-> & Hk). cbn [handle lift_redis] in Hs.
    destruct (redis_command_connected (redis w)
                (fun cs => (redis_ttl (now w) key cs, cs)) Hc) as [Hcmd Hc'].
    rewrite Hcmd in Hs. cbn [fst snd] in Hs. injection Hs as <- <-.
    cbn [redis with_redis now counters fst snd] in *.
    split; [exact Hc'|]. split; [reflexivity|]. split; [apply Hk|reflexivity].
Qed.

Lemma step_uncounted key limit c (p p' : Prog RateLimitResult) (w w' : World) :
  connected (redis w) ->
  uncounted key limit p ->
  step c p w = Some (p', w') ->
  connected (redis w') /\ now w' = now w /\
  ((uncounted key limit p' /\
    live_count (now w') (counters (redis w')) key
      = live_count (now w) (counters (redis w)) key)
   \/
   (counted key limit (live_count (now w) (counters (redis w)) key + 1) p' /\
    live_count (now w') (counters (redis w')) key
      = live_count (now w) (counters (redis w)) key + 1)).
Proof.
  intros Hc Hp Hs. destruct p as [r|X e k]; [discriminate Hs|].
  unfold step in Hs. destruct (c <? pool_max)%nat; [|discriminate Hs].
  destruct e; cbn [uncounted] in Hp; try contradiction.
  - cbn [handle] in Hs. injection Hs as <- <-.
    destruct Hc as [Hr Hf]. rewrite Hr.
    rewrite bool_decide_true by discriminate.
    split; [split; assumption|]. split; [reflexivity|]. left. auto.
  - destruct Hp as (-> & Hk). cbn [handle lift_redis] in Hs.
    destruct (redis_command_connected (redis w)
                (redis_incr (now w) key) Hc) as [Hcmd Hc'].
    rewrite Hcmd in Hs. cbn [fst snd] in Hs. injection Hs as <- <-.
    cbn [redis with_redis now counters].
    destruct (live_count_incr (now w) key (counters (redis w))) as [H1 H2].
    split; [exact Hc'|]. split; [reflexivity|]. right.
    rewrite H1. split; [apply Hk | exact H2].
Qed.

Lemma omap_insert_count (counts : list (option Z)) (i : nat) (v : Z) :
  counts !! i = Some None ->
  omap id (<[i := Some v]> counts) ≡ₚ v :: omap id counts.
Proof.
  revert i. induction counts as [|a l IH]; intros [|i]; cbn; try discriminate.
  - intros [= ->]. reflexivity.
  - intros H. destruct a as [x|]; cbn.
    + rewrite (IH i H). apply Permutation_swap.
    + apply IH, H.
Qed.

Lemma in_flight_step key limit c0 i c hs (p p' : Prog RateLimitResult) w w' :
  in_flight key limit c0 hs w ->
  hs !! i = Some p ->
  step c p w = Some (p', w') ->
  in_flight key limit c0 (<[i := p']> hs) w'.
Proof.
  intros (Hc & counts & HF & Hnd & Hb & Hlen) Hi Hs.
  destruct (Forall2_lookup_l _ _ _ _ _ HF Hi) as (ph & Hph & Hst).
  destruct ph as [v|]; cbn [stands] in Hst.
  - destruct (step_counted _ _ _ _ _ _ _ _ Hc Hst Hs) as (Hc' & Hnow & Hp' & Hlc).
    split; [exact Hc'|]. exists counts. rewrite Hlc.
    pose proof (Forall2_insert _ _ _ _ _ i HF (Hp' : stands key limit p' (Some v)))
      as HF'.
    rewrite (list_insert_id _ _ _ Hph) in HF'. auto.
  - destruct (step_uncounted _ _ _ _ _ _ _ Hc Hst Hs)
      as (Hc' & Hnow & [[Hp' Hlc]|[Hp' Hlc]]).
    + split; [exact Hc'|]. exists counts. rewrite Hlc.
      pose proof (Forall2_insert _ _ _ _ _ i HF (Hp' : stands key limit p' None))
        as HF'.
      rewrite (list_insert_id _ _ _ Hph) in HF'. auto.
    + split; [exact Hc'|].
      set (v := live_count (now w) (counters (redis w)) key + 1) in *.
      exists (<[i := Some v]> counts). rewrite Hlc.
      pose proof (omap_insert_count counts i v Hph) as Hperm.
      split; [apply Forall2_insert; [exact HF | exact Hp']|].
      rewrite Hperm. split; [|split].
      * apply NoDup_cons. split; [|exact Hnd].
        intros Hin. rewrite Forall_forall in Hb. specialize (Hb v Hin).
        subst v. lia.
      * constructor; [subst v; lia|].
        eapply Forall_impl; [exact Hb|]. cbn. intros x Hx. lia.
      * cbn [length]. lia.
Qed.

Lemma sched_in_flight key limit c0 (schedule : list (nat * nat)) :
  forall hs w hs' w',
    in_flight key limit c0 hs w ->
    sched schedule hs w = Some (hs', w') ->
    in_flight key limit c0 hs' w'.
Proof.
  induction schedule as [|[i c] rest IH]; simpl; intros hs w hs' w' Hin Hs.
  - injection Hs as <- <-. exact Hin.
  - destruct (hs !! i) as [p|] eqn:Hp; [|discriminate].
    destruct (step c p w) as [[p' w1]|] eqn:Hst; [|discriminate].
    apply (IH (<[i := p']> hs) w1 hs' w'); [|exact Hs].
    eapply in_flight_step; eassumption.
Qed.

Lemma sched_length {A : Type} (schedule : list (nat * nat)) :
  forall (hs : list (Prog A)) w hs' w',
    sched schedule hs w = Some (hs', w') -> length hs' = length hs.
Proof.
  induction schedule as [|[i c] rest IH]; simpl; intros hs w hs' w' Hs.
  - injection Hs as <- <-. reflexivity.
  - destruct (hs !! i) as [p|]; [|discriminate].
    destruct (step c p w) as [[p' w1]|]; [|discriminate].
    rewrite (IH _ _ _ _ Hs). apply length_insert.
Qed.

Lemma in_flight_start (options : RateLimitOptions) (n : nat) (w : World) :
  connected (redis w) ->
  0 < windowMs options ->
  in_flight (rate_limit_key (identifier options)) (maxRequests options)
    (live_count (now w) (counters (redis w))
       (rate_limit_key (identifier options)))
    (replicate n (checkRateLimit options)) w.
Proof.
  intros Hc HW. split; [exact Hc|]. exists (replicate n None).
  assert (Hnone : omap id (replicate n (@None Z)) = []).
  { induction n as [|n IH]; [reflexivity | exact IH]. }
  rewrite Hnone. split; [|split; [constructor|split; [constructor|cbn; lia]]].
  clear Hnone. induction n as [|n IH]; cbn [replicate]; constructor; [|exact IH].
  apply checkRateLimit_uncounted, HW.
Qed.

(** Distinct counts in an interval are no more than the interval holds. *)
Lemma NoDup_interval (l : list Z) (a b : Z) :
  NoDup l -> Forall (fun v => a < v <= b) l ->
  Z.of_nat (length l) <= Z.max 0 (b - a).
Proof.
  intros Hnd Hall.
  assert (Hsub : l ⊆+ seqZ (a + 1) (Z.max 0 (b - a))).
  { apply NoDup_submseteq; [exact Hnd|]. intros x Hx.
    rewrite Forall_forall in Hall. specialize (Hall x Hx).
    apply elem_of_seqZ. lia. }
  apply submseteq_length in Hsub. rewrite length_seqZ in Hsub. lia.
Qed.

Lemma NoDup_interval_full (l : list Z) (a : Z) :
  NoDup l -> Forall (fun v => a < v <= a + Z.of_nat (length l)) l ->
  l ≡ₚ seqZ (a + 1) (Z.of_nat (length l)).
Proof.
  intros Hnd Hall. apply submseteq_length_Permutation.
  - apply NoDup_submseteq; [exact Hnd|]. intros x Hx.
    rewrite Forall_forall in Hall. specialize (Hall x Hx).
    apply elem_of_seqZ. lia.
  - rewrite length_seqZ. lia.
Qed.

Lemma filter_le_seqZ (limit : Z) (n : nat) :
  forall a,
    Z.of_nat (length (filter (fun v => v <= limit) (seqZ a (Z.of_nat n))))
    = Z.max 0 (Z.min (Z.of_nat n) (limit - a + 1)).
Proof.
  induction n as [|n IH]; intros a.
  { rewrite seqZ_nil by lia. cbn [filter list_filter length]. lia. }
  rewrite seqZ_cons by lia. rewrite filter_cons.
  replace (Z.pred (Z.of_nat (S n))) with (Z.of_nat n) by lia.
  specialize (IH (Z.succ a)).
  destruct (decide (a <= limit)); cbn [length]; lia.
Qed.

(** The finished checks that answered "allowed" hold counts up to the
    limit. *)
Lemma granted_counts key limit (hs : list (Prog RateLimitResult)) :
  forall counts,
    Forall2 (stands key limit) hs counts ->
    exists vs,
      sublist vs (omap id counts) /\ Forall (fun v => v <= limit) vs /\
      length vs = length (filter (fun p => granted p = true) hs).
Proof.
  induction hs as [|p hs IH]; intros counts HF.
  - exists []. split; [apply sublist_nil_l|]. split; [constructor | reflexivity].
  - inversion HF as [|? ph ? counts' Hst HF']; subst.
    destruct (IH counts' HF') as (vs & Hsub & Hle & Hlen).
    rewrite filter_cons.
    destruct (decide (granted p = true)) as [Hg|Hg].
    + destruct p as [[r| |]|X e k]; try discriminate Hg. cbn [granted] in Hg.
      destruct ph as [v|]; cbn [stands counted uncounted] in Hst; [|contradiction].
      exists (v :: vs).
      change (omap id (Some v :: counts')) with (v :: omap id counts').
      split; [apply sublist_skip, Hsub|].
      split; [constructor; [apply Hst, Hg | exact Hle]|].
      cbn [length]. rewrite Hlen. reflexivity.
    + exists vs. split; [|split; [exact Hle | exact Hlen]].
      destruct ph as [v|]; [apply sublist_cons, Hsub | exact Hsub].
Qed.

Lemma finished_counts key limit (hs : list (Prog RateLimitResult)) :
  forall counts,
    Forall2 (stands key limit) hs counts ->
    Forall (fun p => finished p = true) hs ->
    length (omap id counts) = length hs /\
    length (filter (fun p => granted p = true) hs)
    = length (filter (fun v => v <= limit) (omap id counts)) /\
    Forall (fun p => exists r, p = Ret (Ok r)) hs.
Proof.
  induction hs as [|p hs IH]; intros counts HF Hfin.
  - inversion HF; subst. repeat split; constructor.
  - inversion HF as [|? ph ? counts' Hst HF']; subst.
    inversion Hfin as [|? ? Hp Hfin']; subst.
    destruct (IH counts' HF' Hfin') as (Hlen & Hfil & Hok).
    destruct p as [r|X e k]; [|discriminate Hp].
    destruct ph as [v|]; cbn [stands counted uncounted] in Hst; [|contradiction].
    destruct r as [r| |]; try contradiction.
    change (omap id (Some v :: counts')) with (v :: omap id counts').
    cbn [length]. rewrite !filter_cons. cbn [granted].
    split; [rewrite Hlen; reflexivity|]. split.
    + destruct (decide (allowed r = true)) as [Ha|Ha];
        destruct (decide (v <= limit)) as [Hv|Hv]; cbn [length];
        try (rewrite Hfil; reflexivity).
      * exfalso. apply Hv, Hst, Ha.
      * exfalso. apply Ha, Hst, Hv.
    + constructor; [eexists; reflexivity | exact Hok].
Qed.

(** X16 - the limit holds when checks overlap.  Any number of checks of
    one identifier start on a connected client and a store that answers,
    and their calls to the store are interleaved in any order, all within
    one instant of the clock.  At every
    moment the checks that have answered "allowed" are at most
    [maxRequests - c0], where [c0] is the count the counter held at the
    start (0 if absent or expired); no check has raised or been left
    unanswered by the store.  When all have finished, exactly
    [min n (maxRequests - c0)] of the [n] checks were allowed (none if
    that is negative) and the counter holds [c0 + n]. *)
Theorem limit_holds_when_checks_overlap (options : RateLimitOptions)
    (n : nat) (schedule : list (nat * nat)) (w w' : World)
    (hs : list (Prog RateLimitResult)) :
  connected (redis w) ->
  0 < windowMs options ->
  sched schedule (replicate n (checkRateLimit options)) w = Some (hs, w') ->
  let key := rate_limit_key (identifier options) in
  let c0 := live_count (now w) (counters (redis w)) key in
  let grants := Z.of_nat (length (filter (fun p => granted p = true) hs)) in
  grants <= Z.max 0 (maxRequests options - c0) /\
  (forall i r, hs !! i = Some (Ret r) -> exists res, r = Ok res) /\
  (Forall (fun p => finished p = true) hs ->
   grants = Z.max 0 (Z.min (Z.of_nat n) (maxRequests options - c0)) /\
   live_count (now w') (counters (redis w')) key = c0 + Z.of_nat n).
Proof.
  intros Hc HW Hs key c0 grants.
  pose proof (sched_in_flight key (maxRequests options) c0 schedule _ _ _ _
                (in_flight_start options n w Hc HW) Hs)
    as (_ & counts & HF & Hnd & Hb & Hlen).
  pose proof (sched_length schedule _ _ _ _ Hs) as Hn.
  rewrite length_replicate in Hn.
  split; [|split].
  - destruct (granted_counts key _ hs counts HF) as (vs & Hsub & Hle & Hl).
    subst grants. rewrite <- Hl. apply NoDup_interval.
    + eapply sublist_NoDup; eassumption.
    + rewrite Forall_forall in Hb, Hle. apply Forall_forall. intros v Hv.
      specialize (Hle v Hv).
      specialize (Hb v (elem_of_submseteq _ _ _ Hv (sublist_submseteq _ _ Hsub))).
      lia.
  - intros i r Hi.
    destruct (Forall2_lookup_l _ _ _ _ _ HF Hi) as (ph & _ & Hst).
    destruct ph as [v|]; cbn [stands counted uncounted] in Hst; [|contradiction].
    destruct r as [res| |]; [eauto | contradiction | contradiction].
  - intros Hfin.
    destruct (finished_counts key _ hs counts HF Hfin) as (Hl & Hfil & _).
    rewrite Hl, Hn in Hlen. split; [|exact Hlen].
    subst grants. rewrite Hfil.
    assert (Hperm : omap id counts ≡ₚ seqZ (c0 + 1) (Z.of_nat n)).
    { rewrite <- Hn, <- Hl. apply NoDup_interval_full; [exact Hnd|].
      rewrite Hl, Hn, <- Hlen. exact Hb. }
    rewrite Hperm, filter_le_seqZ. lia.
Qed.

(** Limit 2, three overlapping checks of a fresh counter: the two that
    counted 1 and 2 are allowed, the third is denied. *)
Lemma limit_holds_when_checks_overlap_witness :
  let options := mkOptions 2 60000 "user:alice" in
  exists hs w',
    sched overlapping_checks (replicate 3 (checkRateLimit options))
      busy_ip_world = Some (hs, w') /\
    granted <$> hs = [true; true; false] /\
    Forall (fun p => finished p = true) hs /\
    Z.of_nat (length (filter (fun p => granted p = true) hs))
    <= Z.max 0 (maxRequests options
                - live_count (now busy_ip_world)
                    (counters (redis busy_ip_world))
                    (rate_limit_key (identifier options))).
Proof.
  intros options.
  destruct (sched overlapping_checks (replicate 3 (checkRateLimit options))
              busy_ip_world) as [[hs w']|] eqn:Hs;
    [|vm_compute in Hs; discriminate Hs].
  exists hs, w'. split; [reflexivity|].
  assert (Hc : connected (redis busy_ip_world)) by (split; [reflexivity | constructor]).
  assert (HW : 0 < windowMs options) by reflexivity.
  pose proof (limit_holds_when_checks_overlap options 3 overlapping_checks
                busy_ip_world w' hs Hc HW Hs) as (Hle & _).
  split; [|split; [|exact Hle]].
  - vm_compute in Hs. injection Hs as <- _. reflexivity.
  - vm_compute in Hs. injection Hs as <- _. repeat constructor.
Defined.
